(** * OllamaBot [scripts/code.py]: the DAG job scheduler, its plan compiler
      and the worker's command-safety gate.

    A shallow embedding of the scheduler core of [code.py] and the
    properties its specification states about it.

    Conventions.
    - A Python [str] is a Rocq [string]; every character stands for one code
      point below 256.
    - [time.time()] readings are passed in as arguments and counted in
      milliseconds ([Z]), so the source's [now + lease_ms / 1000.0] (seconds)
      reads [now + lease_ms].
    - A SQLite table is the list of its rows in storage (rowid) order; [NULL]
      is [None]. *)

From Stdlib Require Import List ZArith Lia Bool Ascii String.
From Stdlib Require Import Permutation Sorted DecimalString DecimalPos.
Import ListNotations.

Local Open Scope string_scope.
Local Open Scope Z_scope.

(* ================================================================== *)
(** * Python string primitives *)
(* ================================================================== *)

Module PyStr.

(** [str.isspace] on one character, for the code points below 256:
    TAB..CR, FS..US, SPACE, NEL and NBSP. *)
Definition is_space (c : ascii) : bool :=
  let n := nat_of_ascii c in
  ((9 <=? n) && (n <=? 13) || (28 <=? n) && (n <=? 32)
   || (n =? 133) || (n =? 160))%nat.

Fixpoint lstrip (s : string) : string :=
  match s with
  | EmptyString => EmptyString
  | String c s' => if is_space c then lstrip s' else s
  end.

Fixpoint rstrip (s : string) : string :=
  match s with
  | EmptyString => EmptyString
  | String c s' =>
      match rstrip s' with
      | EmptyString => if is_space c then EmptyString else String c EmptyString
      | r => String c r
      end
  end.

(** [s.strip()] *)
Definition strip (s : string) : string := rstrip (lstrip s).

(** [s.startswith(p)] *)
Definition startswith (s p : string) : bool := String.prefix p s.

(** [sub in s] *)
Fixpoint contains (sub s : string) : bool :=
  String.prefix sub s ||
  match s with
  | EmptyString => false
  | String _ s' => contains sub s'
  end.

(** [s[:n]] *)
Definition take (n : nat) (s : string) : string := String.substring 0 n s.

(** [s.rfind(".")]: the index of the last dot, if there is one. *)
Fixpoint rfind_dot (s : string) : option nat :=
  match s with
  | EmptyString => None
  | String c s' =>
      match rfind_dot s' with
      | Some i => Some (S i)
      | None => if Ascii.eqb c "."%char then Some 0%nat else None
      end
  end.

End PyStr.

(* ================================================================== *)
(** * Worker: the command-safety gate *)
(* ================================================================== *)

Definition CMD_ALLOWLIST : list string :=
  [ "echo "; "cat "; "test "; "ls "; "mkdir "; "cp "; "mv ";
    "go test"; "go build"; "go vet"; "go fmt";
    "python"; "pip "; "npm "; "npx "; "node ";
    "make"; "cargo "; "rustc ";
    "git "; "diff "; "patch ";
    "swift "; "xcodebuild";
    "./code "; "./scripts/code";
    "true"; "false";
    "touch "; "rm ";
    "head "; "tail "; "wc "; "sort "; "uniq ";
    "grep "; "rg "; "fd ";
    "sha1sum"; "sha256sum"; "md5sum";
    "sleep " ].

Definition CMD_BLOCKLIST : list string :=
  [ "rm -rf /"; "rm -rf ~"; "sudo "; "curl "; "wget ";
    "eval "; "> /dev/"; "mkfs"; "dd if="; ":(){ " ].

(** The first loop of [is_cmd_safe]: some blocklist entry occurs in the
    stripped command. *)
Definition blocked (cmd_stripped : string) : bool :=
  existsb (fun b => PyStr.contains b cmd_stripped) CMD_BLOCKLIST.

(** The second loop: some allowlist entry is a prefix of the stripped
    command, or equals it once the entry itself is stripped. *)
Definition allowed (cmd_stripped : string) : bool :=
  existsb (fun prefix =>
             PyStr.startswith cmd_stripped prefix
             || String.eqb cmd_stripped (PyStr.strip prefix))
          CMD_ALLOWLIST.

Definition is_cmd_safe (cmd : string) : bool :=
  let cmd_stripped := PyStr.strip cmd in
  if blocked cmd_stripped then false
  else if allowed cmd_stripped then true
  else if PyStr.startswith cmd_stripped "./" then true
  else false.

(* ================================================================== *)
(** * Data model: the three tables of [SCHEMA] *)
(* ================================================================== *)

Inductive status := Queued | Running | Done | Failed.

Definition status_eqb (a b : status) : bool :=
  match a, b with
  | Queued, Queued | Running, Running | Done, Done | Failed, Failed => true
  | _, _ => false
  end.

(** One row of [jobs]; the fields are the columns, prefixed by [j_]. *)
Record job := mkJob {
  j_id : string;
  j_lane : Z;
  j_payload : string;
  j_status : status;
  j_holder : option string;
  j_lease_until : option Z;
  j_created_at : Z;
  j_updated_at : Z;
  j_error : option string;
  j_attempts : Z;
  j_max_attempts : Z;
  j_dedupe_key : option string
}.

Inductive event_kind :=
  Enqueued | Claimed | EvDone | EvFailed | Requeued | DedupeSkip.

(** One row of [events]. *)
Record event := mkEvent {
  e_ts : Z;
  e_job_id : option string;
  e_kind : event_kind;
  e_msg : string
}.

(** The database file: [jobs], [job_deps] (rows [(job_id, dep_id)]) and
    [events]. *)
Record db := mkDb {
  jobs : list job;
  job_deps : list (string * string);
  events : list event
}.

Definition empty_db : db := mkDb [] [] [].

Definition LEASE_MS : Z := 30000.
Definition MAX_ATTEMPTS : Z := 3.
Definition VALID_PREFIXES : list string :=
  [ "@file:"; "@cmd:"; "@url:"; "@git:"; "@gh:"; "@doc:" ].

(* ------------------------------------------------------------------ *)
(** ** Connections, transactions and exceptions *)

(** What the source raises. *)
Inductive exn :=
| BadPayload (payload : string)           (* ValueError of validate_payload *)
| NoSteps                                 (* RuntimeError: no steps found *)
| UnknownDep (step_id dep_id : string)    (* RuntimeError: unknown step *)
| ParseError (msg : string).              (* whatever parse_plan raises *)

Inductive result (A : Type) :=
| Ok (a : A)
| Raise (e : exn).
Arguments Ok {A} a.
Arguments Raise {A} e.

(** An open [sqlite3] connection: the database as committed on disk and
    the connection's own view, which includes its pending writes. *)
Record conn := mkConn {
  committed : db;
  working : db
}.

(** Code running against a connection: it returns or raises, and leaves the
    connection in some state either way. *)
Definition Session (A : Type) : Type := conn -> result A * conn.

Definition ret {A} (a : A) : Session A := fun c => (Ok a, c).
Definition raise {A} (e : exn) : Session A := fun c => (Raise e, c).
Definition bind {A B} (m : Session A) (k : A -> Session B) : Session B :=
  fun c => match m c with
           | (Ok a, c') => k a c'
           | (Raise e, c') => (Raise e, c')
           end.

Notation "x <- m ;; k" := (bind m (fun x => k))
  (at level 61, m at next level, right associativity).
Notation "m ;;; k" := (bind m (fun _ => k))
  (at level 61, right associativity).

(** [conn.execute] of a writing statement. *)
Definition execute (stmt : db -> db) : Session unit :=
  fun c => (Ok tt, mkConn (committed c) (stmt (working c))).

(** [conn.execute(...).fetchall()] and [.rowcount]: read the connection's
    view. *)
Definition query {A} (q : db -> A) : Session A :=
  fun c => (Ok (q (working c)), c).

(** [conn.commit()] / [COMMIT]. *)
Definition commit : Session unit :=
  fun c => (Ok tt, mkConn (working c) (working c)).

(** [BEGIN IMMEDIATE]: takes the write lock; no effect on the data. *)
Definition begin_immediate : Session unit := ret tt.

(** [with db_conn(db_path) as conn: body]: open, run, and close in the
    [finally]; closing drops whatever was not committed. *)
Definition db_conn {A} (body : Session A) (store : db) : result A * db :=
  let (r, c) := body (mkConn store store) in (r, committed c).

Fixpoint for_each {A} (l : list A) (body : A -> Session unit) : Session unit :=
  match l with
  | [] => ret tt
  | x :: rest => body x ;;; for_each rest body
  end.

(* ------------------------------------------------------------------ *)
(** ** DB layer *)

(** [UPDATE jobs SET set WHERE cond] *)
Definition update_jobs (cond : job -> bool) (set : job -> job) (d : db) : db :=
  mkDb (map (fun j => if cond j then set j else j) (jobs d))
       (job_deps d) (events d).

(** The [rowcount] that statement reports. *)
Definition rowcount (cond : job -> bool) (d : db) : nat :=
  List.length (filter cond (jobs d)).

Definition log_event (now : Z) (job_id : option string) (kind : event_kind)
    (msg : string) : Session unit :=
  execute (fun d =>
    mkDb (jobs d) (job_deps d)
         (events d ++ [mkEvent now job_id kind (PyStr.take 500 msg)])).

Definition validate_payload (payload : string) : Session unit :=
  if existsb (fun p => PyStr.startswith payload p) VALID_PREFIXES
  then ret tt
  else raise (BadPayload (PyStr.take 80 payload)).

(** [INSERT OR IGNORE INTO jobs ...]: [id] is the primary key. *)
Definition insert_job_or_ignore (j : job) (d : db) : db :=
  if existsb (fun r => String.eqb (j_id r) (j_id j)) (jobs d) then d
  else mkDb (jobs d ++ [j]) (job_deps d) (events d).

Definition enqueue_job (now : Z) (job_id : string) (lane : Z) (payload : string)
    (dedupe_key : option string) (max_attempts : Z) : Session unit :=
  validate_payload payload ;;;
  execute (insert_job_or_ignore
             (mkJob job_id lane payload Queued None None now now None 0
                    max_attempts dedupe_key)) ;;;
  log_event now (Some job_id) Enqueued (PyStr.take 120 payload).

(** [INSERT OR IGNORE INTO job_deps ...]: the pair is the primary key. *)
Definition insert_dep_or_ignore (job_id dep_id : string) (d : db) : db :=
  if existsb (fun e => String.eqb (fst e) job_id && String.eqb (snd e) dep_id)
             (job_deps d)
  then d
  else mkDb (jobs d) (job_deps d ++ [(job_id, dep_id)]) (events d).

Definition add_dep (job_id dep_id : string) : Session unit :=
  execute (insert_dep_or_ignore job_id dep_id).

(** [conn.execute("UPDATE jobs SET set WHERE cond")]; the value is the
    cursor's [rowcount]. *)
Definition execute_update (cond : job -> bool) (set : job -> job) : Session nat :=
  fun c => (Ok (rowcount cond (working c)),
            mkConn (committed c) (update_jobs cond set (working c))).

Definition id_is (job_id : string) (j : job) : bool := String.eqb (j_id j) job_id.

Definition status_is (s : status) (j : job) : bool := status_eqb (j_status j) s.

(** [holder = ?] in a WHERE clause: never true of a NULL column. *)
Definition holder_is (h : string) (j : job) : bool :=
  match j_holder j with
  | Some h' => String.eqb h' h
  | None => false
  end.

(** [status='running' AND lease_until < now] *)
Definition is_stale (now : Z) (j : job) : bool :=
  status_is Running j &&
  match j_lease_until j with
  | Some l => l <? now
  | None => false
  end.

(** [SET status='queued', holder=NULL, lease_until=NULL, updated_at=now] *)
Definition set_requeued (now : Z) (j : job) : job :=
  mkJob (j_id j) (j_lane j) (j_payload j) Queued None None
        (j_created_at j) now (j_error j) (j_attempts j) (j_max_attempts j)
        (j_dedupe_key j).

(** [SET status='failed', error=e, updated_at=now] *)
Definition set_failed (e : string) (now : Z) (j : job) : job :=
  mkJob (j_id j) (j_lane j) (j_payload j) Failed (j_holder j) (j_lease_until j)
        (j_created_at j) now (Some e) (j_attempts j) (j_max_attempts j)
        (j_dedupe_key j).

(** [SET status='done', updated_at=now] *)
Definition set_done (now : Z) (j : job) : job :=
  mkJob (j_id j) (j_lane j) (j_payload j) Done (j_holder j) (j_lease_until j)
        (j_created_at j) now (j_error j) (j_attempts j) (j_max_attempts j)
        (j_dedupe_key j).

(** [SET status='done', holder=h, updated_at=now] (the dedupe skip) *)
Definition set_done_by (h : string) (now : Z) (j : job) : job :=
  mkJob (j_id j) (j_lane j) (j_payload j) Done (Some h) (j_lease_until j)
        (j_created_at j) now (j_error j) (j_attempts j) (j_max_attempts j)
        (j_dedupe_key j).

(** [SET status='running', holder=h, lease_until=l, attempts=attempts+1,
    updated_at=now] *)
Definition set_running (h : string) (l now : Z) (j : job) : job :=
  mkJob (j_id j) (j_lane j) (j_payload j) Running (Some h) (Some l)
        (j_created_at j) now (j_error j) (j_attempts j + 1) (j_max_attempts j)
        (j_dedupe_key j).

(** [SET lease_until=l, updated_at=now] *)
Definition set_lease (l now : Z) (j : job) : job :=
  mkJob (j_id j) (j_lane j) (j_payload j) (j_status j) (j_holder j) (Some l)
        (j_created_at j) now (j_error j) (j_attempts j) (j_max_attempts j)
        (j_dedupe_key j).

(** One turn of the loop of [requeue_stale]; [row] is a row of the [stale]
    snapshot (the source selects its id, attempts and max_attempts). *)
Definition requeue_row (now : Z) (row : job) : Session unit :=
  if j_attempts row <? j_max_attempts row then
    execute (update_jobs (id_is (j_id row)) (set_requeued now)) ;;;
    log_event now (Some (j_id row)) Requeued "stale lease"
  else
    execute (update_jobs (id_is (j_id row))
                         (set_failed "max attempts exceeded" now)) ;;;
    log_event now (Some (j_id row)) EvFailed "max attempts exceeded".

Definition requeue_stale (now : Z) : Session nat :=
  begin_immediate ;;;
  stale <- query (fun d => filter (is_stale now) (jobs d)) ;;
  for_each stale (requeue_row now) ;;;
  commit ;;;
  ret (List.length stale).

(* ------------------------------------------------------------------ *)
(** ** The artifact index *)

(** [Path.stem] of a directory entry's name: the name without its last
    suffix; a leading or a trailing dot starts no suffix. *)
Definition stem (name : string) : string :=
  match PyStr.rfind_dot name with
  | Some i =>
      if ((0 <? i) && (i <? String.length name - 1))%nat
      then PyStr.take i name else name
  | None => name
  end.

(** The artifact directory as the scheduler sees it: [None] when
    [ARTIFACT_DIR] does not exist, else the names of its entries. *)
Definition artifacts := option (list string).

(** Python truthiness of an optional string: [None] and [""] are false. *)
Definition truthy (s : option string) : bool :=
  match s with
  | None => false
  | Some "" => false
  | Some _ => true
  end.

(** [f.stem == dedupe_key] *)
Definition stem_is (dedupe_key : option string) (f : string) : bool :=
  match dedupe_key with
  | Some dk => String.eqb (stem f) dk
  | None => false
  end.

Definition check_dedupe (fs : artifacts) (dedupe_key : option string) : bool :=
  if negb (truthy dedupe_key) then false
  else match fs with
       | None => false
       | Some names => existsb (stem_is dedupe_key) names
       end.

(* ------------------------------------------------------------------ *)
(** ** Claiming *)

(** The subquery of the ready selection: some edge of [j] leads to an
    existing job that is not done. *)
Definition has_pending_dep (d : db) (j : job) : bool :=
  existsb (fun e =>
             String.eqb (fst e) (j_id j) &&
             existsb (fun dj => String.eqb (j_id dj) (snd e)
                                && negb (status_is Done dj))
                     (jobs d))
          (job_deps d).

Definition lane_ok (lane : option Z) (j : job) : bool :=
  match lane with
  | Some l => j_lane j =? l
  | None => true
  end.

Definition is_ready (d : db) (lane : option Z) (j : job) : bool :=
  status_is Queued j && lane_ok lane j && negb (has_pending_dep d j).

(** [ORDER BY created_at]: the sort moves a row only past rows with a
    strictly later [created_at], so rows that tie stay as the scan met
    them.  The source names no further sort key. *)
Fixpoint insert_by_created (x : job) (l : list job) : list job :=
  match l with
  | [] => [x]
  | y :: l' =>
      if j_created_at x <=? j_created_at y then x :: l
      else y :: insert_by_created x l'
  end.

Definition order_by_created (l : list job) : list job :=
  fold_right insert_by_created [] l.

(** [LIMIT n]: a negative [n] is no limit in SQLite. *)
Definition limit {A} (n : Z) (l : list A) : list A :=
  if n <? 0 then l else firstn (Z.to_nat n) l.

Definition select_ready (lane : option Z) (batch : Z) (d : db) : list job :=
  limit batch (order_by_created (filter (is_ready d lane) (jobs d))).

(** An entry of the list [claim_ready] returns. *)
Record claimed_job := mkClaimed {
  c_id : string;
  c_lane : Z;
  c_payload : string;
  c_dedupe_key : option string
}.

Definition key_text (dk : option string) : string :=
  match dk with Some s => s | None => "None" end.

(** The [for row in rows] loop of [claim_ready]. *)
Fixpoint claim_rows (fs : artifacts) (holder : string) (now lease_until : Z)
    (rows : list job) (claimed : list claimed_job) : Session (list claimed_job) :=
  match rows with
  | [] => ret claimed
  | row :: rest =>
      let jid := j_id row in
      let dk := j_dedupe_key row in
      if check_dedupe fs dk then
        execute (update_jobs (fun j => id_is jid j && status_is Queued j)
                             (set_done_by holder now)) ;;;
        log_event now (Some jid) DedupeSkip ("artifact exists for " ++ key_text dk) ;;;
        commit ;;;
        claim_rows fs holder now lease_until rest claimed
      else
        n <- execute_update (fun j => id_is jid j && status_is Queued j)
                            (set_running holder lease_until now) ;;
        if (0 <? n)%nat then
          log_event now (Some jid) Claimed ("holder=" ++ holder) ;;;
          claim_rows fs holder now lease_until rest
            (claimed ++ [mkClaimed jid (j_lane row) (j_payload row) dk])
        else
          claim_rows fs holder now lease_until rest claimed
  end.

(** [claim_ready]; [now_sweep] is the clock reading of [requeue_stale] and
    [now] the one taken after it. *)
Definition claim_ready (fs : artifacts) (now_sweep now : Z) (holder : string)
    (lane : option Z) (batch : Z) (lease_ms : Z) : Session (list claimed_job) :=
  requeue_stale now_sweep ;;;
  let lease_until := now + lease_ms in
  rows <- query (select_ready lane batch) ;;
  claimed <- claim_rows fs holder now lease_until rows [] ;;
  commit ;;;
  ret claimed.

(* ------------------------------------------------------------------ *)
(** ** Reporting and heartbeat *)

(** [holder = ?] with the parameter bound to the caller's [holder]. *)
Definition holder_eq_param (p : option string) (j : job) : bool :=
  match p with
  | Some h => holder_is h j
  | None => false
  end.

(** The WHERE clause of [mark_done] and [mark_failed]: the branch on
    [if holder:] chooses between the two statements. *)
Definition report_guard (job_id : string) (holder : option string) (j : job) : bool :=
  if truthy holder
  then id_is job_id j && status_is Running j && holder_eq_param holder j
  else id_is job_id j && status_is Running j.

Definition mark_done (now : Z) (job_id : string) (holder : option string)
  : Session unit :=
  execute (update_jobs (report_guard job_id holder) (set_done now)) ;;;
  log_event now (Some job_id) EvDone "" ;;;
  commit.

Definition mark_failed (now : Z) (job_id : string) (error : string)
    (holder : option string) : Session unit :=
  execute (update_jobs (report_guard job_id holder)
                       (set_failed (PyStr.take 1000 error) now)) ;;;
  log_event now (Some job_id) EvFailed (PyStr.take 200 error) ;;;
  commit.

Definition heartbeat (now : Z) (job_id holder : string) (lease_ms : Z)
  : Session bool :=
  let lease_until := now + lease_ms in
  n <- execute_update
         (fun j => id_is job_id j && status_is Running j && holder_is holder j)
         (set_lease lease_until now) ;;
  commit ;;;
  ret (0 <? n)%nat.

(* ------------------------------------------------------------------ *)
(** ** Plan compiler *)

(** A step as [parse_plan] emits it. *)
Record step := mkStep {
  s_id : string;
  s_global_id : string;
  s_lane : Z;
  s_payload : string;
  s_deps : list string;
  s_dedupe_key : option string
}.

(** [{s["id"]: s["global_id"] for s in steps}]: a later step with the same
    id replaces the earlier entry. *)
Definition id_map_of (steps : list step) : list (string * string) :=
  map (fun s => (s_id s, s_global_id s)) steps.

Definition dict_get (k : string) (m : list (string * string)) : option string :=
  fold_left (fun acc kv => if String.eqb (fst kv) k then Some (snd kv) else acc)
            m None.

(** The body of the inner dependency loop of [expand_plan]. *)
Definition add_step_dep (id_map : list (string * string)) (st : step)
    (dep_id : string) : Session unit :=
  match dict_get dep_id id_map with
  | None => raise (UnknownDep (s_id st) dep_id)
  | Some g => add_dep (s_global_id st) g
  end.

(** The session [expand_plan] runs inside [with db_conn(...)]. *)
Definition expand_session (now : Z) (plan_id : string) (steps : list step)
  : Session (string * nat) :=
  let id_map := id_map_of steps in
  for_each steps (fun st =>
    enqueue_job now (s_global_id st) (s_lane st) (s_payload st)
                (s_dedupe_key st) MAX_ATTEMPTS) ;;;
  commit ;;;
  for_each steps (fun st => for_each (s_deps st) (add_step_dep id_map st)) ;;;
  commit ;;;
  ret (plan_id, List.length steps).

(** [expand_plan]; [parsed] is what [parse_plan(plan_path)] returned or
    raised, the plan id and the steps (the policy is not used here). *)
Definition expand_plan (now : Z) (parsed : result (string * list step))
    (store : db) : result (string * nat) * db :=
  match parsed with
  | Raise e => (Raise e, store)
  | Ok (plan_id, steps) =>
      match steps with
      | [] => (Raise NoSteps, store)
      | _ => db_conn (expand_session now plan_id steps) store
      end
  end.

(* ------------------------------------------------------------------ *)
(** ** The operations on the store, one connection each *)

(** [POST /enqueue] *)
Definition enqueue (now : Z) (job_id : string) (lane : Z) (payload : string)
    (deps : list string) (dedupe_key : option string) (max_attempts : Z)
  : Session unit :=
  enqueue_job now job_id lane payload dedupe_key max_attempts ;;;
  for_each deps (add_dep job_id) ;;;
  commit.

Inductive op :=
| OpEnqueue (now : Z) (job_id : string) (lane : Z) (payload : string)
            (deps : list string) (dedupe_key : option string) (max_attempts : Z)
| OpClaim (fs : artifacts) (now_sweep now : Z) (holder : string)
          (lane : option Z) (batch lease_ms : Z)
| OpHeartbeat (now : Z) (job_id holder : string) (lease_ms : Z)
| OpDone (now : Z) (job_id : string) (holder : option string)
| OpFail (now : Z) (job_id error : string) (holder : option string)
| OpRequeueStale (now : Z)
| OpExpand (now : Z) (parsed : result (string * list step)).

(** The store after one operation. *)
Definition run_op (o : op) (store : db) : db :=
  match o with
  | OpEnqueue now job_id lane payload deps dk ma =>
      snd (db_conn (enqueue now job_id lane payload deps dk ma) store)
  | OpClaim fs now_sweep now holder lane batch lease_ms =>
      snd (db_conn (claim_ready fs now_sweep now holder lane batch lease_ms) store)
  | OpHeartbeat now job_id holder lease_ms =>
      snd (db_conn (heartbeat now job_id holder lease_ms) store)
  | OpDone now job_id holder =>
      snd (db_conn (mark_done now job_id holder) store)
  | OpFail now job_id error holder =>
      snd (db_conn (mark_failed now job_id error holder) store)
  | OpRequeueStale now =>
      snd (db_conn (requeue_stale now) store)
  | OpExpand now parsed =>
      snd (expand_plan now parsed store)
  end.

(** The stores the scheduler can be in: the empty database of [init_db]
    and whatever a sequence of operations makes of it. *)
Inductive reachable : db -> Prop :=
| reach_init : reachable empty_db
| reach_step o s : reachable s -> reachable (run_op o s).

(** The first row with the given id. *)
Definition get_job (job_id : string) (d : db) : option job :=
  find (id_is job_id) (jobs d).

(* ================================================================== *)
(** * Specification vocabulary *)
(* ================================================================== *)

(** [id] is the primary key of [jobs]. *)
Definition unique_ids (d : db) : Prop := NoDup (map j_id (jobs d)).

(** What the stale sweep does to one stale row. *)
Definition requeue_one (now : Z) (j : job) : job :=
  if j_attempts j <? j_max_attempts j then set_requeued now j
  else set_failed "max attempts exceeded" now j.

(** The whole sweep, row by row. *)
Definition sweep_job (now : Z) (j : job) : job :=
  if is_stale now j then requeue_one now j else j.

(** The event one turn of the sweep appends. *)
Definition requeue_event (now : Z) (row : job) : event :=
  if j_attempts row <? j_max_attempts row
  then mkEvent now (Some (j_id row)) Requeued "stale lease"
  else mkEvent now (Some (j_id row)) EvFailed "max attempts exceeded".

(** [row] was picked by a loop over [rows]. *)
Definition picked (rows : list job) (j : job) : bool :=
  existsb (fun r => id_is (j_id r) j) rows.

(** The database after [requeue_stale]. *)
Definition swept (now : Z) (d : db) : db :=
  mkDb (map (sweep_job now) (jobs d)) (job_deps d)
       (events d ++ map (requeue_event now) (filter (is_stale now) (jobs d))).

(** Invariant 1 of the specification, and its left-to-right half. *)
Definition running_iff_leased (j : job) : Prop :=
  j_status j = Running <-> (j_holder j <> None /\ j_lease_until j <> None).

Definition running_leased (j : job) : Prop :=
  j_status j = Running -> j_holder j <> None /\ j_lease_until j <> None.

(** Every row of the store satisfies [Q], and ids are unique. *)
Definition store_inv (Q : job -> Prop) (d : db) : Prop :=
  unique_ids d /\ Forall Q (jobs d).

(** A session keeps [P] true of both the committed database and the
    connection's view. *)
Definition preserves {A} (P : db -> Prop) (m : Session A) : Prop :=
  forall c, P (committed c) -> P (working c) ->
            P (committed (snd (m c))) /\ P (working (snd (m c))).

(** What the loop of [claim_ready] does to one selected row, the event it
    appends for it, and the entry it returns for a row it claims. *)
Definition claim_one (fs : artifacts) (holder : string) (lease_until now : Z)
    (j : job) : job :=
  if check_dedupe fs (j_dedupe_key j) then set_done_by holder now j
  else set_running holder lease_until now j.

Definition claim_event (fs : artifacts) (holder : string) (now : Z) (row : job)
  : event :=
  if check_dedupe fs (j_dedupe_key row)
  then mkEvent now (Some (j_id row)) DedupeSkip
               (PyStr.take 500 ("artifact exists for " ++ key_text (j_dedupe_key row)))
  else mkEvent now (Some (j_id row)) Claimed (PyStr.take 500 ("holder=" ++ holder)).

Definition to_claimed (row : job) : claimed_job :=
  mkClaimed (j_id row) (j_lane row) (j_payload row) (j_dedupe_key row).

Definition deduped (fs : artifacts) (row : job) : bool :=
  check_dedupe fs (j_dedupe_key row).

Definition not_deduped (fs : artifacts) (row : job) : bool :=
  negb (check_dedupe fs (j_dedupe_key row)).

(** The database after [claim_ready]. *)
Definition claimed_db (fs : artifacts) (now_sweep now : Z) (holder : string)
    (lane : option Z) (batch lease_ms : Z) (d : db) : db :=
  let d1 := swept now_sweep d in
  let rows := select_ready lane batch d1 in
  mkDb (map (fun j => if picked rows j
                      then claim_one fs holder (now + lease_ms) now j else j)
            (jobs d1))
       (job_deps d1)
       (events d1 ++ map (claim_event fs holder now) rows).

(** What holds of every row: a running job has a holder and a lease, a
    queued job has neither. *)
Definition lease_discipline (j : job) : Prop :=
  (j_status j = Running -> j_holder j <> None /\ j_lease_until j <> None) /\
  (j_status j = Queued -> j_holder j = None /\ j_lease_until j = None).

(** The attempt cap, for a job whose cap is at least one; a queued job
    still has an attempt left. *)
Definition attempts_capped (j : job) : Prop :=
  1 <= j_max_attempts j ->
  j_attempts j <= j_max_attempts j /\
  (j_status j = Queued -> j_attempts j < j_max_attempts j).

(** A history of operations, oldest first. *)
Definition run_ops (ops : list op) (store : db) : db :=
  fold_left (fun s o => run_op o s) ops store.

(** Enqueue J, let [w1] claim it, and let [w1] report it done. *)
Definition done_history : list op :=
  [ OpEnqueue 0 "J" 0 "@cmd:true" [] None 3;
    OpClaim None 1 1 "w1" None 1 LEASE_MS;
    OpDone 2 "J" (Some "w1") ].

(** Enqueue J with [max_attempts = 0] and claim it. *)
Definition zero_cap_history : list op :=
  [ OpEnqueue 0 "J" 0 "@cmd:true" [] None 0;
    OpClaim None 1 1 "w1" None 1 LEASE_MS ].

(** Scenario S4: J with [max_attempts = 2] is claimed by [w1], swept and
    requeued after the lease ran out, and claimed again by [w2]. *)
Definition retry_history : list op :=
  [ OpEnqueue 0 "J" 0 "@cmd:true" [] None 2;
    OpClaim None 1 1 "w1" None 1 LEASE_MS;
    OpClaim None 40000 40000 "w2" None 1 LEASE_MS ].

(** [a] is not created after [b]. *)
Definition created_le (a b : job) : Prop := j_created_at a <= j_created_at b.

(** Two jobs enqueued at the same instant, "b" before "a". *)
Definition tie_history : list op :=
  [ OpEnqueue 0 "b" 0 "@cmd:true" [] None 3;
    OpEnqueue 0 "a" 0 "@cmd:true" [] None 3 ].

(** Three ready jobs; the oldest has a dedupe key. *)
Definition slots_history : list op :=
  [ OpEnqueue 0 "a" 0 "@cmd:true" [] (Some "abc123") 3;
    OpEnqueue 1 "b" 0 "@cmd:true" [] None 3;
    OpEnqueue 2 "c" 0 "@cmd:true" [] None 3 ].

(** An artifact directory that holds the artifact of "abc123". *)
Definition slots_artifacts : artifacts := Some ["abc123.bin"].

(** [w1] claims J and goes silent; after the lease ran out [w2] claims J. *)
Definition stolen_history : list op :=
  [ OpEnqueue 0 "J" 0 "@cmd:true" [] None 3;
    OpClaim None 1 1 "w1" None 1 LEASE_MS;
    OpClaim None 40000 40000 "w2" None 1 LEASE_MS ].

(** A session that commits nothing. *)
Definition keeps_committed {A} (m : Session A) : Prop :=
  forall c, committed (snd (m c)) = committed c.

(** A session that raises nothing but exceptions in [E]. *)
Definition raises_only {A} (E : exn -> Prop) (m : Session A) : Prop :=
  forall c e, fst (m c) = Raise e -> E e.

Definition is_unknown_dep (e : exn) : Prop :=
  exists step_id dep_id, e = UnknownDep step_id dep_id.

(** A plan whose second step names a step that is not in the plan:
    [- [ ] id=a lane=1 payload=@cmd:true] and
    [- [ ] id=b lane=1 payload=@cmd:true deps=a,zz] in [p.md]. *)
Definition unknown_dep_plan : result (string * list step) :=
  Ok ("p", [ mkStep "a" "p::a" 1 "@cmd:true" [] None;
             mkStep "b" "p::b" 1 "@cmd:true" ["a"; "zz"] None ]).

(* ================================================================== *)
(** * Further vocabulary: what one operation makes of the store *)
(* ================================================================== *)

(** The condition of [validate_payload]. *)
Definition valid_payload (payload : string) : bool :=
  existsb (fun p => PyStr.startswith payload p) VALID_PREFIXES.

(** The row [enqueue_job] inserts. *)
Definition new_job (now : Z) (job_id : string) (lane : Z) (payload : string)
    (dedupe_key : option string) (max_attempts : Z) : job :=
  mkJob job_id lane payload Queued None None now now None 0 max_attempts
        dedupe_key.

(** The database after the statements of one [enqueue_job]. *)
Definition enqueued_one (now : Z) (job_id : string) (lane : Z) (payload : string)
    (dedupe_key : option string) (max_attempts : Z) (d : db) : db :=
  let d1 := insert_job_or_ignore
              (new_job now job_id lane payload dedupe_key max_attempts) d in
  mkDb (jobs d1) (job_deps d1)
       (events d1 ++ [mkEvent now (Some job_id) Enqueued
                              (PyStr.take 500 (PyStr.take 120 payload))]).

(** The database after [add_dep] for each of [deps]. *)
Definition add_deps (job_id : string) (deps : list string) (d : db) : db :=
  fold_left (fun d dep => insert_dep_or_ignore job_id dep d) deps d.

(** The first loop of [expand_plan], all payloads being valid. *)
Definition enqueue_steps (now : Z) (steps : list step) (d : db) : db :=
  fold_left (fun d st => enqueued_one now (s_global_id st) (s_lane st)
                           (s_payload st) (s_dedupe_key st) MAX_ATTEMPTS d)
            steps d.

(** The dependency edges of a step, its deps resolved through the plan's
    id map; an unresolved dep yields no edge. *)
Definition step_edges (id_map : list (string * string)) (st : step)
  : list (string * string) :=
  flat_map (fun dep => match dict_get dep id_map with
                       | Some g => [(s_global_id st, g)]
                       | None => []
                       end) (s_deps st).

Definition plan_edges (steps : list step) : list (string * string) :=
  flat_map (step_edges (id_map_of steps)) steps.

(** [INSERT OR IGNORE] of a list of edges, in order. *)
Definition add_edges (edges : list (string * string)) (d : db) : db :=
  fold_left (fun d e => insert_dep_or_ignore (fst e) (snd e) d) edges d.

(** Every dep of every step names a step of the plan. *)
Definition deps_known (steps : list step) : bool :=
  forallb (fun st => forallb (fun dep => match dict_get dep (id_map_of steps) with
                                         | Some _ => true
                                         | None => false
                                         end) (s_deps st)) steps.

Definition payloads_valid (steps : list step) : bool :=
  forallb (fun st => valid_payload (s_payload st)) steps.

(** How a row may differ from an earlier state of itself. *)
Definition evolves (j j' : job) : Prop :=
  j_id j' = j_id j /\ j_lane j' = j_lane j /\ j_payload j' = j_payload j /\
  j_created_at j' = j_created_at j /\ j_max_attempts j' = j_max_attempts j /\
  j_dedupe_key j' = j_dedupe_key j /\ j_attempts j <= j_attempts j' /\
  (j_status j = Done \/ j_status j = Failed -> j' = j).

Definition terminal (j : job) : Prop :=
  j_status j = Done \/ j_status j = Failed.

(** Enqueue A and B, B depending on A (scenario S2). *)
Definition gated_history : list op :=
  [ OpEnqueue 0 "A" 0 "@cmd:true" [] None 3;
    OpEnqueue 1 "B" 0 "@cmd:true" ["A"] None 3 ].

(** The store [d'] continues the store [d]: every row of [d] is still
    there, possibly evolved, new rows come after them, and dependency
    edges and events are only appended. *)
Definition continues (d d' : db) : Prop :=
  (exists f new, jobs d' = (map f (jobs d) ++ new)%list /\
                 (forall j, j_id (f j) = j_id j) /\
                 (forall j, In j (jobs d) -> evolves j (f j))) /\
  (exists new, job_deps d' = (job_deps d ++ new)%list) /\
  (exists new, events d' = (events d ++ new)%list).

(** What may follow a finished job: another claim, a late failure report, a
    sweep and a re-enqueue under the same id. *)
Definition afterlife_history : list op :=
  [ OpClaim None 50 50 "w2" None 5 LEASE_MS;
    OpFail 60 "J" "late" None;
    OpRequeueStale 100000;
    OpEnqueue 70 "J" 1 "@cmd:false" [] None 9;
    OpHeartbeat 80 "J" "w1" LEASE_MS ].

(** A claim, and a second one after the lease of the first ran out. *)
Definition reclaim_history : list op :=
  [ OpClaim None 1 1 "w1" None 1 LEASE_MS;
    OpClaim None 40000 40000 "w2" None 1 LEASE_MS ].

(** Scenario S2 continued: A is claimed by [w] and reported done. *)
Definition gate_open_history : list op :=
  (gated_history ++
   [ OpClaim None 5 5 "w" None 2 LEASE_MS;
     OpDone 6 "A" (Some "w") ])%list.

(** A plan of two steps, the second depending on the first. *)
Definition two_step_plan : list step :=
  [ mkStep "a" "p::a" 1 "@cmd:true" [] None;
    mkStep "b" "p::b" 2 "@file:out.diff#apply" ["a"] (Some "c0ffee") ].

(* ------------------------------------------------------------------ *)
(** ** More of the source: strings *)

(** Every character is whitespace ([s.isspace()] or [s == ""]). *)
Fixpoint all_space (s : string) : bool :=
  match s with
  | EmptyString => true
  | String c s' => PyStr.is_space c && all_space s'
  end.

(** The class [[a-fA-F0-9]]. *)
Definition is_hex (c : ascii) : bool :=
  let n := nat_of_ascii c in
  ((48 <=? n) && (n <=? 57) || (97 <=? n) && (n <=? 102)
   || (65 <=? n) && (n <=? 70))%nat.

(** The longest prefix of characters in a class: a greedy [[...]*]. *)
Fixpoint take_while (p : ascii -> bool) (s : string) : string :=
  match s with
  | EmptyString => EmptyString
  | String c s' => if p c then String c (take_while p s') else EmptyString
  end.

(** [s[n:]] *)
Fixpoint drop (n : nat) (s : string) : string :=
  match n, s with
  | O, _ => s
  | S n', String _ s' => drop n' s'
  | S _, EmptyString => EmptyString
  end.

(** The regular expression [#sha1=([a-fA-F0-9]+)] tried at the start of
    [s]: the group, or [""] when there is no match here. *)
Definition sha_here (s : string) : string :=
  if PyStr.startswith s "#sha1=" then take_while is_hex (drop 6 s)
  else EmptyString.

(** [extract_sha_from_payload]: [re.search] tries every position from the
    left and returns group 1 of the first match. *)
Fixpoint extract_sha_from_payload (payload : string) : option string :=
  match payload with
  | EmptyString => None
  | String _ rest =>
      match sha_here payload with
      | EmptyString => extract_sha_from_payload rest
      | run => Some run
      end
  end.

(** Every character of [s] is in the class [p]. *)
Fixpoint all_chars (p : ascii -> bool) (s : string) : bool :=
  match s with
  | EmptyString => true
  | String c s' => p c && all_chars p s'
  end.

(** [s] is empty or starts outside the class [p]. *)
Definition stops (p : ascii -> bool) (s : string) : bool :=
  match s with
  | EmptyString => true
  | String c _ => negb (p c)
  end.

(* ------------------------------------------------------------------ *)
(** ** More of the source: the read-only queries *)

(** The text stored in the [status] column. *)
Definition status_text (s : status) : string :=
  match s with
  | Queued => "queued"
  | Running => "running"
  | Done => "done"
  | Failed => "failed"
  end.

Definition count_status (st : status) (d : db) : nat :=
  List.length (filter (status_is st) (jobs d)).

(** [SELECT status, COUNT( * ) as cnt FROM jobs GROUP BY status]: one row
    per status that occurs, in the order of the status texts. *)
Definition group_by_status (d : db) : list (string * nat) :=
  flat_map (fun st => if (0 <? count_status st d)%nat
                      then [(status_text st, count_status st d)] else [])
           [Done; Failed; Queued; Running].

(** [d[k] = v] on a dict kept as an association list in insertion order. *)
Fixpoint dict_set {V} (k : string) (v : V) (m : list (string * V))
  : list (string * V) :=
  match m with
  | [] => [(k, v)]
  | (k', v') :: m' =>
      if String.eqb k' k then (k, v) :: m' else (k', v') :: dict_set k v m'
  end.

(** [d.get(k)] *)
Fixpoint dict_lookup {V} (k : string) (m : list (string * V)) : option V :=
  match m with
  | [] => None
  | (k', v) :: m' => if String.eqb k' k then Some v else dict_lookup k m'
  end.

(** [get_stats]: the counts per status that occurs, and their sum under
    ["total"]. *)
Definition get_stats (d : db) : list (string * nat) :=
  let stats := group_by_status d in
  dict_set "total" (fold_right Nat.add 0%nat (map snd stats)) stats.

(** A row as [get_jobs] returns it: the seven selected columns. *)
Record job_info := mkInfo {
  i_id : string;
  i_lane : Z;
  i_payload : string;
  i_status : string;
  i_holder : option string;
  i_error : option string;
  i_attempts : Z
}.

Definition info_of (j : job) : job_info :=
  mkInfo (j_id j) (j_lane j) (j_payload j) (status_text (j_status j))
         (j_holder j) (j_error j) (j_attempts j).

(** [WHERE status=?] *)
Definition status_text_is (s : option string) (j : job) : bool :=
  match s with
  | Some t => String.eqb (status_text (j_status j)) t
  | None => false
  end.

(** The rows [get_jobs] selects, before the projection. *)
Definition get_jobs_rows (status : option string) (limit_ : Z) (d : db) : list job :=
  if truthy status
  then limit limit_ (order_by_created (filter (status_text_is status) (jobs d)))
  else limit limit_ (order_by_created (jobs d)).

Definition get_jobs (status : option string) (limit_ : Z) (d : db) : list job_info :=
  map info_of (get_jobs_rows status limit_ d).

(* ------------------------------------------------------------------ *)
(** ** More of the source: the local worker *)

(** What [execute_job_local] does to the outside world, in order: shell
    commands handed to [execute_cmd], and the reports posted to [/done] and
    [/fail]. *)
Inductive action :=
| Exec (cmd : string)
| PostDone (jid holder : string)
| PostFail (jid holder error : string).

(** [a or b] on strings. *)
Definition str_or (a b : string) : string :=
  match a with
  | EmptyString => b
  | _ => a
  end.

(** [str(n)] for an integer. *)
Definition str_of_int (n : Z) : string := NilZero.string_of_int (Z.to_int n).

(** [s.split("#")[0]] *)
Fixpoint before_hash (s : string) : string :=
  match s with
  | EmptyString => EmptyString
  | String c s' => if Ascii.eqb c "#" then EmptyString
                   else String c (before_hash s')
  end.

Section Worker.

(** The shell and the file system, as the worker meets them:
    [execute_cmd] returns exit code, stdout and stderr. *)
Variable execute_cmd : string -> Z * string * string.
Variable isfile : string -> bool.

(** [apply_patch]: the actions taken and the triple returned. *)
Definition apply_patch (path : string) : list action * (Z * string * string) :=
  if negb (isfile path)
  then ([], (1, "", "patch file not found: " ++ path))
  else ([Exec ("patch -p1 < " ++ path)], execute_cmd ("patch -p1 < " ++ path)).

(** [execute_job_local], the requests to the server going through: the
    actions taken and the value returned. *)
Definition execute_job_local (jid payload holder : string) : list action * bool :=
  if PyStr.startswith payload "@cmd:" then
    let cmd := drop 5 payload in
    if negb (is_cmd_safe cmd) then
      ([PostFail jid holder ("blocked command: " ++ PyStr.take 60 cmd)], false)
    else
      let '(code, stdout, stderr) := execute_cmd cmd in
      if code =? 0 then ([Exec cmd; PostDone jid holder], true)
      else
        let err_msg :=
          PyStr.take 500
            (str_or stderr (str_or stdout ("exit code " ++ str_of_int code))) in
        ([Exec cmd; PostFail jid holder err_msg], false)
  else if PyStr.startswith payload "@file:" && PyStr.contains "#apply" payload then
    let path := before_hash (drop 6 payload) in
    let '(acts, (code, stdout, stderr)) := apply_patch path in
    if code =? 0 then ((acts ++ [PostDone jid holder])%list, true)
    else ((acts ++ [PostFail jid holder (PyStr.take 500 (str_or stderr stdout))])%list,
          false)
  else if PyStr.startswith payload "@file:" && PyStr.contains "#test" payload then
    let path := before_hash (drop 6 payload) in
    let cmd := "test -f " ++ path in
    let '(code, stdout, stderr) := execute_cmd cmd in
    if code =? 0 then ([Exec cmd; PostDone jid holder], true)
    else ([Exec cmd; PostFail jid holder ("test failed: " ++ path)], false)
  else if PyStr.startswith payload "@doc:" || PyStr.startswith payload "@url:"
          || PyStr.startswith payload "@git:" || PyStr.startswith payload "@gh:" then
    ([PostDone jid holder], true)
  else if PyStr.startswith payload "@file:" then
    ([PostFail jid holder "LLM-required job; not executable in local mode"], false)
  else
    ([PostFail jid holder ("unknown payload type: " ++ PyStr.take 40 payload)], false).

End Worker.

Definition is_report (a : action) : bool :=
  match a with
  | Exec _ => false
  | _ => true
  end.

(** A shell that fails every command, and a file system without files. *)
Definition failing_shell (cmd : string) : Z * string * string := (2, "", "").
Definition no_files (path : string) : bool := false.

(** No character of [s] is [#]. *)
Definition hash_free (s : string) : bool :=
  all_chars (fun c => negb (Ascii.eqb c "#")) s.

(** No character of [s] is a dot. *)
Definition dot_free (s : string) : bool :=
  all_chars (fun c => negb (Ascii.eqb c ".")) s.

(* ------------------------------------------------------------------ *)
(** ** More of the source: the plan parser *)

Module Py.

(** The line boundaries of [str.splitlines] below 256: LF, VT, FF, CR, FS,
    GS, RS and NEL. *)
Definition is_linebreak (c : ascii) : bool :=
  let n := nat_of_ascii c in
  ((10 <=? n) && (n <=? 13) || (28 <=? n) && (n <=? 30) || (n =? 133))%nat.

(** [text.splitlines()]; [cur] is the line being read.  CR LF is one
    boundary, and a boundary at the very end opens no further line. *)
Fixpoint splitlines_from (s cur : string) : list string :=
  match s with
  | EmptyString => match cur with EmptyString => [] | _ => [cur] end
  | String c s' =>
      if is_linebreak c then
        match s' with
        | String c' s'' =>
            if Ascii.eqb c "013" && Ascii.eqb c' "010"
            then cur :: splitlines_from s'' EmptyString
            else cur :: splitlines_from s' EmptyString
        | EmptyString => [cur]
        end
      else splitlines_from s' (cur ++ String c EmptyString)
  end.

Definition splitlines (s : string) : list string := splitlines_from s EmptyString.

(** [str.lower] on one character below 256: A-Z and the capital letters
    of Latin-1 (all of 192..222 but the multiplication sign). *)
Definition lower_char (c : ascii) : ascii :=
  let n := nat_of_ascii c in
  if ((65 <=? n) && (n <=? 90)
      || (192 <=? n) && (n <=? 222) && negb (n =? 215))%nat
  then ascii_of_nat (n + 32) else c.

Fixpoint lower (s : string) : string :=
  match s with
  | EmptyString => EmptyString
  | String c s' => String (lower_char c) (lower s')
  end.

(** [s.split(sep)] for a one-character separator. *)
Fixpoint split_on (sep : ascii) (s : string) : list string :=
  match s with
  | EmptyString => [EmptyString]
  | String c s' =>
      if Ascii.eqb c sep then EmptyString :: split_on sep s'
      else match split_on sep s' with
           | [] => [String c EmptyString]
           | w :: ws => String c w :: ws
           end
  end.

(** [s.split("=", 1)] when ["=" in s]: the text before the first [=] and
    the text after it. *)
Fixpoint split_eq (s : string) : option (string * string) :=
  match s with
  | EmptyString => None
  | String c s' =>
      if Ascii.eqb c "=" then Some (EmptyString, s')
      else match split_eq s' with
           | Some (k, v) => Some (String c k, v)
           | None => None
           end
  end.

(** [\w] below 256: letters, digits (also superscripts and fractions) and
    the underscore. *)
Definition is_word (c : ascii) : bool :=
  let n := nat_of_ascii c in
  ((48 <=? n) && (n <=? 57) || (65 <=? n) && (n <=? 90) || (n =? 95)
   || (97 <=? n) && (n <=? 122) || (n =? 170) || (n =? 178) || (n =? 179)
   || (n =? 181) || (n =? 185) || (n =? 186) || (188 <=? n) && (n <=? 190)
   || (192 <=? n) && (n <=? 214) || (216 <=? n) && (n <=? 246)
   || (248 <=? n) && (n <=? 255))%nat.

(** [\S] *)
Definition non_space (c : ascii) : bool := negb (PyStr.is_space c).

Definition is_digit (c : ascii) : bool :=
  let n := nat_of_ascii c in ((48 <=? n) && (n <=? 57))%nat.

(** The digits of an [int(...)] literal: decimal digits, single
    underscores allowed between them. *)
Fixpoint digits_value (s : string) (acc : Z) (after_digit : bool) : option Z :=
  match s with
  | EmptyString => if after_digit then Some acc else None
  | String c s' =>
      if is_digit c
      then digits_value s' (10 * acc + Z.of_nat (nat_of_ascii c - 48)) true
      else if Ascii.eqb c "_" && after_digit then digits_value s' acc false
      else None
  end.

(** [int(s)] for a string without whitespace; [None] is [ValueError].
    (The interpreter's cap on the number of digits is left out.) *)
Definition int (s : string) : option Z :=
  match s with
  | String "+" r => digits_value r 0 false
  | String "-" r => option_map Z.opp (digits_value r 0 false)
  | _ => digits_value s 0 false
  end.

(** The text after the first occurrence of [pat]: [s[s.find(pat) +
    len(pat):]], if [pat] occurs. *)
Fixpoint after_first (pat s : string) : option string :=
  if String.prefix pat s then Some (drop (String.length pat) s)
  else match s with
       | EmptyString => None
       | String _ s' => after_first pat s'
       end.

(** [s.rfind(pat)] for a non-empty [pat]. *)
Fixpoint rfind (pat s : string) : option nat :=
  match s with
  | EmptyString => None
  | String _ s' =>
      match rfind pat s' with
      | Some i => Some (S i)
      | None => if String.prefix pat s then Some 0%nat else None
      end
  end.

End Py.

(** The pattern [^-\s*\[\s*\]\s+(.+)$] matched against a stripped line
    without line breaks: group 1, if the line matches. *)
Definition step_re_match (line : string) : option string :=
  match line with
  | String "-" r =>
      match PyStr.lstrip r with
      | String "[" r2 =>
          match PyStr.lstrip r2 with
          | String "]" r4 =>
              match r4 with
              | String c _ =>
                  if PyStr.is_space c
                  then match PyStr.lstrip r4 with
                       | EmptyString => None
                       | rest => Some rest
                       end
                  else None
              | EmptyString => None
              end
          | _ => None
          end
      | _ => None
      end
  | _ => None
  end.

(** The pattern [(\w+)=(\S+)] tried at the start of [s]. *)
Definition field_here (s : string) : option (string * string) :=
  match take_while Py.is_word s with
  | EmptyString => None
  | key =>
      match drop (String.length key) s with
      | String "=" r =>
          match take_while Py.non_space r with
          | EmptyString => None
          | value => Some (key, value)
          end
      | _ => None
      end
  end.

(** [field_re.findall(s)]: the matches from left to right, the search
    resuming where the last match ended; [skip] characters are still
    covered by the last match. *)
Fixpoint findall_fields (s : string) (skip : nat) : list (string * string) :=
  match s with
  | EmptyString => []
  | String _ s' =>
      match skip with
      | S k => findall_fields s' k
      | O =>
          match field_here s with
          | Some (key, value) =>
              (key, value)
              :: findall_fields s' (String.length key + String.length value)
          | None => findall_fields s' 0
          end
      end
  end.

(** [dict(pairs)]: a later pair replaces the value of an earlier key. *)
Definition dict_of (pairs : list (string * string)) : list (string * string) :=
  fold_left (fun m kv => dict_set (fst kv) (snd kv) m) pairs [].

(** Whether [re.search(r"payload=(.+?)(?:\s+(?:dedupe|deps)=|$)", s)]
    finds a match in a line: [payload=] occurs and is not the end of it. *)
Fixpoint payload_re_search (s : string) : bool :=
  (String.prefix "payload=" s
   && match drop 8 s with EmptyString => false | _ => true end)
  || match s with
     | EmptyString => false
     | String _ s' => payload_re_search s'
     end.

(** One turn of the loop over [["deps=", "dedupe="]]. *)
Definition cut_trailing (trailing_field cleaned : string) : string :=
  match Py.rfind trailing_field cleaned with
  | Some (S i) => PyStr.rstrip (PyStr.take (S i) cleaned)
  | _ => cleaned
  end.

(** [[d.strip() for d in deps_str.split(",") if d.strip()] if deps_str
    else []] *)
Definition parse_deps (deps_str : string) : list string :=
  match deps_str with
  | EmptyString => []
  | _ => filter (fun d => negb (String.eqb d EmptyString))
                (map PyStr.strip (Py.split_on "," deps_str))
  end.

(** What the body of the step loop of [parse_plan] makes of one line. *)
Inductive line_outcome :=
| NoStep                      (* [continue] *)
| BadLane (text : string)     (* [int] raises ValueError *)
| Step (st : step).

Definition parse_step_line (plan_id line : string) : line_outcome :=
  match step_re_match (PyStr.strip line) with
  | None => NoStep
  | Some rest =>
      let fields := dict_of (findall_fields rest 0) in
      match dict_lookup "id" fields, dict_lookup "lane" fields with
      | None, _ => NoStep
      | Some _, None => NoStep
      | Some step_id, Some lane_text =>
          if match dict_lookup "payload" fields with
             | Some _ => false
             | None => negb (payload_re_search rest)
             end
          then NoStep
          else
            match Py.int lane_text with
            | None => BadLane lane_text
            | Some lane =>
                let payload :=
                  match Py.after_first "payload=" rest with
                  | Some payload_raw =>
                      cut_trailing "dedupe=" (cut_trailing "deps=" payload_raw)
                  | None =>
                      match dict_lookup "payload" fields with
                      | Some p => p
                      | None => EmptyString
                      end
                  end in
                let deps :=
                  match dict_lookup "deps" fields with
                  | Some deps_str => parse_deps deps_str
                  | None => []
                  end in
                let dedupe_key :=
                  match dict_lookup "dedupe" fields with
                  | Some (String c k) => Some (String c k)
                  | _ => extract_sha_from_payload payload
                  end in
                Step (mkStep step_id (plan_id ++ "::" ++ step_id) lane payload
                             deps dedupe_key)
          end
      end
  end.

(** The policy dict of [parse_plan]. *)
Definition policy := list (string * string).

(** One [p] of the inner loop over the parts of a policy line. *)
Definition policy_part (pol : policy) (p : string) : policy :=
  match Py.split_eq (PyStr.strip p) with
  | Some (k, v) => dict_set (PyStr.strip k) (PyStr.strip v) pol
  | None => pol
  end.

Definition policy_line (pol : policy) (line : string) : policy :=
  let stripped := Py.lower (PyStr.strip line) in
  if PyStr.startswith stripped "policy:"
  then fold_left policy_part (Py.split_on "," (drop 7 stripped)) pol
  else pol.

(** What [parse_plan] raises. *)
Inductive plan_error :=
| OrphansLeft (orphan_count : nat)   (* RuntimeError, ACCRUE_ALL_IDEAS *)
| LaneNotInt (text : string)         (* ValueError of [int] *)
| NoPlanIdValue.                     (* IndexError of [split(...)[1]] *)

(** The loop for the [plan_id=] header: the first such line decides. *)
Fixpoint find_plan_id (lines : list string) (slug : string) : option string :=
  match lines with
  | [] => Some slug
  | line :: rest =>
      let stripped := PyStr.strip line in
      if PyStr.startswith (Py.lower stripped) "plan_id="
      then match Py.split_eq stripped with
           | Some (_, v) => Some (PyStr.strip v)
           | None => None
           end
      else find_plan_id rest slug
  end.

(** The step loop: the steps of the lines in order, or the lane text of
    the first line whose lane is no integer. *)
Fixpoint parse_steps (plan_id : string) (lines : list string)
  : string + list step :=
  match lines with
  | [] => inr []
  | line :: rest =>
      match parse_step_line plan_id line with
      | NoStep => parse_steps plan_id rest
      | BadLane text => inl text
      | Step st =>
          match parse_steps plan_id rest with
          | inr steps => inr (st :: steps)
          | inl text => inl text
          end
      end
  end.

(** [parse_plan], from the text of the file and the slug of its path. *)
Definition parse_plan (slug text : string)
  : plan_error + (string * list step * policy) :=
  let lines := Py.splitlines text in
  let pol := fold_left policy_line lines [] in
  match find_plan_id lines slug with
  | None => inl NoPlanIdValue
  | Some plan_id =>
      let accrue :=
        String.eqb (Py.lower (match dict_lookup "accrue_all_ideas" pol with
                              | Some v => v
                              | None => "false"
                              end)) "true" in
      let orphan_count :=
        List.length (filter (PyStr.contains "TODO_ORPHAN:") lines) in
      if accrue && (0 <? orphan_count)%nat then inl (OrphansLeft orphan_count)
      else match parse_steps plan_id lines with
           | inl text => inl (LaneNotInt text)
           | inr steps => inr (plan_id, steps, pol)
           end
  end.

(** The documented shape of a step line, [- [ ] id=... lane=...
    payload=...], with the dependencies after the payload. *)
Fixpoint join_comma (items : list string) : string :=
  match items with
  | [] => EmptyString
  | [d] => d
  | d :: rest => d ++ "," ++ join_comma rest
  end.

Definition deps_text (deps : list string) : string :=
  match deps with
  | [] => EmptyString
  | _ => " deps=" ++ join_comma deps
  end.

Definition step_fields (st : step) : string :=
  "id=" ++ s_id st ++ " lane=" ++ str_of_int (s_lane st)
  ++ " payload=" ++ s_payload st ++ deps_text (s_deps st).

Definition step_line (st : step) : string := "- [ ] " ++ step_fields st.

(** The lines joined by LF. *)
Fixpoint unlines (lines : list string) : string :=
  match lines with
  | [] => EmptyString
  | [l] => l
  | l :: rest => l ++ String "010" (unlines rest)
  end.

Definition not_eq_sign (c : ascii) : bool := negb (Ascii.eqb c "=").

Definition lane_char (c : ascii) : bool := Py.is_digit c || Ascii.eqb c "-".

(** No line boundary of [splitlines]. *)
Definition on_one_line (c : ascii) : bool := negb (Py.is_linebreak c).

(** The text after the first word of [s]. *)
Definition after_word (s : string) : string :=
  drop (String.length (take_while Py.non_space s)) s.

(** A step id as a plan writes it: a non-empty word. *)
Definition dep_ok (d : string) : Prop :=
  d <> EmptyString /\ all_chars Py.is_word d = true.

(** A step that [step_line] writes without loss under plan [plan_id]:
    its id and dependencies are words, its payload is stripped, stays on
    one line, has [=] in its first word only and names neither [deps=]
    nor [dedupe=], and its dedupe key is the one its payload carries. *)
Definition writable (plan_id : string) (st : step) : Prop :=
  s_global_id st = plan_id ++ "::" ++ s_id st
  /\ s_dedupe_key st = extract_sha_from_payload (s_payload st)
  /\ dep_ok (s_id st)
  /\ s_payload st <> EmptyString
  /\ PyStr.strip (s_payload st) = s_payload st
  /\ all_chars on_one_line (s_payload st) = true
  /\ all_chars not_eq_sign (after_word (s_payload st)) = true
  /\ PyStr.contains "deps=" (s_payload st) = false
  /\ PyStr.contains "dedupe=" (s_payload st) = false
  /\ Forall dep_ok (s_deps st).

(** The fields [field_re.findall] finds in a written step. *)
Definition step_field_list (st : step) : list (string * string) :=
  [("id", s_id st); ("lane", str_of_int (s_lane st));
   ("payload", take_while Py.non_space (s_payload st))]
  ++ match s_deps st with
     | [] => []
     | deps => [("deps", join_comma deps)]
     end.

(** A non-empty text without whitespace. *)
Definition token (s : string) : Prop :=
  s <> EmptyString /\ all_chars Py.non_space s = true.

Definition no_comma (c : ascii) : bool := negb (Ascii.eqb c ",").

(** What every step that [parse_plan] returns under [plan_id] satisfies. *)
Definition well_formed_step (plan_id : string) (st : step) : Prop :=
  s_global_id st = plan_id ++ "::" ++ s_id st
  /\ token (s_id st)
  /\ Forall (fun d => token d /\ all_chars no_comma d = true) (s_deps st)
  /\ s_dedupe_key st <> Some EmptyString
  /\ PyStr.rstrip (s_payload st) = s_payload st.

(* ================================================================== *)
(** * The command-safety gate: properties *)
(* ================================================================== *)

Section Gate.

Lemma is_cmd_safe_unblocked (cmd : string) :
  blocked (PyStr.strip cmd) = false ->
  is_cmd_safe cmd =
    allowed (PyStr.strip cmd) || PyStr.startswith (PyStr.strip cmd) "./".
Proof.
  intros Hb. unfold is_cmd_safe. rewrite Hb.
  destruct (allowed (PyStr.strip cmd)); simpl; [reflexivity|].
  destruct (PyStr.startswith (PyStr.strip cmd) "./"); reflexivity.
Qed.

Lemma is_cmd_safe_blocked (cmd : string) :
  blocked (PyStr.strip cmd) = true -> is_cmd_safe cmd = false.
Proof. intros Hb. unfold is_cmd_safe. now rewrite Hb. Qed.

Lemma allowed_exact (s prefix : string) :
  In prefix CMD_ALLOWLIST -> s = PyStr.strip prefix -> allowed s = true.
Proof.
  intros Hin ->. unfold allowed. apply existsb_exists.
  exists prefix. split; [assumption|].
  rewrite String.eqb_refl. apply orb_true_r.
Qed.

End Gate.

(** C4, as the specification words it, fails: a command that begins with
    [./] and carries a blocklisted substring is rejected. *)
Lemma dot_slash_blocked_counterexample :
  PyStr.startswith (PyStr.strip "./deploy.sh && sudo reboot") "./" = true /\
  is_cmd_safe "./deploy.sh && sudo reboot" = false.
Proof. split; reflexivity. Qed.

(** C4 (amended): a command that, once stripped, begins with [./] is
    permitted exactly when it contains no blocklist entry; the blocklist is
    consulted first and wins. *)
Theorem dot_slash_permitted_unless_blocked (cmd : string) :
  PyStr.startswith (PyStr.strip cmd) "./" = true ->
  (is_cmd_safe cmd = true <-> blocked (PyStr.strip cmd) = false).
Proof.
  intros Hdot. split.
  - intros Hsafe. destruct (blocked (PyStr.strip cmd)) eqn:Hb; [|reflexivity].
    rewrite (is_cmd_safe_blocked _ Hb) in Hsafe. discriminate.
  - intros Hb. rewrite (is_cmd_safe_unblocked _ Hb), Hdot. apply orb_true_r.
Qed.

Lemma dot_slash_permitted_witness :
  is_cmd_safe "  ./run-tests.sh --all " = true <->
  blocked (PyStr.strip "  ./run-tests.sh --all ") = false.
Proof.
  apply (dot_slash_permitted_unless_blocked "  ./run-tests.sh --all ").
  reflexivity.
Defined.

(** C9: a command equal, once stripped, to a stripped allowlist entry is
    permitted when it contains no blocklist entry -- even though it does
    not start with the entry itself, as for the bare [echo], [cat], [ls]. *)
Theorem bare_allowlist_word_permitted (cmd prefix : string) :
  In prefix CMD_ALLOWLIST ->
  PyStr.strip cmd = PyStr.strip prefix ->
  blocked (PyStr.strip cmd) = false ->
  is_cmd_safe cmd = true.
Proof.
  intros Hin Heq Hb.
  rewrite (is_cmd_safe_unblocked _ Hb).
  rewrite (allowed_exact _ prefix Hin Heq). reflexivity.
Qed.

Lemma bare_allowlist_word_witness :
  PyStr.startswith (PyStr.strip " echo") "echo " = false /\
  is_cmd_safe " echo" = true /\ is_cmd_safe "cat" = true /\
  is_cmd_safe "ls" = true.
Proof.
  split; [reflexivity|].
  split; [|split].
  - apply (bare_allowlist_word_permitted " echo" "echo ");
      [simpl; tauto | reflexivity | reflexivity].
  - apply (bare_allowlist_word_permitted "cat" "cat ");
      [simpl; tauto | reflexivity | reflexivity].
  - apply (bare_allowlist_word_permitted "ls" "ls ");
      [simpl; tauto | reflexivity | reflexivity].
Defined.

(* ================================================================== *)
(** * Sessions: how invariants travel through a connection *)
(* ================================================================== *)

Section SessionLaws.

Context (P : db -> Prop).

Lemma preserves_ret {A} (a : A) : preserves P (ret a).
Proof. intros c Hc Hw. simpl. auto. Qed.

Lemma preserves_raise {A} (e : exn) : preserves P (@raise A e).
Proof. intros c Hc Hw. simpl. auto. Qed.

Lemma preserves_bind {A B} (m : Session A) (k : A -> Session B) :
  preserves P m -> (forall a, preserves P (k a)) -> preserves P (bind m k).
Proof.
  intros Hm Hk c Hc Hw. unfold bind.
  specialize (Hm c Hc Hw). destruct (m c) as [[a|e] c']; simpl in *.
  - apply Hk; tauto.
  - assumption.
Qed.

Lemma preserves_execute (stmt : db -> db) :
  (forall d, P d -> P (stmt d)) -> preserves P (execute stmt).
Proof. intros H c Hc Hw. simpl. auto. Qed.

Lemma preserves_execute_update cond set :
  (forall d, P d -> P (update_jobs cond set d)) ->
  preserves P (execute_update cond set).
Proof. intros H c Hc Hw. simpl. auto. Qed.

Lemma preserves_query {A} (q : db -> A) : preserves P (query q).
Proof. intros c Hc Hw. simpl. auto. Qed.

Lemma preserves_commit : preserves P commit.
Proof. intros c Hc Hw. simpl. auto. Qed.

Lemma preserves_for_each {A} (l : list A) (body : A -> Session unit) :
  (forall x, In x l -> preserves P (body x)) -> preserves P (for_each l body).
Proof.
  induction l as [|x l IH]; intros H; simpl.
  - apply preserves_ret.
  - apply preserves_bind.
    + apply H. now left.
    + intros _. apply IH. intros y Hy. apply H. now right.
Qed.

Lemma preserves_db_conn {A} (m : Session A) (store : db) :
  preserves P m -> P store -> P (snd (db_conn m store)).
Proof.
  intros Hm Hs. unfold db_conn.
  specialize (Hm (mkConn store store) Hs Hs).
  destruct (m (mkConn store store)) as [r c]. simpl in *. tauto.
Qed.

End SessionLaws.

(* ------------------------------------------------------------------ *)
(** ** Lists of rows *)

Lemma ids_inj (l : list job) (a b : job) :
  NoDup (map j_id l) -> In a l -> In b l -> j_id a = j_id b -> a = b.
Proof.
  induction l as [|x l IH]; simpl; intros Hnd Ha Hb Hid; [contradiction|].
  inversion Hnd as [|? ? Hnotin Hnd']; subst.
  destruct Ha as [->|Ha], Hb as [->|Hb]; auto.
  - exfalso. apply Hnotin. rewrite Hid. now apply in_map.
  - exfalso. apply Hnotin. rewrite <- Hid. now apply in_map.
Qed.

Lemma id_is_true (x : string) (j : job) : id_is x j = true <-> j_id j = x.
Proof. unfold id_is. apply String.eqb_eq. Qed.

Lemma id_is_false (x : string) (j : job) : id_is x j = false <-> j_id j <> x.
Proof. unfold id_is. apply String.eqb_neq. Qed.

Lemma status_is_true (s : status) (j : job) : status_is s j = true <-> j_status j = s.
Proof.
  unfold status_is. destruct (j_status j), s; simpl; split;
    intros H; try reflexivity; try discriminate.
Qed.

Lemma picked_true (rows : list job) (j : job) :
  picked rows j = true <-> exists r, In r rows /\ j_id r = j_id j.
Proof.
  unfold picked. rewrite existsb_exists. split; intros [r [Hin H]]; exists r;
    (split; [assumption|]).
  - apply id_is_true in H. now symmetry.
  - apply id_is_true. now symmetry.
Qed.

Lemma picked_in (l rows : list job) (j : job) :
  NoDup (map j_id l) -> incl rows l -> In j l ->
  picked rows j = true -> In j rows.
Proof.
  intros Hnd Hincl Hj Hp. apply picked_true in Hp. destruct Hp as [r [Hr Hid]].
  rewrite <- (ids_inj l r j Hnd (Hincl r Hr) Hj Hid). assumption.
Qed.

Lemma update_jobs_ids cond set (d : db) :
  (forall j, j_id (set j) = j_id j) ->
  map j_id (jobs (update_jobs cond set d)) = map j_id (jobs d).
Proof.
  intros Hset. unfold update_jobs. simpl. rewrite map_map.
  apply map_ext. intros j. destruct (cond j); auto.
Qed.

Lemma find_map_ids (x : string) (f : job -> job) (l : list job) :
  (forall j, j_id (f j) = j_id j) ->
  find (id_is x) (map f l) = option_map f (find (id_is x) l).
Proof.
  intros Hf. induction l as [|j l IH]; simpl; [reflexivity|].
  unfold id_is at 1. rewrite Hf. fold (id_is x j).
  destruct (id_is x j); simpl; auto.
Qed.

Lemma get_job_in (x : string) (d : db) (j : job) :
  get_job x d = Some j -> In j (jobs d) /\ j_id j = x.
Proof.
  unfold get_job. intros H. apply find_some in H.
  destruct H as [Hin Hid]. apply id_is_true in Hid. auto.
Qed.

Lemma in_get_job (d : db) (j : job) :
  unique_ids d -> In j (jobs d) -> get_job (j_id j) d = Some j.
Proof.
  unfold unique_ids, get_job. intros Hnd Hin.
  destruct (find (id_is (j_id j)) (jobs d)) as [j'|] eqn:Hf.
  - apply find_some in Hf. destruct Hf as [Hin' Hid]. apply id_is_true in Hid.
    f_equal. apply (ids_inj (jobs d)); auto.
  - exfalso. pose proof (find_none _ _ Hf j Hin) as H.
    apply id_is_false in H. now apply H.
Qed.

(** Unique ids of a store given by its rows. *)
Ltac concrete_unique_ids :=
  unfold unique_ids; simpl;
  repeat (constructor; [simpl; intuition discriminate|]); constructor.

(* ================================================================== *)
(** * The two loops over a snapshot, row by row *)
(* ================================================================== *)

Arguments picked : simpl never.

Lemma picked_same_id (rows : list job) (j j' : job) :
  j_id j = j_id j' -> picked rows j = picked rows j'.
Proof. intros H. unfold picked, id_is. now rewrite H. Qed.

Lemma picked_fresh (rows : list job) (j : job) :
  ~ In (j_id j) (map j_id rows) -> picked rows j = false.
Proof.
  intros Hn. destruct (picked rows j) eqn:Hp; [|reflexivity].
  apply picked_true in Hp. destruct Hp as [r [Hr Hid]].
  exfalso. apply Hn. rewrite <- Hid. now apply in_map.
Qed.

Lemma picked_cons (r : job) (rows : list job) (j : job) :
  picked (r :: rows) j = id_is (j_id r) j || picked rows j.
Proof. reflexivity. Qed.

Lemma count_pos (cond : job -> bool) (l : list job) (x : job) :
  In x l -> cond x = true -> (0 <? List.length (filter cond l))%nat = true.
Proof.
  intros Hin Hc. apply Nat.ltb_lt.
  assert (In x (filter cond l)) as H by (apply filter_In; auto).
  destruct (filter cond l); [contradiction | simpl; lia].
Qed.

(** A row update keyed on [id] moves the other rows of a snapshot along
    unchanged. *)
Lemma rest_still_there (r : job) (rest l : list job) (upd : job -> job) :
  NoDup (map j_id (r :: rest)) -> incl (r :: rest) l ->
  (forall j, id_is (j_id r) j = false -> upd j = j) ->
  incl rest (map upd l).
Proof.
  intros Hnd Hincl Hupd r' Hr'. apply in_map_iff. exists r'. split.
  - apply Hupd. apply id_is_false. intros Heq.
    inversion Hnd as [|? ? Hnotin _]; subst. apply Hnotin.
    rewrite <- Heq. now apply in_map.
  - apply Hincl. now right.
Qed.

Section Sweep.

Variable now : Z.

Lemma requeue_row_run (row : job) (c : conn) :
  requeue_row now row c =
  (Ok tt,
   mkConn (committed c)
     (mkDb (map (fun j => if id_is (j_id row) j
                          then (if j_attempts row <? j_max_attempts row
                                then set_requeued now j
                                else set_failed "max attempts exceeded" now j)
                          else j)
                (jobs (working c)))
           (job_deps (working c))
           (events (working c) ++ [requeue_event now row]))).
Proof.
  unfold requeue_row, requeue_event.
  destruct (j_attempts row <? j_max_attempts row); reflexivity.
Qed.

Lemma requeue_one_id (j : job) : j_id (requeue_one now j) = j_id j.
Proof. unfold requeue_one. destruct (_ <? _); reflexivity. Qed.

Lemma for_each_requeue (rows : list job) :
  forall c,
    unique_ids (working c) ->
    incl rows (jobs (working c)) ->
    NoDup (map j_id rows) ->
    for_each rows (requeue_row now) c =
    (Ok tt,
     mkConn (committed c)
       (mkDb (map (fun j => if picked rows j then requeue_one now j else j)
                  (jobs (working c)))
             (job_deps (working c))
             (events (working c) ++ map (requeue_event now) rows))).
Proof.
  induction rows as [|r rest IH]; intros c Hu Hincl Hnd.
  - simpl. unfold ret. destruct c as [cm [js ds es]]. simpl.
    rewrite app_nil_r, map_id. reflexivity.
  - simpl for_each. unfold bind at 1. rewrite requeue_row_run.
    set (upd := fun j : job => if id_is (j_id r) j then _ else j).
    rewrite IH; simpl.
    + rewrite map_map, <- app_assoc. simpl.
      f_equal. f_equal. f_equal.
      apply map_ext_in. intros j Hj. rewrite picked_cons. subst upd. simpl.
      destruct (id_is (j_id r) j) eqn:Hid; simpl.
      * apply id_is_true in Hid.
        assert (j = r) as -> by
          (apply (ids_inj (jobs (working c))); auto; apply Hincl; now left).
        fold (requeue_one now r).
        rewrite (picked_same_id rest _ r (requeue_one_id r)).
        rewrite picked_fresh; [reflexivity|]. now inversion Hnd.
      * reflexivity.
    + unfold unique_ids in *. simpl. rewrite map_map.
      erewrite map_ext; [exact Hu|]. intros j. subst upd. simpl.
      destruct (id_is (j_id r) j); [destruct (_ <? _)|]; reflexivity.
    + apply (rest_still_there r); auto.
      intros j Hj. subst upd. simpl. now rewrite Hj.
    + now inversion Hnd.
Qed.

Lemma picked_stale (l : list job) (j : job) :
  NoDup (map j_id l) -> In j l ->
  picked (filter (is_stale now) l) j = is_stale now j.
Proof.
  intros Hnd Hj. destruct (is_stale now j) eqn:Hs.
  - apply picked_true. exists j. split; [|reflexivity]. apply filter_In. auto.
  - destruct (picked _ j) eqn:Hp; [|reflexivity].
    apply (picked_in l) in Hp; auto; [|apply incl_filter].
    apply filter_In in Hp. destruct Hp as [_ Hp]. congruence.
Qed.

Lemma NoDup_ids_filter (f : job -> bool) (l : list job) :
  NoDup (map j_id l) -> NoDup (map j_id (filter f l)).
Proof.
  induction l as [|x l IH]; simpl; intros Hnd; [constructor|].
  inversion Hnd as [|? ? Hnotin Hnd']; subst.
  destruct (f x); simpl; auto. constructor; auto.
  intros Hin. apply Hnotin. apply in_map_iff in Hin.
  destruct Hin as [y [Hy Hin]]. apply filter_In in Hin.
  rewrite <- Hy. apply in_map. tauto.
Qed.

(** [requeue_stale] in one step: every stale row is requeued or failed,
    the others stay, and the result is committed. *)
Lemma requeue_stale_run (c : conn) :
  unique_ids (working c) ->
  requeue_stale now c =
  (Ok (List.length (filter (is_stale now) (jobs (working c)))),
   mkConn (swept now (working c)) (swept now (working c))).
Proof.
  intros Hu. unfold requeue_stale, begin_immediate.
  unfold bind at 1. unfold ret at 1.
  unfold bind at 1. unfold query at 1.
  unfold bind at 1.
  rewrite for_each_requeue; auto.
  - unfold bind, commit, ret, swept. simpl. f_equal.
    assert (map (fun j => if picked (filter (is_stale now) (jobs (working c))) j
                          then requeue_one now j else j) (jobs (working c))
            = map (sweep_job now) (jobs (working c))) as ->; [|reflexivity].
    apply map_ext_in. intros j Hj. rewrite picked_stale; auto.
  - apply incl_filter.
  - now apply NoDup_ids_filter.
Qed.

End Sweep.

(* ------------------------------------------------------------------ *)
(** ** Ready selection *)

Lemma insert_by_created_perm (x : job) (l : list job) :
  Permutation (insert_by_created x l) (x :: l).
Proof.
  induction l as [|y l IH]; simpl; [reflexivity|].
  destruct (j_created_at x <=? j_created_at y); [reflexivity|].
  rewrite IH. apply perm_swap.
Qed.

Lemma order_by_created_perm (l : list job) :
  Permutation (order_by_created l) l.
Proof.
  induction l as [|x l IH]; simpl; [reflexivity|].
  rewrite insert_by_created_perm. now constructor.
Qed.

Lemma limit_prefix {A} (n : Z) (l : list A) :
  exists rest, l = (limit n l ++ rest)%list.
Proof.
  unfold limit. destruct (n <? 0).
  - exists []. now rewrite app_nil_r.
  - exists (skipn (Z.to_nat n) l). symmetry. apply firstn_skipn.
Qed.

Lemma limit_incl {A} (n : Z) (l : list A) : incl (limit n l) l.
Proof.
  destruct (limit_prefix n l) as [rest H]. intros x Hx.
  rewrite H. apply in_or_app. now left.
Qed.

Lemma limit_length {A} (n : Z) (l : list A) :
  0 <= n -> Z.of_nat (List.length (limit n l)) <= n.
Proof.
  intros Hn. unfold limit. destruct (n <? 0) eqn:E; [lia|].
  rewrite length_firstn. lia.
Qed.

Lemma select_ready_in (lane : option Z) (batch : Z) (d : db) (r : job) :
  In r (select_ready lane batch d) ->
  In r (jobs d) /\ is_ready d lane r = true.
Proof.
  unfold select_ready. intros H. apply limit_incl in H.
  apply (Permutation_in _ (order_by_created_perm _)) in H.
  now apply filter_In in H.
Qed.

Lemma select_ready_unique (lane : option Z) (batch : Z) (d : db) :
  unique_ids d -> NoDup (map j_id (select_ready lane batch d)).
Proof.
  unfold unique_ids, select_ready. intros Hu.
  set (sorted := order_by_created _).
  assert (NoDup (map j_id sorted)) as Hs.
  { apply (Permutation_NoDup
             (l := map j_id (filter (is_ready d lane) (jobs d)))).
    - apply Permutation_map. symmetry. apply order_by_created_perm.
    - now apply NoDup_ids_filter. }
  destruct (limit_prefix batch sorted) as [rest Hrest].
  rewrite Hrest, map_app in Hs. now apply NoDup_app_remove_r in Hs.
Qed.

Lemma is_ready_queued (d : db) (lane : option Z) (j : job) :
  is_ready d lane j = true -> j_status j = Queued.
Proof.
  unfold is_ready. intros H.
  apply andb_true_iff in H. destruct H as [H _].
  apply andb_true_iff in H. destruct H as [H _].
  now apply status_is_true.
Qed.

(* ------------------------------------------------------------------ *)
(** ** The claim loop *)

Section Claim.

Variables (fs : artifacts) (holder : string) (now lease_until : Z).

Lemma claim_one_id (j : job) :
  j_id (claim_one fs holder lease_until now j) = j_id j.
Proof. unfold claim_one. destruct (check_dedupe _ _); reflexivity. Qed.

(** The loop of [claim_ready], run on a snapshot [rows] of queued rows
    of the connection's view: every row is either skipped as deduped or
    claimed, claimed rows are returned in snapshot order, and one event is
    logged per row. *)
Lemma claim_rows_run (rows : list job) :
  forall c claimed,
    unique_ids (working c) ->
    incl rows (jobs (working c)) ->
    NoDup (map j_id rows) ->
    Forall (fun r => j_status r = Queued) rows ->
    exists cm,
      claim_rows fs holder now lease_until rows claimed c =
      (Ok (claimed ++ map to_claimed (filter (not_deduped fs) rows))%list,
       mkConn cm
         (mkDb (map (fun j => if picked rows j
                              then claim_one fs holder lease_until now j else j)
                    (jobs (working c)))
               (job_deps (working c))
               (events (working c) ++ map (claim_event fs holder now) rows))).
Proof.
  induction rows as [|r rest IH]; intros c claimed Hu Hincl Hnd Hq.
  - exists (committed c). simpl. unfold ret.
    destruct c as [cm [js ds es]]. simpl.
    rewrite !app_nil_r, map_id. reflexivity.
  - assert (In r (jobs (working c))) as Hr by (apply Hincl; now left).
    assert (j_status r = Queued) as Hrq by (now inversion Hq).
    assert (Forall (fun r => j_status r = Queued) rest) as Hq'
        by (now inversion Hq).
    assert (NoDup (map j_id rest)) as Hnd' by (now inversion Hnd).
    assert (picked rest r = false) as Hfresh
        by (apply picked_fresh; now inversion Hnd).
    set (cond := fun j : job => id_is (j_id r) j && status_is Queued j).
    assert (forall set j, In j (jobs (working c)) ->
              (forall x, j_id (set x) = j_id x) ->
              set r = claim_one fs holder lease_until now r ->
              (if picked rest (if cond j then set j else j)
               then claim_one fs holder lease_until now
                      (if cond j then set j else j)
               else (if cond j then set j else j))
              = (if id_is (j_id r) j || picked rest j
                 then claim_one fs holder lease_until now j
                 else j)) as Hpoint.
    { intros set j Hj Hset Hsetr. subst cond. simpl.
      destruct (id_is (j_id r) j) eqn:Hid; simpl.
      - apply id_is_true in Hid.
        assert (j = r) as -> by (apply (ids_inj (jobs (working c))); auto).
        replace (status_is Queued r) with true
          by (symmetry; now apply status_is_true).
        rewrite (picked_same_id rest _ r (Hset r)), Hfresh. exact Hsetr.
      - reflexivity. }
    assert (forall set, (forall x, j_id (set x) = j_id x) ->
              unique_ids (update_jobs cond set (working c))) as Hu'.
    { intros set Hset. unfold unique_ids. now rewrite update_jobs_ids. }
    assert (forall set, incl rest (jobs (update_jobs cond set (working c))))
      as Hincl'.
    { intros set. simpl. apply (rest_still_there r); auto.
      intros j Hj. subst cond. simpl. now rewrite Hj. }
    simpl claim_rows. unfold claim_event, not_deduped.
    simpl filter. simpl map.
    destruct (check_dedupe fs (j_dedupe_key r)) eqn:Hdd; simpl negb; cbv iota.
    + unfold bind at 1. unfold execute at 1.
      unfold bind at 1. unfold log_event at 1. unfold execute at 1.
      unfold bind at 1. unfold commit at 1.
      cbn [working committed jobs job_deps events update_jobs].
      lazymatch goal with |- context [claim_rows _ _ _ _ _ _ ?c1] =>
        assert (exists cm, claim_rows fs holder now lease_until rest claimed c1
                           = (Ok (claimed ++ map to_claimed
                                     (filter (not_deduped fs) rest))%list,
                              mkConn cm
                                (mkDb (map (fun j => if picked rest j
                                          then claim_one fs holder lease_until now j
                                          else j) (jobs (working c1)))
                                      (job_deps (working c1))
                                      (events (working c1) ++
                                       map (claim_event fs holder now) rest))))
          as [cm Hrun] end.
      { apply IH; simpl; auto.
        - apply (Hu' (set_done_by holder now)). reflexivity.
        - apply (Hincl' (set_done_by holder now)). }
      exists cm. rewrite Hrun. simpl.
      rewrite map_map, <- app_assoc. simpl.
      f_equal. f_equal. f_equal.
      apply map_ext_in. intros j Hj. rewrite picked_cons.
      apply (Hpoint (set_done_by holder now) j Hj (fun _ => eq_refl)).
      unfold claim_one. now rewrite Hdd.
    + unfold bind at 1. unfold execute_update at 1.
      assert ((0 <? rowcount cond (working c))%nat = true) as Hcnt.
      { apply (count_pos cond _ r); auto. subst cond. simpl.
        unfold id_is. rewrite String.eqb_refl. now apply status_is_true. }
      unfold cond in Hcnt. rewrite Hcnt.
      unfold bind at 1. unfold log_event at 1. unfold execute at 1.
      cbn [working committed jobs job_deps events update_jobs].
      lazymatch goal with |- context [claim_rows _ _ _ _ _ ?cl ?c1] =>
        assert (exists cm, claim_rows fs holder now lease_until rest cl c1
                           = (Ok (cl ++ map to_claimed
                                     (filter (not_deduped fs) rest))%list,
                              mkConn cm
                                (mkDb (map (fun j => if picked rest j
                                          then claim_one fs holder lease_until now j
                                          else j) (jobs (working c1)))
                                      (job_deps (working c1))
                                      (events (working c1) ++
                                       map (claim_event fs holder now) rest))))
          as [cm Hrun] end.
      { apply IH; simpl; auto.
        - apply (Hu' (set_running holder lease_until now)). reflexivity.
        - apply (Hincl' (set_running holder lease_until now)). }
      exists cm. rewrite Hrun. simpl.
      rewrite map_map, <- !app_assoc. simpl.
      f_equal. f_equal. f_equal.
      apply map_ext_in. intros j Hj. rewrite picked_cons.
      apply (Hpoint (set_running holder lease_until now) j Hj (fun _ => eq_refl)).
      unfold claim_one. now rewrite Hdd.
Qed.

End Claim.

(* ================================================================== *)
(** * [claim_ready] in one step *)
(* ================================================================== *)

Lemma sweep_job_id (now : Z) (j : job) : j_id (sweep_job now j) = j_id j.
Proof.
  unfold sweep_job. destruct (is_stale now j); [apply requeue_one_id|reflexivity].
Qed.

Lemma swept_unique (now : Z) (d : db) : unique_ids d -> unique_ids (swept now d).
Proof.
  unfold unique_ids, swept. simpl. intros H. rewrite map_map.
  erewrite map_ext; [exact H|]. intros j. apply sweep_job_id.
Qed.

Lemma claim_ready_run (fs : artifacts) (now_sweep now : Z) (holder : string)
    (lane : option Z) (batch lease_ms : Z) (store : db) :
  unique_ids store ->
  db_conn (claim_ready fs now_sweep now holder lane batch lease_ms) store =
  (Ok (map to_claimed
           (filter (not_deduped fs)
                   (select_ready lane batch (swept now_sweep store)))),
   claimed_db fs now_sweep now holder lane batch lease_ms store).
Proof.
  intros Hu. unfold db_conn, claim_ready.
  unfold bind at 1. rewrite requeue_stale_run by exact Hu.
  unfold bind at 1. unfold query at 1.
  cbn [working committed].
  unfold bind at 1.
  destruct (claim_rows_run fs holder now (now + lease_ms)
              (select_ready lane batch (swept now_sweep store))
              (mkConn (swept now_sweep store) (swept now_sweep store)) [])
    as [cm Hrun]; cbn [working committed].
  - now apply swept_unique.
  - intros r Hr. now apply select_ready_in in Hr.
  - apply select_ready_unique. now apply swept_unique.
  - apply Forall_forall. intros r Hr. apply select_ready_in in Hr.
    apply (is_ready_queued (swept now_sweep store) lane). tauto.
  - rewrite Hrun. reflexivity.
Qed.

(* ================================================================== *)
(** * Row invariants kept by every operation *)
(* ================================================================== *)

Section RowInvariant.

Variable Q : job -> Prop.

Hypothesis Q_new : forall now job_id lane payload max_attempts dedupe_key,
  Q (mkJob job_id lane payload Queued None None now now None 0
           max_attempts dedupe_key).
Hypothesis Q_sweep : forall now j, Q j -> Q (sweep_job now j).
Hypothesis Q_done_by : forall h now j,
  Q j -> j_status j = Queued -> Q (set_done_by h now j).
Hypothesis Q_running : forall h l now j,
  Q j -> j_status j = Queued -> Q (set_running h l now j).
Hypothesis Q_done : forall now j,
  Q j -> j_status j = Running -> Q (set_done now j).
Hypothesis Q_failed : forall e now j,
  Q j -> j_status j = Running -> Q (set_failed e now j).
Hypothesis Q_lease : forall h l now j,
  Q j -> j_status j = Running -> j_holder j = Some h -> Q (set_lease l now j).

Lemma inv_update cond set (d : db) :
  (forall j, Q j -> cond j = true -> Q (set j)) ->
  (forall j, j_id (set j) = j_id j) ->
  (store_inv Q) d -> (store_inv Q) (update_jobs cond set d).
Proof.
  intros Hq Hid [Hu Hall]. split.
  - unfold unique_ids. now rewrite update_jobs_ids.
  - simpl. apply Forall_map. revert Hall. apply Forall_impl.
    intros j Hj. destruct (cond j) eqn:Hc; auto.
Qed.

Lemma inv_same_jobs (d d' : db) : jobs d' = jobs d -> (store_inv Q) d -> (store_inv Q) d'.
Proof. intros H [Hu Hall]. split; [unfold unique_ids|]; now rewrite H. Qed.

Lemma inv_insert_job (j : job) (d : db) :
  Q j -> (store_inv Q) d -> (store_inv Q) (insert_job_or_ignore j d).
Proof.
  intros Hj [Hu Hall]. unfold insert_job_or_ignore.
  destruct (existsb _ (jobs d)) eqn:Hex; [now split|].
  split.
  - unfold unique_ids in *. simpl. rewrite map_app. simpl.
    apply NoDup_app; repeat split; auto.
    + constructor; [intros []|constructor].
    + intros x Hx [<-|[]].
      apply in_map_iff in Hx. destruct Hx as [r [Hr Hin]].
      assert (existsb (fun r => String.eqb (j_id r) (j_id j)) (jobs d) = true)
        as Habs by (apply existsb_exists; exists r; split; auto;
                    now apply String.eqb_eq).
      congruence.
  - simpl. apply Forall_app. split; auto.
Qed.

Lemma log_event_preserves now job_id kind msg :
  preserves (store_inv Q) (log_event now job_id kind msg).
Proof.
  apply preserves_execute. intros d. now apply inv_same_jobs.
Qed.

Lemma add_dep_preserves job_id dep_id : preserves (store_inv Q) (add_dep job_id dep_id).
Proof.
  apply preserves_execute. intros d. apply inv_same_jobs.
  unfold insert_dep_or_ignore. now destruct (existsb _ _).
Qed.

Lemma enqueue_job_preserves now job_id lane payload dk ma :
  preserves (store_inv Q) (enqueue_job now job_id lane payload dk ma).
Proof.
  unfold enqueue_job. apply preserves_bind.
  - unfold validate_payload. destruct (existsb _ _);
      [apply preserves_ret | apply preserves_raise].
  - intros _. apply preserves_bind.
    + apply preserves_execute. intros d. now apply inv_insert_job.
    + intros _. apply log_event_preserves.
Qed.

Lemma requeue_stale_preserves now : preserves (store_inv Q) (requeue_stale now).
Proof.
  intros c Hc Hw. rewrite requeue_stale_run by apply Hw. simpl.
  assert ((store_inv Q) (swept now (working c))) as H; [|tauto].
  destruct Hw as [Hu Hall]. split; [now apply swept_unique|].
  simpl. apply Forall_map. revert Hall. apply Forall_impl. auto.
Qed.

Lemma claim_guard_queued x j :
  id_is x j && status_is Queued j = true -> j_status j = Queued.
Proof.
  intros H. apply andb_true_iff in H. now apply status_is_true.
Qed.

Lemma claim_rows_preserves fs holder now lease_until rows :
  forall claimed,
    preserves (store_inv Q) (claim_rows fs holder now lease_until rows claimed).
Proof.
  induction rows as [|r rest IH]; intros claimed; simpl.
  - apply preserves_ret.
  - destruct (check_dedupe fs (j_dedupe_key r)).
    + apply preserves_bind.
      * apply preserves_execute. intros d. apply inv_update; [|reflexivity].
        intros j Hj Hc. apply Q_done_by; eauto using claim_guard_queued.
      * intros _. apply preserves_bind; [apply log_event_preserves|].
        intros _. apply preserves_bind; [apply preserves_commit|].
        intros _. apply IH.
    + apply preserves_bind.
      * apply preserves_execute_update. intros d.
        apply inv_update; [|reflexivity].
        intros j Hj Hc. apply Q_running; eauto using claim_guard_queued.
      * intros n. destruct (0 <? n)%nat; [|apply IH].
        apply preserves_bind; [apply log_event_preserves|].
        intros _. apply IH.
Qed.

Lemma claim_ready_preserves fs now_sweep now holder lane batch lease_ms :
  preserves (store_inv Q) (claim_ready fs now_sweep now holder lane batch lease_ms).
Proof.
  unfold claim_ready.
  apply preserves_bind; [apply requeue_stale_preserves|]. intros _.
  apply preserves_bind; [apply preserves_query|]. intros rows.
  apply preserves_bind; [apply claim_rows_preserves|]. intros claimed.
  apply preserves_bind; [apply preserves_commit|]. intros _.
  apply preserves_ret.
Qed.

Lemma report_guard_running job_id holder j :
  report_guard job_id holder j = true -> j_status j = Running.
Proof.
  unfold report_guard. intros H.
  destruct (truthy holder).
  - apply andb_true_iff in H. destruct H as [H _].
    apply andb_true_iff in H. now apply status_is_true.
  - apply andb_true_iff in H. now apply status_is_true.
Qed.

Lemma mark_done_preserves now job_id holder :
  preserves (store_inv Q) (mark_done now job_id holder).
Proof.
  unfold mark_done. apply preserves_bind.
  - apply preserves_execute. intros d. apply inv_update; [|reflexivity].
    intros j Hj Hc. apply Q_done; eauto using report_guard_running.
  - intros _. apply preserves_bind; [apply log_event_preserves|].
    intros _. apply preserves_commit.
Qed.

Lemma mark_failed_preserves now job_id error holder :
  preserves (store_inv Q) (mark_failed now job_id error holder).
Proof.
  unfold mark_failed. apply preserves_bind.
  - apply preserves_execute. intros d. apply inv_update; [|reflexivity].
    intros j Hj Hc. apply Q_failed; eauto using report_guard_running.
  - intros _. apply preserves_bind; [apply log_event_preserves|].
    intros _. apply preserves_commit.
Qed.

Lemma heartbeat_preserves now job_id holder lease_ms :
  preserves (store_inv Q) (heartbeat now job_id holder lease_ms).
Proof.
  unfold heartbeat. apply preserves_bind.
  - apply preserves_execute_update. intros d.
    apply inv_update; [|reflexivity].
    intros j Hj Hc.
    apply andb_true_iff in Hc. destruct Hc as [Hc Hh].
    apply andb_true_iff in Hc. destruct Hc as [_ Hr].
    apply status_is_true in Hr. unfold holder_is in Hh.
    destruct (j_holder j) as [h|] eqn:Hjh; [|discriminate].
    apply (Q_lease h); auto.
  - intros n. apply preserves_bind; [apply preserves_commit|].
    intros _. apply preserves_ret.
Qed.

Lemma enqueue_preserves now job_id lane payload deps dk ma :
  preserves (store_inv Q) (enqueue now job_id lane payload deps dk ma).
Proof.
  unfold enqueue. apply preserves_bind; [apply enqueue_job_preserves|].
  intros _. apply preserves_bind.
  - apply preserves_for_each. intros x _. apply add_dep_preserves.
  - intros _. apply preserves_commit.
Qed.

Lemma expand_session_preserves now plan_id steps :
  preserves (store_inv Q) (expand_session now plan_id steps).
Proof.
  unfold expand_session. apply preserves_bind.
  - apply preserves_for_each. intros st _. apply enqueue_job_preserves.
  - intros _. apply preserves_bind; [apply preserves_commit|].
    intros _. apply preserves_bind.
    + apply preserves_for_each. intros st _.
      apply preserves_for_each. intros dep _. unfold add_step_dep.
      destruct (dict_get dep _); [apply add_dep_preserves|apply preserves_raise].
    + intros _. apply preserves_bind; [apply preserves_commit|].
      intros _. apply preserves_ret.
Qed.

Lemma expand_plan_inv now parsed store :
  (store_inv Q) store -> (store_inv Q) (snd (expand_plan now parsed store)).
Proof.
  intros H. unfold expand_plan.
  destruct parsed as [[plan_id steps]|e]; [|exact H].
  destruct steps as [|st steps]; [exact H|].
  apply preserves_db_conn; [apply expand_session_preserves|exact H].
Qed.

(** Every operation keeps the invariant. *)
Lemma run_op_inv (o : op) (store : db) : (store_inv Q) store -> (store_inv Q) (run_op o store).
Proof.
  intros H. destruct o; unfold run_op.
  - apply preserves_db_conn; [apply enqueue_preserves|exact H].
  - apply preserves_db_conn; [apply claim_ready_preserves|exact H].
  - apply preserves_db_conn; [apply heartbeat_preserves|exact H].
  - apply preserves_db_conn; [apply mark_done_preserves|exact H].
  - apply preserves_db_conn; [apply mark_failed_preserves|exact H].
  - apply preserves_db_conn; [apply requeue_stale_preserves|exact H].
  - now apply expand_plan_inv.
Qed.

Lemma reachable_inv (s : db) : reachable s -> (store_inv Q) s.
Proof.
  induction 1 as [|o s Hs IH].
  - split; [constructor|constructor].
  - now apply run_op_inv.
Qed.

End RowInvariant.

(* ================================================================== *)
(** * Invariants of the job table *)
(* ================================================================== *)

Lemma reachable_run_ops (ops : list op) :
  forall s, reachable s -> reachable (run_ops ops s).
Proof.
  induction ops as [|o ops IH]; intros s Hs; simpl; [exact Hs|].
  apply IH. now constructor.
Qed.

Lemma reachable_unique (s : db) : reachable s -> unique_ids s.
Proof.
  intros H. apply (reachable_inv (fun _ => True)); auto.
Qed.

Lemma reachable_store_inv (Q : job -> Prop) :
  (forall o s, store_inv Q s -> store_inv Q (run_op o s)) ->
  forall s, reachable s -> store_inv Q s.
Proof.
  intros Hstep s Hs. induction Hs as [|o s Hs IH].
  - split; [unfold unique_ids; simpl|simpl]; constructor.
  - now apply Hstep.
Qed.

Lemma lease_discipline_kept (o : op) (s : db) :
  store_inv lease_discipline s -> store_inv lease_discipline (run_op o s).
Proof.
  apply run_op_inv; unfold lease_discipline; simpl.
  - intros. split; [discriminate|auto].
  - intros now j [Hr Hq]. unfold sweep_job, requeue_one.
    destruct (is_stale now j); [|auto].
    destruct (_ <? _); simpl; (split; [discriminate|]); auto; discriminate.
  - intros. split; discriminate.
  - intros. split; [intros _; split|]; discriminate.
  - intros. split; discriminate.
  - intros. split; discriminate.
  - intros h l now j [Hr Hq] Hrun Hh. split.
    + intros _. split; [congruence|discriminate].
    + rewrite Hrun. discriminate.
Qed.

(** C2, as the specification words it, fails: after enqueue, claim and
    mark-done the job is done, yet its holder and its lease are still
    recorded. *)
Lemma running_iff_leased_counterexample :
  reachable (run_ops done_history empty_db) /\
  exists j, get_job "J" (run_ops done_history empty_db) = Some j /\
            j_status j = Done /\
            j_holder j = Some "w1" /\
            j_lease_until j = Some 30001 /\
            ~ running_iff_leased j.
Proof.
  split; [apply reachable_run_ops; constructor|].
  eexists. split; [reflexivity|]. simpl.
  repeat (split; [reflexivity|]).
  intros [_ H]. assert (Done = Running) by (apply H; split; discriminate).
  discriminate.
Qed.

(** C2 (amended): in every reachable store a running job has a holder and
    a lease, and a queued job has neither; every operation keeps this.
    Nothing is said of the holder and lease of a done or failed job. *)
Theorem running_implies_leased :
  (forall o s, store_inv lease_discipline s ->
               store_inv lease_discipline (run_op o s)) /\
  (forall s j, reachable s -> In j (jobs s) ->
     (j_status j = Running -> j_holder j <> None /\ j_lease_until j <> None) /\
     (j_status j = Queued -> j_holder j = None /\ j_lease_until j = None)).
Proof.
  split; [exact lease_discipline_kept|].
  intros s j Hs Hj.
  destruct (reachable_store_inv _ lease_discipline_kept s Hs) as [_ Hall].
  rewrite Forall_forall in Hall. exact (Hall j Hj).
Qed.

Lemma running_implies_leased_witness :
  let j := mkJob "J" 0 "@cmd:true" Running (Some "w2") (Some 70000)
                 0 40000 None 2 2 None in
  In j (jobs (run_ops retry_history empty_db)) /\
  j_holder j <> None /\ j_lease_until j <> None.
Proof.
  intros j.
  assert (In j (jobs (run_ops retry_history empty_db))) as Hin
      by (simpl; now left).
  split; [exact Hin|].
  apply (proj2 running_implies_leased (run_ops retry_history empty_db) j).
  - apply reachable_run_ops. constructor.
  - exact Hin.
  - reflexivity.
Defined.

Lemma attempts_capped_kept (o : op) (s : db) :
  store_inv attempts_capped s -> store_inv attempts_capped (run_op o s).
Proof.
  apply run_op_inv; unfold attempts_capped; simpl.
  - intros. lia.
  - intros now j H. unfold sweep_job, requeue_one.
    destruct (is_stale now j); [|exact H].
    destruct (j_attempts j <? j_max_attempts j) eqn:E; simpl; intros Hm.
    + apply Z.ltb_lt in E. lia.
    + split; [now apply H|discriminate].
  - intros h now j H _ Hm. split; [now apply H|discriminate].
  - intros h l now j H Hq Hm. destruct (H Hm) as [_ Hlt].
    specialize (Hlt Hq). split; [lia|discriminate].
  - intros now j H _ Hm. split; [now apply H|discriminate].
  - intros e now j H _ Hm. split; [now apply H|discriminate].
  - intros h l now j H Hrun _ Hm. split; [now apply H|].
    rewrite Hrun. discriminate.
Qed.

Lemma sweep_db (now : Z) (s : db) :
  unique_ids s -> snd (db_conn (requeue_stale now) s) = swept now s.
Proof.
  intros Hu. unfold db_conn. now rewrite requeue_stale_run.
Qed.

Lemma swept_get_job (now : Z) (s : db) (j : job) :
  unique_ids s -> In j (jobs s) ->
  get_job (j_id j) (swept now s) = Some (sweep_job now j).
Proof.
  intros Hu Hj. unfold get_job, swept. simpl.
  rewrite find_map_ids by apply sweep_job_id.
  fold (get_job (j_id j) s). now rewrite in_get_job.
Qed.

(** C5, as the specification words it, fails: a job enqueued with
    [max_attempts = 0] is claimed all the same, which leaves it with
    [attempts = 1]. *)
Lemma attempts_cap_counterexample :
  reachable (run_ops zero_cap_history empty_db) /\
  exists j, get_job "J" (run_ops zero_cap_history empty_db) = Some j /\
            j_attempts j = 1 /\ j_max_attempts j = 0 /\
            ~ (j_attempts j <= j_max_attempts j).
Proof.
  split; [apply reachable_run_ops; constructor|].
  eexists. split; [reflexivity|]. simpl.
  repeat (split; [reflexivity|]). lia.
Qed.

(** C5 (amended): in every reachable store a job whose [max_attempts] is at
    least 1 has [attempts <= max_attempts]; and the stale sweep sends a
    running job whose lease ran out back to [queued], holder and lease
    cleared and attempts unchanged, when [attempts < max_attempts], and to
    [failed] with error "max attempts exceeded" otherwise. *)
Theorem attempts_bounded_and_sweep (s : db) :
  reachable s ->
  (forall j, In j (jobs s) -> 1 <= j_max_attempts j ->
             j_attempts j <= j_max_attempts j) /\
  (forall now j l,
     In j (jobs s) -> j_status j = Running ->
     j_lease_until j = Some l -> l < now ->
     let s' := snd (db_conn (requeue_stale now) s) in
     (j_attempts j < j_max_attempts j ->
      exists j', get_job (j_id j) s' = Some j' /\
                 j_status j' = Queued /\ j_holder j' = None /\
                 j_lease_until j' = None /\ j_attempts j' = j_attempts j) /\
     (j_max_attempts j <= j_attempts j ->
      exists j', get_job (j_id j) s' = Some j' /\
                 j_status j' = Failed /\
                 j_error j' = Some "max attempts exceeded" /\
                 j_attempts j' = j_attempts j)).
Proof.
  intros Hs. split.
  - intros j Hj Hm.
    destruct (reachable_store_inv _ attempts_capped_kept s Hs) as [_ Hall].
    rewrite Forall_forall in Hall. now apply (Hall j Hj).
  - intros now j l Hj Hrun Hl Hlt s'.
    pose proof (reachable_unique s Hs) as Hu.
    assert (get_job (j_id j) s' = Some (requeue_one now j)) as Hget.
    { subst s'. rewrite sweep_db, swept_get_job by assumption.
      unfold sweep_job, is_stale.
      replace (status_is Running j) with true
        by (symmetry; now apply status_is_true).
      rewrite Hl. simpl.
      replace (l <? now) with true by (symmetry; now apply Z.ltb_lt).
      reflexivity. }
    unfold requeue_one in Hget. split; intros Hcmp.
    + replace (j_attempts j <? j_max_attempts j) with true in Hget
        by (symmetry; now apply Z.ltb_lt).
      eexists. split; [exact Hget|]. simpl. auto.
    + replace (j_attempts j <? j_max_attempts j) with false in Hget
        by (symmetry; apply Z.ltb_ge; lia).
      eexists. split; [exact Hget|]. simpl. auto.
Qed.

(** Scenario S4: J, capped at two attempts and claimed twice, loses its
    second lease. *)
Lemma attempts_bounded_and_sweep_witness :
  let s := run_ops retry_history empty_db in
  (forall j, In j (jobs s) -> 1 <= j_max_attempts j ->
             j_attempts j <= j_max_attempts j) /\
  exists j', get_job "J" (snd (db_conn (requeue_stale 80000) s)) = Some j' /\
             j_status j' = Failed /\
             j_error j' = Some "max attempts exceeded" /\
             j_attempts j' = 2.
Proof.
  intros s.
  destruct (attempts_bounded_and_sweep s) as [Hcap Hsweep].
  - apply reachable_run_ops. constructor.
  - split; [exact Hcap|].
    destruct (Hsweep 80000
                (mkJob "J" 0 "@cmd:true" Running (Some "w2") (Some 70000)
                       0 40000 None 2 2 None) 70000) as [_ Hfail].
    + simpl. now left.
    + reflexivity.
    + reflexivity.
    + lia.
    + apply Hfail. simpl. lia.
Defined.

(* ================================================================== *)
(** * Heartbeat and reporting: the conditional updates *)
(* ================================================================== *)

Lemma update_jobs_get (cond : job -> bool) (set : job -> job) (x : string) (d : db) :
  (forall j, j_id (set j) = j_id j) ->
  get_job x (update_jobs cond set d) =
  option_map (fun j => if cond j then set j else j) (get_job x d).
Proof.
  intros Hset. unfold get_job, update_jobs. simpl. apply find_map_ids.
  intros j. destruct (cond j); auto.
Qed.

Lemma update_jobs_none (cond : job -> bool) (set : job -> job) (d : db) :
  rowcount cond d = 0%nat -> update_jobs cond set d = d.
Proof.
  unfold rowcount, update_jobs. intros H. destruct d as [js ds es]. simpl in *.
  f_equal. induction js as [|j js IH]; simpl in *; [reflexivity|].
  destruct (cond j); simpl in H; [discriminate|]. f_equal. auto.
Qed.

Lemma rowcount_pos (cond : job -> bool) (d : db) :
  (0 <? rowcount cond d)%nat = true <-> exists j, In j (jobs d) /\ cond j = true.
Proof.
  unfold rowcount. split.
  - intros H. apply Nat.ltb_lt in H.
    destruct (filter cond (jobs d)) as [|j l] eqn:E; [simpl in H; lia|].
    exists j. apply filter_In. rewrite E. now left.
  - intros [j [Hin Hc]]. now apply (count_pos cond _ j).
Qed.

Lemma heartbeat_run (now : Z) (job_id holder : string) (lease_ms : Z) (store : db) :
  db_conn (heartbeat now job_id holder lease_ms) store =
  (Ok (0 <? rowcount (fun j => id_is job_id j && status_is Running j
                               && holder_is holder j) store)%nat,
   update_jobs (fun j => id_is job_id j && status_is Running j
                         && holder_is holder j)
               (set_lease (now + lease_ms) now) store).
Proof. reflexivity. Qed.

Lemma holder_is_true (h : string) (j : job) :
  holder_is h j = true <-> j_holder j = Some h.
Proof.
  unfold holder_is. destruct (j_holder j) as [h'|].
  - rewrite String.eqb_eq. split; congruence.
  - split; discriminate.
Qed.

(** C7: [heartbeat(id, holder)] returns true exactly when the store holds
    the job as running under that holder; it then sets [lease_until] to
    [now + lease_ms] and leaves the rest of the row, the status with it, as
    it was (but for [updated_at]); when it returns false the store is
    unchanged.  No call changes the status of any job. *)
Theorem heartbeat_iff_running_holder
    (now : Z) (job_id holder : string) (lease_ms : Z) (store : db) :
  unique_ids store ->
  exists ok,
    fst (db_conn (heartbeat now job_id holder lease_ms) store) = Ok ok /\
    let store' := snd (db_conn (heartbeat now job_id holder lease_ms) store) in
    (ok = true <->
     exists j, get_job job_id store = Some j /\
               j_status j = Running /\ j_holder j = Some holder) /\
    (ok = true ->
     exists j j', get_job job_id store = Some j /\
                  get_job job_id store' = Some j' /\
                  j_lease_until j' = Some (now + lease_ms) /\
                  j_status j' = j_status j /\ j_holder j' = j_holder j /\
                  j_attempts j' = j_attempts j /\ j_error j' = j_error j) /\
    (ok = false -> store' = store) /\
    (forall x, option_map j_status (get_job x store')
               = option_map j_status (get_job x store)).
Proof.
  intros Hu. rewrite heartbeat_run. simpl fst. simpl snd.
  set (cond := fun j : job => id_is job_id j && status_is Running j
                              && holder_is holder j).
  assert ((0 <? rowcount cond store)%nat = true <->
          exists j, get_job job_id store = Some j /\
                    j_status j = Running /\ j_holder j = Some holder) as Hiff.
  { rewrite rowcount_pos. subst cond. split.
    - intros [j [Hin Hc]]. simpl in Hc.
      apply andb_true_iff in Hc. destruct Hc as [Hc Hh].
      apply andb_true_iff in Hc. destruct Hc as [Hid Hr].
      apply id_is_true in Hid. apply status_is_true in Hr.
      apply holder_is_true in Hh. exists j. subst job_id.
      split; [now apply in_get_job|auto].
    - intros [j [Hget [Hr Hh]]]. apply get_job_in in Hget.
      destruct Hget as [Hin Hid]. exists j. split; [assumption|]. simpl.
      apply andb_true_iff. split; [apply andb_true_iff; split|].
      + now apply id_is_true.
      + now apply status_is_true.
      + now apply holder_is_true. }
  eexists. split; [reflexivity|]. cbv zeta.
  split; [exact Hiff|]. split; [|split].
  - intros Hok. apply Hiff in Hok. destruct Hok as [j [Hget [Hr Hh]]].
    exists j, (set_lease (now + lease_ms) now j).
    split; [assumption|]. split; [|simpl; auto].
    rewrite update_jobs_get by reflexivity. rewrite Hget. simpl.
    replace (cond j) with true; [reflexivity|]. symmetry. subst cond. simpl.
    apply get_job_in in Hget. destruct Hget as [_ Hid].
    apply andb_true_iff. split; [apply andb_true_iff; split|].
    + now apply id_is_true.
    + now apply status_is_true.
    + now apply holder_is_true.
  - intros Hok. apply update_jobs_none. apply Nat.ltb_ge in Hok. lia.
  - intros x. rewrite update_jobs_get by reflexivity.
    destruct (get_job x store) as [j|]; simpl; [|reflexivity].
    destruct (cond j); reflexivity.
Qed.

(** [w1], whose lease on J went to [w2], sends a heartbeat. *)
Lemma heartbeat_iff_running_holder_witness :
  let s := run_ops stolen_history empty_db in
  fst (db_conn (heartbeat 50000 "J" "w1" LEASE_MS) s) = Ok false /\
  snd (db_conn (heartbeat 50000 "J" "w1" LEASE_MS) s) = s /\
  fst (db_conn (heartbeat 50000 "J" "w2" LEASE_MS) s) = Ok true.
Proof.
  intros s.
  destruct (heartbeat_iff_running_holder 50000 "J" "w1" LEASE_MS s)
    as [ok [Hfst [_ [_ [Hfail _]]]]].
  - concrete_unique_ids.
  - assert (ok = false) as -> by (vm_compute in Hfst; congruence).
    split; [exact Hfst|]. split; [now apply Hfail|reflexivity].
Defined.

(* ------------------------------------------------------------------ *)
(** ** mark-done and mark-failed *)

Lemma mark_done_run (now : Z) (job_id : string) (holder : option string) (store : db) :
  db_conn (mark_done now job_id holder) store =
  (Ok tt,
   mkDb (jobs (update_jobs (report_guard job_id holder) (set_done now) store))
        (job_deps store)
        (events store ++ [mkEvent now (Some job_id) EvDone ""])).
Proof. reflexivity. Qed.

Lemma mark_failed_run (now : Z) (job_id error : string) (holder : option string)
    (store : db) :
  db_conn (mark_failed now job_id error holder) store =
  (Ok tt,
   mkDb (jobs (update_jobs (report_guard job_id holder)
                           (set_failed (PyStr.take 1000 error) now) store))
        (job_deps store)
        (events store ++
         [mkEvent now (Some job_id) EvFailed
                  (PyStr.take 500 (PyStr.take 200 error))])).
Proof. reflexivity. Qed.

Lemma truthy_some (holder : option string) :
  truthy holder = true -> exists h, holder = Some h.
Proof. destruct holder as [h|]; [eauto|discriminate]. Qed.

Lemma report_guard_spec (job_id : string) (holder : option string) (j : job) :
  j_id j = job_id ->
  (report_guard job_id holder j = true <->
   j_status j = Running /\ (truthy holder = true -> j_holder j = holder)).
Proof.
  intros Hid. unfold report_guard.
  replace (id_is job_id j) with true by (symmetry; now apply id_is_true).
  simpl. destruct (truthy holder) eqn:Ht.
  - destruct (truthy_some _ Ht) as [h ->]. simpl.
    rewrite andb_true_iff, status_is_true, holder_is_true. tauto.
  - rewrite status_is_true. split; [intros H; split; [assumption|discriminate]|tauto].
Qed.

(** C8, as the specification words it, fails: a holder is supplied, the
    empty string, and it is not the stored holder [w2]; yet both reports
    change the running job, since [if holder:] takes the empty string for
    no holder at all. *)
Lemma report_empty_holder_counterexample :
  reachable (run_ops stolen_history empty_db) /\
  exists j, get_job "J" (run_ops stolen_history empty_db) = Some j /\
            j_status j = Running /\
            j_holder j = Some "w2" /\
            j_holder j <> Some "" /\
            option_map j_status
              (get_job "J" (snd (db_conn (mark_done 50000 "J" (Some ""))
                                         (run_ops stolen_history empty_db))))
            = Some Done /\
            option_map j_status
              (get_job "J" (snd (db_conn (mark_failed 50000 "J" "late" (Some ""))
                                         (run_ops stolen_history empty_db))))
            = Some Failed.
Proof.
  split; [apply reachable_run_ops; constructor|].
  eexists. split; [reflexivity|]. cbn [j_status j_holder].
  split; [reflexivity|]. split; [reflexivity|]. split; [discriminate|].
  split; reflexivity.
Qed.

(** C8 (amended): [mark_done] and [mark_failed] change the job exactly
    when it is running and, if the caller names a non-empty holder, the
    stored holder is that one; a holder that is absent or the empty string
    leaves the status as the only guard.  Otherwise they return without an
    error and the row is exactly as it was -- so a late report from a
    worker that lost its lease, sent under its own name, changes nothing. *)
Theorem report_guarded (now : Z) (job_id error : string)
    (holder : option string) (store : db) (j : job) :
  get_job job_id store = Some j ->
  let owned := j_status j = Running /\
               (truthy holder = true -> j_holder j = holder) in
  let done := db_conn (mark_done now job_id holder) store in
  let failed := db_conn (mark_failed now job_id error holder) store in
  fst done = Ok tt /\ fst failed = Ok tt /\
  (owned ->
   get_job job_id (snd done) = Some (set_done now j) /\
   get_job job_id (snd failed)
     = Some (set_failed (PyStr.take 1000 error) now j)) /\
  (~ owned ->
   get_job job_id (snd done) = Some j /\
   get_job job_id (snd failed) = Some j).
Proof.
  intros Hget owned done failed. subst done failed.
  rewrite mark_done_run, mark_failed_run. cbn [fst snd].
  split; [reflexivity|]. split; [reflexivity|].
  pose proof (proj2 (get_job_in _ _ _ Hget)) as Hid.
  pose proof (report_guard_spec job_id holder j Hid) as Hg. fold owned in Hg.
  assert (forall set, (forall x, j_id (set x) = j_id x) ->
            forall es,
            get_job job_id
              (mkDb (jobs (update_jobs (report_guard job_id holder) set store))
                    (job_deps store) es)
            = Some (if report_guard job_id holder j then set j else j)) as Hupd.
  { intros set Hset es.
    pose proof (update_jobs_get (report_guard job_id holder) set job_id store Hset)
      as H.
    unfold get_job in *. simpl in *. rewrite H, Hget. reflexivity. }
  split; intros Ho.
  - rewrite !Hupd by reflexivity.
    replace (report_guard job_id holder j) with true
      by (symmetry; now apply Hg).
    split; reflexivity.
  - rewrite !Hupd by reflexivity.
    destruct (report_guard job_id holder j) eqn:E.
    + exfalso. apply Ho. now apply Hg.
    + split; reflexivity.
Qed.

(** [w1], whose lease on J went to [w2], reports late. *)
Lemma report_guarded_witness :
  let s := run_ops stolen_history empty_db in
  let j := mkJob "J" 0 "@cmd:true" Running (Some "w2") (Some 70000)
                 0 40000 None 2 3 None in
  get_job "J" s = Some j /\
  get_job "J" (snd (db_conn (mark_done 50000 "J" (Some "w1")) s)) = Some j /\
  get_job "J" (snd (db_conn (mark_failed 50000 "J" "boom" (Some "w1")) s))
    = Some j.
Proof.
  intros s j. split; [reflexivity|].
  destruct (report_guarded 50000 "J" "boom" (Some "w1") s j)
    as [_ [_ [_ Hignored]]].
  - reflexivity.
  - apply Hignored. intros [_ Hh]. specialize (Hh eq_refl). discriminate.
Defined.

(* ================================================================== *)
(** * Claiming: order, dedupe and batch *)
(* ================================================================== *)

Lemma sorted_app (R : job -> job -> Prop) (a b : list job) :
  StronglySorted R (a ++ b) ->
  StronglySorted R a /\ StronglySorted R b /\
  (forall x y, In x a -> In y b -> R x y).
Proof.
  induction a as [|h a IH]; simpl; intros H.
  - repeat split; [constructor|assumption|intros x y []].
  - apply StronglySorted_inv in H. destruct H as [Hs Hall].
    destruct (IH Hs) as [Ha [Hb Hab]]. rewrite Forall_forall in Hall.
    repeat split; auto.
    + constructor; auto. apply Forall_forall. intros x Hx.
      apply Hall. apply in_or_app. now left.
    + intros x y [<-|Hx] Hy; [|now apply Hab].
      apply Hall. apply in_or_app. now right.
Qed.

Lemma insert_by_created_sorted (x : job) (l : list job) :
  StronglySorted created_le l -> StronglySorted created_le (insert_by_created x l).
Proof.
  induction l as [|y l IH]; simpl; intros Hs.
  - constructor; constructor.
  - apply StronglySorted_inv in Hs. destruct Hs as [Hs Hall].
    destruct (j_created_at x <=? j_created_at y) eqn:E.
    + apply Z.leb_le in E. constructor; [constructor; assumption|].
      constructor; [exact E|]. revert Hall. apply Forall_impl.
      intros z Hz. unfold created_le in *. lia.
    + apply Z.leb_gt in E. constructor; [now apply IH|].
      apply Forall_forall. intros z Hz.
      apply (Permutation_in _ (insert_by_created_perm x l)) in Hz.
      destruct Hz as [<-|Hz]; [unfold created_le; lia|].
      rewrite Forall_forall in Hall. now apply Hall.
Qed.

Lemma order_by_created_sorted (l : list job) :
  StronglySorted created_le (order_by_created l).
Proof.
  induction l as [|x l IH]; simpl; [constructor|].
  now apply insert_by_created_sorted.
Qed.

Lemma select_ready_sorted (lane : option Z) (batch : Z) (d : db) :
  StronglySorted created_le (select_ready lane batch d).
Proof.
  unfold select_ready.
  destruct (limit_prefix batch (order_by_created (filter (is_ready d lane) (jobs d))))
    as [rest H].
  pose proof (order_by_created_sorted (filter (is_ready d lane) (jobs d))) as Hs.
  rewrite H in Hs. now apply sorted_app in Hs.
Qed.

(** A ready job created strictly before a selected one is selected too,
    and stands before it. *)
Lemma select_ready_fifo (lane : option Z) (batch : Z) (d : db) (j1 j2 : job) :
  In j1 (jobs d) -> is_ready d lane j1 = true ->
  In j2 (select_ready lane batch d) ->
  j_created_at j1 < j_created_at j2 ->
  exists l1 l2 l3, select_ready lane batch d = (l1 ++ j1 :: l2 ++ j2 :: l3)%list.
Proof.
  intros Hj1 Hr1 Hj2 Hlt.
  pose proof (select_ready_sorted lane batch d) as Hsorted.
  unfold select_ready in *.
  set (ready := filter (is_ready d lane) (jobs d)) in *.
  destruct (limit_prefix batch (order_by_created ready)) as [rest Hrest].
  set (rows := limit batch (order_by_created ready)) in *.
  pose proof (order_by_created_sorted ready) as Hs.
  rewrite Hrest in Hs. apply sorted_app in Hs. destruct Hs as [_ [_ Hcross]].
  assert (In j1 rows) as Hin1.
  { assert (In j1 (order_by_created ready)) as Hin.
    { apply (Permutation_in _ (Permutation_sym (order_by_created_perm ready))).
      apply filter_In. auto. }
    rewrite Hrest in Hin. apply in_app_or in Hin.
    destruct Hin as [Hin|Hin]; [assumption|].
    specialize (Hcross j2 j1 Hj2 Hin). unfold created_le in Hcross. lia. }
  destruct (in_split _ _ Hj2) as [a [b Hab]].
  rewrite Hab in Hsorted, Hin1.
  apply sorted_app in Hsorted. destruct Hsorted as [_ [Hsb _]].
  apply StronglySorted_inv in Hsb. destruct Hsb as [_ Hall].
  rewrite Forall_forall in Hall.
  apply in_app_or in Hin1. destruct Hin1 as [Hin1|[Heq|Hin1]].
  - destruct (in_split _ _ Hin1) as [l1 [l2 Hl]].
    exists l1, l2, b. rewrite Hab, Hl, <- app_assoc. reflexivity.
  - subst j1. lia.
  - specialize (Hall j1 Hin1). unfold created_le in Hall. lia.
Qed.

(** C3, as the specification words it, fails: "b" and "a" are ready and
    were created at the same instant, "a" is the smaller id, and a claim
    returns "b" first -- alone when the batch is 1. *)
Lemma fifo_tiebreak_counterexample :
  let s := run_ops tie_history empty_db in
  reachable s /\
  (exists ja jb, get_job "a" s = Some ja /\ get_job "b" s = Some jb /\
                 is_ready s None ja = true /\ is_ready s None jb = true /\
                 j_created_at ja = j_created_at jb) /\
  String.ltb "a" "b" = true /\
  fst (db_conn (claim_ready None 1 1 "w" None 2 LEASE_MS) s)
    = Ok [mkClaimed "b" 0 "@cmd:true" None; mkClaimed "a" 0 "@cmd:true" None] /\
  fst (db_conn (claim_ready None 1 1 "w" None 1 LEASE_MS) s)
    = Ok [mkClaimed "b" 0 "@cmd:true" None].
Proof.
  split; [apply reachable_run_ops; constructor|].
  split; [do 2 eexists; repeat split; reflexivity|].
  repeat split; reflexivity.
Qed.

(** C3 (amended): ready selection inside claim is FIFO by [created_at]:
    the selected rows stand in non-decreasing [created_at] order, a ready
    job created strictly before a selected one is selected as well and
    stands before it, and the claimed jobs are returned in that order.
    The order of jobs with equal [created_at] is not settled by id. *)
Theorem ready_selection_fifo (fs : artifacts) (now_sweep now : Z)
    (holder : string) (lane : option Z) (batch lease_ms : Z) (store : db) :
  unique_ids store ->
  let d1 := swept now_sweep store in
  let rows := select_ready lane batch d1 in
  fst (db_conn (claim_ready fs now_sweep now holder lane batch lease_ms) store)
    = Ok (map to_claimed (filter (not_deduped fs) rows)) /\
  StronglySorted created_le rows /\
  (forall j1 j2,
     In j1 (jobs d1) -> is_ready d1 lane j1 = true -> In j2 rows ->
     j_created_at j1 < j_created_at j2 ->
     exists l1 l2 l3, rows = (l1 ++ j1 :: l2 ++ j2 :: l3)%list).
Proof.
  intros Hu d1 rows. split; [|split].
  - now rewrite claim_ready_run.
  - apply select_ready_sorted.
  - intros j1 j2. apply select_ready_fifo.
Qed.

Lemma ready_selection_fifo_witness :
  let s := run_ops slots_history empty_db in
  fst (db_conn (claim_ready None 5 5 "w" None 2 LEASE_MS) s)
    = Ok (map to_claimed
              (filter (not_deduped None) (select_ready None 2 (swept 5 s)))) /\
  map j_id (select_ready None 2 (swept 5 s)) = ["a"; "b"].
Proof.
  split; [|reflexivity].
  apply (ready_selection_fifo None 5 5 "w" None 2 LEASE_MS
                              (run_ops slots_history empty_db)).
  concrete_unique_ids.
Defined.

(* ------------------------------------------------------------------ *)
(** ** The dedupe short-circuit *)

Lemma check_dedupe_hit (fs : artifacts) (dk : string) (names : list string) :
  dk <> "" -> fs = Some names -> (exists f, In f names /\ stem f = dk) ->
  check_dedupe fs (Some dk) = true.
Proof.
  intros Hne -> [f [Hin Hstem]]. unfold check_dedupe.
  destruct dk as [|c dk]; [congruence|]. simpl.
  apply existsb_exists. exists f. split; [assumption|].
  unfold stem_is. now apply String.eqb_eq.
Qed.

Lemma check_dedupe_miss (fs : artifacts) (dk : option string) :
  fs = None \/ truthy dk = false -> check_dedupe fs dk = false.
Proof.
  unfold check_dedupe. intros [-> | ->]; [|reflexivity].
  now destruct (negb (truthy dk)).
Qed.

Lemma claimed_db_get (fs : artifacts) (now_sweep now : Z) (holder : string)
    (lane : option Z) (batch lease_ms : Z) (store : db) (row : job) :
  unique_ids store ->
  In row (select_ready lane batch (swept now_sweep store)) ->
  get_job (j_id row) (claimed_db fs now_sweep now holder lane batch lease_ms store)
  = Some (claim_one fs holder (now + lease_ms) now row).
Proof.
  intros Hu Hrow. unfold get_job, claimed_db. cbn [jobs].
  rewrite find_map_ids.
  2:{ intros j. destruct (picked _ j); [apply claim_one_id|reflexivity]. }
  pose proof (swept_unique now_sweep store Hu) as Hu1.
  pose proof (select_ready_in _ _ _ _ Hrow) as [Hin _].
  fold (get_job (j_id row) (swept now_sweep store)).
  rewrite in_get_job by assumption. simpl.
  replace (picked _ row) with true; [reflexivity|].
  symmetry. apply picked_true. now exists row.
Qed.

Lemma selected_by_id (lane : option Z) (batch : Z) (d : db) (r row : job) :
  unique_ids d ->
  In r (select_ready lane batch d) -> In row (select_ready lane batch d) ->
  j_id r = j_id row -> r = row.
Proof.
  intros Hu Hr Hrow Hid.
  apply (ids_inj (jobs d)); auto;
    [apply (select_ready_in lane batch d r Hr)
    |apply (select_ready_in lane batch d row Hrow)].
Qed.

(** C6: a ready job selected by a claim whose [dedupe_key] is set and is
    the stem of some file of the artifact directory becomes [done] with
    the claimer as holder, a [dedupe_skip] event is logged for it, it is
    not among the returned jobs and its [attempts] are as before; when the
    artifact directory does not exist or the job has no [dedupe_key], the
    job is claimed instead and no [dedupe_skip] event is logged for it. *)
Theorem dedupe_short_circuit (fs : artifacts) (now_sweep now : Z)
    (holder : string) (lane : option Z) (batch lease_ms : Z)
    (store : db) (row : job) :
  unique_ids store ->
  In row (select_ready lane batch (swept now_sweep store)) ->
  let res := db_conn (claim_ready fs now_sweep now holder lane batch lease_ms)
                     store in
  exists claimed j',
    fst res = Ok claimed /\ get_job (j_id row) (snd res) = Some j' /\
    (forall dk names,
       j_dedupe_key row = Some dk -> dk <> "" -> fs = Some names ->
       (exists f, In f names /\ stem f = dk) ->
       j_status j' = Done /\ j_holder j' = Some holder /\
       j_attempts j' = j_attempts row /\
       (j_attempts row = 0 -> j_attempts j' = 0) /\
       ~ In (j_id row) (map c_id claimed) /\
       In (mkEvent now (Some (j_id row)) DedupeSkip
                   (PyStr.take 500 ("artifact exists for " ++ dk)))
          (events (snd res))) /\
    (fs = None \/ truthy (j_dedupe_key row) = false ->
       j_status j' = Running /\ j_holder j' = Some holder /\
       j_attempts j' = j_attempts row + 1 /\
       In (to_claimed row) claimed /\
       (forall e, In e (events (snd res)) -> e_kind e = DedupeSkip ->
                  e_job_id e = Some (j_id row) -> In e (events store))).
Proof.
  intros Hu Hrow res. subst res. rewrite claim_ready_run by assumption.
  cbn [fst snd].
  pose proof (swept_unique now_sweep store Hu) as Hu1.
  set (rows := select_ready lane batch (swept now_sweep store)) in *.
  do 2 eexists. split; [reflexivity|].
  split; [now apply claimed_db_get|].
  unfold claim_one. split.
  - intros dk names Hdk Hne Hfs Hfile.
    pose proof (check_dedupe_hit fs dk names Hne Hfs Hfile) as Hhit.
    rewrite Hdk, Hhit. simpl.
    repeat (split; [auto; fail|]). split.
    + intros Hin. apply in_map_iff in Hin. destruct Hin as [c [Hc Hin]].
      apply in_map_iff in Hin. destruct Hin as [r [<- Hin]].
      apply filter_In in Hin. destruct Hin as [Hr Hnd]. simpl in Hc.
      assert (r = row) as -> by
        (apply (selected_by_id lane batch (swept now_sweep store) r row); auto).
      unfold not_deduped in Hnd. rewrite Hdk, Hhit in Hnd. discriminate.
    + unfold claimed_db. cbn [events]. apply in_or_app. right.
      apply in_map_iff. exists row. split; [|assumption].
      unfold claim_event. now rewrite Hdk, Hhit.
  - intros Hmiss. pose proof (check_dedupe_miss fs _ Hmiss) as Hm.
    rewrite Hm. simpl.
    repeat (split; [auto; fail|]). split.
    + apply in_map. apply filter_In. split; [assumption|].
      unfold not_deduped. now rewrite Hm.
    + intros e He Hk Hid. unfold claimed_db, swept in He. cbn [events] in He.
      apply in_app_or in He. destruct He as [He|He].
      * apply in_app_or in He. destruct He as [He|He]; [assumption|].
        apply in_map_iff in He. destruct He as [r [<- _]].
        unfold requeue_event in Hk. destruct (_ <? _); discriminate.
      * apply in_map_iff in He. destruct He as [r [<- Hr]].
        unfold claim_event in Hk, Hid.
        destruct (check_dedupe fs (j_dedupe_key r)) eqn:Hd; [|discriminate].
        simpl in Hid.
        assert (r = row) as -> by
          (apply (selected_by_id lane batch (swept now_sweep store) r row);
           auto; congruence).
        congruence.
Qed.

(** Scenario S5: the artifact [by-hash/abc123.bin] is in place when "a",
    enqueued with that dedupe key, comes up for claiming. *)
Lemma dedupe_short_circuit_witness :
  let s := run_ops slots_history empty_db in
  let res := db_conn (claim_ready slots_artifacts 5 5 "w" None 1 LEASE_MS) s in
  exists claimed j',
    fst res = Ok claimed /\ get_job "a" (snd res) = Some j' /\
    j_status j' = Done /\ j_holder j' = Some "w" /\ j_attempts j' = 0 /\
    ~ In "a" (map c_id claimed).
Proof.
  intros s res.
  destruct (dedupe_short_circuit slots_artifacts 5 5 "w" None 1 LEASE_MS s
              (mkJob "a" 0 "@cmd:true" Queued None None 0 0 None 0 3
                     (Some "abc123")))
    as [claimed [j' [Hres [Hget [Hhit _]]]]].
  - concrete_unique_ids.
  - simpl. now left.
  - destruct (Hhit "abc123" ["abc123.bin"]) as [Hs [Hh [Ha [_ [Hn _]]]]].
    + reflexivity.
    + discriminate.
    + reflexivity.
    + exists "abc123.bin". split; [now left|reflexivity].
    + exists claimed, j'. repeat split; assumption.
Defined.

(* ------------------------------------------------------------------ *)
(** ** Batch slots *)

Lemma filter_split_length {A} (f : A -> bool) (l : list A) :
  (List.length (filter (fun x => negb (f x)) l) + List.length (filter f l)
   = List.length l)%nat.
Proof.
  induction l as [|x l IH]; simpl; [reflexivity|].
  destruct (f x); simpl; lia.
Qed.

(** C10: the claim takes its (at most [batch]) rows first and applies the
    dedupe check to them afterwards, so the returned jobs are the selected
    rows less the deduped ones; a call can thus return fewer than [batch]
    jobs while [batch] ready jobs without an artifact are in the store. *)
Theorem dedupe_consumes_batch_slots :
  (forall (fs : artifacts) (now_sweep now : Z) (holder : string)
          (lane : option Z) (batch lease_ms : Z) (store : db),
     unique_ids store -> 0 <= batch ->
     let rows := select_ready lane batch (swept now_sweep store) in
     exists claimed,
       fst (db_conn (claim_ready fs now_sweep now holder lane batch lease_ms) store)
         = Ok claimed /\
       claimed = map to_claimed (filter (not_deduped fs) rows) /\
       Z.of_nat (List.length rows) <= batch /\
       (List.length claimed + List.length (filter (deduped fs) rows)
        = List.length rows)%nat) /\
  (exists (fs : artifacts) (store : db) (claimed : list claimed_job),
     reachable store /\
     fst (db_conn (claim_ready fs 5 5 "w" None 2 LEASE_MS) store) = Ok claimed /\
     (List.length claimed < 2)%nat /\
     (2 <= List.length
             (filter (fun j => is_ready (swept 5 store) None j && not_deduped fs j)
                     (jobs (swept 5 store))))%nat).
Proof.
  split.
  - intros fs now_sweep now holder lane batch lease_ms store Hu Hb rows.
    eexists. rewrite claim_ready_run by assumption. cbn [fst].
    split; [reflexivity|]. split; [reflexivity|].
    split; [apply limit_length; assumption|].
    rewrite length_map. apply (filter_split_length (deduped fs)).
  - exists slots_artifacts, (run_ops slots_history empty_db).
    eexists. split; [apply reachable_run_ops; constructor|].
    split; [reflexivity|]. simpl. lia.
Qed.

Lemma dedupe_consumes_batch_slots_witness :
  let s := run_ops slots_history empty_db in
  exists claimed,
    fst (db_conn (claim_ready slots_artifacts 5 5 "w" None 2 LEASE_MS) s)
      = Ok claimed /\
    map c_id claimed = ["b"] /\
    map j_id (filter (fun j => is_ready (swept 5 s) None j
                               && not_deduped slots_artifacts j)
                     (jobs (swept 5 s))) = ["b"; "c"].
Proof.
  intros s.
  destruct (proj1 dedupe_consumes_batch_slots slots_artifacts 5 5 "w" None 2
                  LEASE_MS s) as [claimed [Hres [Hcl _]]].
  - concrete_unique_ids.
  - lia.
  - exists claimed. split; [exact Hres|]. rewrite Hcl. split; reflexivity.
Defined.

(* ================================================================== *)
(** * Plan compilation and what a failure leaves behind *)
(* ================================================================== *)

Section Uncommitted.

Lemma keeps_ret {A} (a : A) : keeps_committed (ret a).
Proof. intros c. reflexivity. Qed.

Lemma keeps_raise {A} (e : exn) : keeps_committed (@raise A e).
Proof. intros c. reflexivity. Qed.

Lemma keeps_execute (stmt : db -> db) : keeps_committed (execute stmt).
Proof. intros c. reflexivity. Qed.

Lemma keeps_bind {A B} (m : Session A) (k : A -> Session B) :
  keeps_committed m -> (forall a, keeps_committed (k a)) ->
  keeps_committed (bind m k).
Proof.
  intros Hm Hk c. unfold bind. specialize (Hm c).
  destruct (m c) as [[a|e] c']; simpl in *; [|assumption].
  now rewrite Hk.
Qed.

Lemma keeps_for_each {A} (l : list A) (body : A -> Session unit) :
  (forall x, keeps_committed (body x)) -> keeps_committed (for_each l body).
Proof.
  intros H. induction l as [|x l IH]; simpl; [apply keeps_ret|].
  apply keeps_bind; auto.
Qed.

Lemma keeps_enqueue_job now job_id lane payload dk ma :
  keeps_committed (enqueue_job now job_id lane payload dk ma).
Proof.
  unfold enqueue_job, validate_payload, log_event.
  apply keeps_bind; [destruct (existsb _ _); [apply keeps_ret|apply keeps_raise]|].
  intros _. apply keeps_bind; intros; apply keeps_execute.
Qed.

Lemma keeps_add_step_dep id_map st dep :
  keeps_committed (add_step_dep id_map st dep).
Proof.
  unfold add_step_dep, add_dep.
  destruct (dict_get dep id_map); [apply keeps_execute|apply keeps_raise].
Qed.

Lemma raises_bind {A B} E (m : Session A) (k : A -> Session B) :
  raises_only E m -> (forall a, raises_only E (k a)) -> raises_only E (bind m k).
Proof.
  intros Hm Hk c e. unfold bind. specialize (Hm c).
  destruct (m c) as [[a|e'] c']; simpl in *; [apply Hk|].
  intros H. injection H as <-. now apply Hm.
Qed.

Lemma raises_for_each {A} E (l : list A) (body : A -> Session unit) :
  (forall x, raises_only E (body x)) -> raises_only E (for_each l body).
Proof.
  intros H. induction l as [|x l IH]; simpl.
  - intros c e. discriminate.
  - apply raises_bind; auto.
Qed.

Lemma raises_add_step_dep id_map st dep :
  raises_only is_unknown_dep (add_step_dep id_map st dep).
Proof.
  unfold add_step_dep, add_dep. intros c e.
  destruct (dict_get dep id_map); simpl; [discriminate|].
  intros H. injection H as <-. now exists (s_id st), dep.
Qed.

End Uncommitted.

(** Every failure of [expand_plan] but the unknown dependency leaves the
    store as it was: a failure of [parse_plan], an empty plan and a bad
    payload all strike before the first commit. *)
Lemma expand_plan_other_failures_atomic (now : Z)
    (parsed : result (string * list step)) (store : db) (e : exn) :
  fst (expand_plan now parsed store) = Raise e ->
  ~ is_unknown_dep e ->
  snd (expand_plan now parsed store) = store.
Proof.
  unfold expand_plan. destruct parsed as [[plan_id steps]|e0]; [|reflexivity].
  destruct steps as [|st0 steps]; [reflexivity|].
  set (all := st0 :: steps). clearbody all.
  intros Hraise Hnot. unfold db_conn, expand_session in *.
  unfold bind at 1 in Hraise. unfold bind at 1.
  pose proof (keeps_for_each all
                (fun st => enqueue_job now (s_global_id st) (s_lane st)
                             (s_payload st) (s_dedupe_key st) MAX_ATTEMPTS)
                (fun st => keeps_enqueue_job _ _ _ _ _ _)
                (mkConn store store)) as Hkeep.
  destruct (for_each all _ (mkConn store store)) as [[[]|e1] c1];
    simpl in Hkeep; [|exact Hkeep].
  exfalso. apply Hnot.
  unfold bind at 1 in Hraise. unfold commit at 1 in Hraise.
  unfold bind at 1 in Hraise.
  pose proof (raises_for_each is_unknown_dep all
                (fun st => for_each (s_deps st) (add_step_dep (id_map_of all) st))
                (fun st => raises_for_each _ _ _
                             (fun dep => raises_add_step_dep _ st dep))
                (mkConn (working c1) (working c1)) e) as Hdeps.
  destruct (for_each all _ (mkConn (working c1) (working c1))) as [[[]|e2] c2].
  - simpl in Hraise. discriminate.
  - simpl in Hraise. apply Hdeps. simpl. congruence.
Qed.

(** C1 fails on the code: compiling a plan whose step "b" depends on the
    undefined step "zz" raises [UnknownDep] after the jobs of the plan have
    been committed: the store, empty before, holds both jobs and none of
    their dependency edges afterwards. *)
Theorem expand_unknown_dep_commits_jobs :
  fst (expand_plan 7 unknown_dep_plan empty_db) = Raise (UnknownDep "b" "zz") /\
  map j_id (jobs (snd (expand_plan 7 unknown_dep_plan empty_db)))
    = ["p::a"; "p::b"] /\
  job_deps (snd (expand_plan 7 unknown_dep_plan empty_db)) = [] /\
  snd (expand_plan 7 unknown_dep_plan empty_db) <> empty_db.
Proof.
  repeat split; try reflexivity. discriminate.
Qed.

(* ================================================================== *)
(** * Each operation as one step on the store *)
(* ================================================================== *)

Lemma for_each_add_dep_run (job_id : string) (deps : list string) :
  forall c, for_each deps (add_dep job_id) c
            = (Ok tt, mkConn (committed c) (add_deps job_id deps (working c))).
Proof.
  induction deps as [|dep deps IH]; intros c.
  - destruct c. reflexivity.
  - simpl for_each. unfold bind at 1. unfold add_dep at 1, execute at 1.
    rewrite IH. reflexivity.
Qed.

Lemma enqueue_job_run (now : Z) (job_id : string) (lane : Z) (payload : string)
    (dk : option string) (ma : Z) (c : conn) :
  enqueue_job now job_id lane payload dk ma c =
  if valid_payload payload
  then (Ok tt, mkConn (committed c)
                      (enqueued_one now job_id lane payload dk ma (working c)))
  else (Raise (BadPayload (PyStr.take 80 payload)), c).
Proof.
  unfold enqueue_job, validate_payload, valid_payload.
  destruct (existsb _ VALID_PREFIXES); reflexivity.
Qed.

Lemma enqueue_run (now : Z) (job_id : string) (lane : Z) (payload : string)
    (deps : list string) (dk : option string) (ma : Z) (store : db) :
  db_conn (enqueue now job_id lane payload deps dk ma) store =
  if valid_payload payload
  then (Ok tt, add_deps job_id deps
                        (enqueued_one now job_id lane payload dk ma store))
  else (Raise (BadPayload (PyStr.take 80 payload)), store).
Proof.
  unfold db_conn, enqueue. unfold bind at 1. rewrite enqueue_job_run.
  destruct (valid_payload payload); [|reflexivity].
  unfold bind at 1. rewrite for_each_add_dep_run. reflexivity.
Qed.

Lemma add_deps_jobs (job_id : string) (deps : list string) (d : db) :
  jobs (add_deps job_id deps d) = jobs d /\
  events (add_deps job_id deps d) = events d.
Proof.
  revert d. induction deps as [|dep deps IH]; intros d; simpl; [auto|].
  destruct (IH (insert_dep_or_ignore job_id dep d)) as [Hj He].
  unfold add_deps in *. rewrite Hj, He.
  unfold insert_dep_or_ignore. destruct (existsb _ _); auto.
Qed.

Lemma add_edges_jobs (edges : list (string * string)) (d : db) :
  jobs (add_edges edges d) = jobs d /\ events (add_edges edges d) = events d.
Proof.
  revert d. induction edges as [|e edges IH]; intros d; simpl; [auto|].
  destruct (IH (insert_dep_or_ignore (fst e) (snd e) d)) as [Hj He].
  unfold add_edges in *. rewrite Hj, He.
  unfold insert_dep_or_ignore. destruct (existsb _ _); auto.
Qed.

Lemma add_edges_app (e1 e2 : list (string * string)) (d : db) :
  add_edges (e1 ++ e2) d = add_edges e2 (add_edges e1 d).
Proof. unfold add_edges. apply fold_left_app. Qed.

(* ------------------------------------------------------------------ *)
(** ** [expand_plan], loop by loop *)

Lemma for_each_enqueue_run (now : Z) (steps : list step) :
  forall c,
    payloads_valid steps = true ->
    for_each steps (fun st => enqueue_job now (s_global_id st) (s_lane st)
                                (s_payload st) (s_dedupe_key st) MAX_ATTEMPTS) c
    = (Ok tt, mkConn (committed c) (enqueue_steps now steps (working c))).
Proof.
  induction steps as [|st steps IH]; intros c Hv.
  - destruct c. reflexivity.
  - simpl in Hv. apply andb_true_iff in Hv. destruct Hv as [Hst Hv].
    simpl for_each. unfold bind at 1. rewrite enqueue_job_run, Hst.
    rewrite IH by assumption. reflexivity.
Qed.

Lemma for_each_enqueue_bad (now : Z) (steps : list step) :
  forall c,
    payloads_valid steps = false ->
    exists p c',
      for_each steps (fun st => enqueue_job now (s_global_id st) (s_lane st)
                                  (s_payload st) (s_dedupe_key st) MAX_ATTEMPTS) c
      = (Raise (BadPayload p), c') /\ committed c' = committed c.
Proof.
  induction steps as [|st steps IH]; intros c Hv; [discriminate|].
  simpl in Hv. simpl for_each. unfold bind at 1. rewrite enqueue_job_run.
  destruct (valid_payload (s_payload st)) eqn:Hst.
  - simpl in Hv. destruct (IH (mkConn (committed c)
                                 (enqueued_one now (s_global_id st) (s_lane st)
                                    (s_payload st) (s_dedupe_key st)
                                    MAX_ATTEMPTS (working c))) Hv)
      as [p [c' [Hrun Hc]]].
    exists p, c'. split; assumption.
  - exists (PyStr.take 80 (s_payload st)), c. split; reflexivity.
Qed.

Lemma step_deps_run (id_map : list (string * string)) (st : step) (deps : list string) :
  forall c,
    forallb (fun dep => match dict_get dep id_map with
                        | Some _ => true | None => false end) deps = true ->
    for_each deps (add_step_dep id_map st) c
    = (Ok tt,
       mkConn (committed c)
         (add_edges (flat_map (fun dep => match dict_get dep id_map with
                                          | Some g => [(s_global_id st, g)]
                                          | None => []
                                          end) deps)
                    (working c))).
Proof.
  induction deps as [|dep deps IH]; intros c Hk.
  - destruct c. reflexivity.
  - simpl in Hk. apply andb_true_iff in Hk. destruct Hk as [Hd Hk].
    simpl for_each. unfold bind at 1. unfold add_step_dep at 1.
    simpl flat_map. destruct (dict_get dep id_map) as [g|]; [|discriminate].
    unfold add_dep, execute. rewrite IH by assumption. reflexivity.
Qed.

Lemma step_deps_unknown (id_map : list (string * string)) (st : step)
    (deps : list string) :
  forall c,
    forallb (fun dep => match dict_get dep id_map with
                        | Some _ => true | None => false end) deps = false ->
    exists dep c',
      for_each deps (add_step_dep id_map st) c = (Raise (UnknownDep (s_id st) dep), c')
      /\ committed c' = committed c /\ In dep deps /\ dict_get dep id_map = None.
Proof.
  induction deps as [|dep deps IH]; intros c Hk; [discriminate|].
  simpl in Hk. simpl for_each. unfold bind at 1. unfold add_step_dep at 1.
  destruct (dict_get dep id_map) as [g|] eqn:Hg.
  - simpl in Hk. unfold add_dep, execute.
    destruct (IH (mkConn (committed c)
                    (insert_dep_or_ignore (s_global_id st) g (working c))) Hk)
      as [dep' [c' [Hrun [Hc [Hin Hnone]]]]].
    exists dep', c'. repeat split; auto. now right.
  - exists dep, c. repeat split; auto. now left.
Qed.

Lemma plan_deps_run (id_map : list (string * string)) (steps : list step) :
  forall c,
    forallb (fun st => forallb (fun dep => match dict_get dep id_map with
                                           | Some _ => true | None => false end)
                               (s_deps st)) steps = true ->
    for_each steps (fun st => for_each (s_deps st) (add_step_dep id_map st)) c
    = (Ok tt,
       mkConn (committed c)
              (add_edges (flat_map (step_edges id_map) steps) (working c))).
Proof.
  induction steps as [|st steps IH]; intros c Hk.
  - destruct c. reflexivity.
  - simpl in Hk. apply andb_true_iff in Hk. destruct Hk as [Hst Hk].
    simpl for_each. unfold bind at 1. rewrite step_deps_run by assumption.
    rewrite IH by assumption. simpl flat_map. rewrite add_edges_app.
    reflexivity.
Qed.

Lemma plan_deps_unknown (id_map : list (string * string)) (steps : list step) :
  forall c,
    forallb (fun st => forallb (fun dep => match dict_get dep id_map with
                                           | Some _ => true | None => false end)
                               (s_deps st)) steps = false ->
    exists st dep c',
      for_each steps (fun st => for_each (s_deps st) (add_step_dep id_map st)) c
      = (Raise (UnknownDep (s_id st) dep), c')
      /\ committed c' = committed c /\ In st steps /\ In dep (s_deps st)
      /\ dict_get dep id_map = None.
Proof.
  induction steps as [|st steps IH]; intros c Hk; [discriminate|].
  simpl in Hk. simpl for_each. unfold bind at 1.
  destruct (forallb _ (s_deps st)) eqn:Hst.
  - rewrite step_deps_run by assumption. simpl in Hk.
    destruct (IH (mkConn (committed c)
                    (add_edges (flat_map (fun dep =>
                                  match dict_get dep id_map with
                                  | Some g => [(s_global_id st, g)]
                                  | None => []
                                  end) (s_deps st)) (working c))) Hk)
      as [st' [dep [c' [Hrun [Hc [Hin [Hd Hnone]]]]]]].
    exists st', dep, c'. repeat split; auto. now right.
  - destruct (step_deps_unknown id_map st (s_deps st) c Hst)
      as [dep [c' [Hrun [Hc [Hin Hnone]]]]].
    rewrite Hrun. exists st, dep, c'. repeat split; auto. now left.
Qed.

(** [expand_plan] on a parsed, non-empty plan, case by case. *)
Lemma expand_plan_run (now : Z) (plan_id : string) (steps : list step) (store : db) :
  steps <> [] ->
  (payloads_valid steps = true -> deps_known steps = true ->
   expand_plan now (Ok (plan_id, steps)) store
   = (Ok (plan_id, List.length steps),
      add_edges (plan_edges steps) (enqueue_steps now steps store))) /\
  (payloads_valid steps = true -> deps_known steps = false ->
   exists st dep,
     expand_plan now (Ok (plan_id, steps)) store
     = (Raise (UnknownDep (s_id st) dep), enqueue_steps now steps store)
     /\ In st steps /\ In dep (s_deps st)
     /\ dict_get dep (id_map_of steps) = None) /\
  (payloads_valid steps = false ->
   exists p, expand_plan now (Ok (plan_id, steps)) store
             = (Raise (BadPayload p), store)).
Proof.
  intros Hne. unfold expand_plan.
  destruct steps as [|st0 rest]; [congruence|].
  set (steps := st0 :: rest). unfold db_conn, expand_session.
  split; [|split].
  - intros Hv Hk. unfold bind at 1. rewrite for_each_enqueue_run by assumption.
    unfold bind at 1. unfold commit at 1. unfold bind at 1.
    rewrite plan_deps_run by exact Hk. reflexivity.
  - intros Hv Hk. unfold bind at 1. rewrite for_each_enqueue_run by assumption.
    unfold bind at 1. unfold commit at 1. unfold bind at 1.
    destruct (plan_deps_unknown (id_map_of steps) steps
                (mkConn (enqueue_steps now steps store)
                        (enqueue_steps now steps store)) Hk)
      as [st [dep [c' [Hrun [Hc [Hin [Hd Hnone]]]]]]].
    exists st, dep. cbn [working committed] in *. rewrite Hrun. cbn.
    rewrite Hc. auto.
  - intros Hv. unfold bind at 1.
    destruct (for_each_enqueue_bad now steps (mkConn store store) Hv)
      as [p [c' [Hrun Hc]]].
    exists p. rewrite Hrun. cbn. now rewrite Hc.
Qed.

(* ================================================================== *)
(** * Histories: what no sequence of operations undoes *)
(* ================================================================== *)

Lemma evolves_refl (j : job) : evolves j j.
Proof. unfold evolves. repeat split; auto; lia. Qed.

Lemma evolves_trans (a b c : job) : evolves a b -> evolves b c -> evolves a c.
Proof.
  unfold evolves.
  intros (H1 & H2 & H3 & H4 & H5 & H6 & H7 & H8)
         (G1 & G2 & G3 & G4 & G5 & G6 & G7 & G8).
  repeat split; try congruence; try lia.
  intros Ht. rewrite (H8 Ht) in *. now apply G8.
Qed.

Lemma evolves_live (j j' : job) :
  j_id j' = j_id j -> j_lane j' = j_lane j -> j_payload j' = j_payload j ->
  j_created_at j' = j_created_at j -> j_max_attempts j' = j_max_attempts j ->
  j_dedupe_key j' = j_dedupe_key j -> j_attempts j <= j_attempts j' ->
  (j_status j = Queued \/ j_status j = Running) ->
  evolves j j'.
Proof.
  intros. unfold evolves. repeat split; auto.
  intros [Ht|Ht]; destruct H6 as [Hl|Hl]; congruence.
Qed.

Lemma evolves_update (cond : job -> bool) (set : job -> job) (j : job) :
  (cond j = true -> j_status j = Queued \/ j_status j = Running) ->
  (j_id (set j) = j_id j /\ j_lane (set j) = j_lane j /\
   j_payload (set j) = j_payload j /\ j_created_at (set j) = j_created_at j /\
   j_max_attempts (set j) = j_max_attempts j /\
   j_dedupe_key (set j) = j_dedupe_key j /\
   j_attempts j <= j_attempts (set j)) ->
  evolves j (if cond j then set j else j).
Proof.
  intros Hlive (H1 & H2 & H3 & H4 & H5 & H6 & H7).
  destruct (cond j); [|apply evolves_refl].
  apply evolves_live; auto.
Qed.

Lemma evolves_sweep (now : Z) (j : job) : evolves j (sweep_job now j).
Proof.
  unfold sweep_job. apply evolves_update.
  - unfold is_stale. intros H. apply andb_true_iff in H. destruct H as [H _].
    right. now apply status_is_true.
  - unfold requeue_one. destruct (_ <? _); simpl; repeat split; lia.
Qed.

Lemma continues_refl (d : db) : continues d d.
Proof.
  split; [|split].
  - exists (fun j => j), []. rewrite map_id, app_nil_r.
    split; [reflexivity|]. split; [reflexivity|].
    intros; apply evolves_refl.
  - exists []. now rewrite app_nil_r.
  - exists []. now rewrite app_nil_r.
Qed.

Lemma continues_trans (a b c : db) : continues a b -> continues b c -> continues a c.
Proof.
  intros [[f [nf [Hf [Hfid Hfe]]]] [[df Hdf] [ef Hef]]]
         [[g [ng [Hg [Hgid Hge]]]] [[dg Hdg] [eg Heg]]].
  split; [|split].
  - exists (fun j => g (f j)), (map g nf ++ ng)%list.
    rewrite Hg, Hf, map_app, map_map, <- app_assoc.
    split; [reflexivity|]. split.
    + intros j. now rewrite Hgid.
    + intros j Hj. apply (evolves_trans _ (f j)); auto.
      apply Hge. rewrite Hf. apply in_or_app. left. now apply in_map.
  - exists (df ++ dg)%list. now rewrite Hdg, Hdf, <- app_assoc.
  - exists (ef ++ eg)%list. now rewrite Heg, Hef, <- app_assoc.
Qed.

Lemma continues_update (cond : job -> bool) (set : job -> job) (d d' : db) :
  jobs d' = jobs (update_jobs cond set d) ->
  job_deps d' = job_deps d ->
  (exists new, events d' = (events d ++ new)%list) ->
  (forall j, j_id (set j) = j_id j) ->
  (forall j, In j (jobs d) -> evolves j (if cond j then set j else j)) ->
  continues d d'.
Proof.
  intros Hj Hd He Hid Hev. split; [|split; [|exact He]].
  - exists (fun j => if cond j then set j else j), [].
    rewrite Hj, app_nil_r. split; [reflexivity|]. split; [|exact Hev].
    intros j. destruct (cond j); auto.
  - exists []. now rewrite app_nil_r.
Qed.

Lemma insert_dep_continues (job_id dep_id : string) (d : db) :
  continues d (insert_dep_or_ignore job_id dep_id d).
Proof.
  unfold insert_dep_or_ignore. destruct (existsb _ _); [apply continues_refl|].
  split; [|split]; simpl.
  - exists (fun j => j), []. rewrite map_id, app_nil_r.
    split; [reflexivity|]. split; [reflexivity|].
    intros; apply evolves_refl.
  - now exists [(job_id, dep_id)].
  - exists []. now rewrite app_nil_r.
Qed.

Lemma add_edges_continues (edges : list (string * string)) (d : db) :
  continues d (add_edges edges d).
Proof.
  revert d. induction edges as [|e edges IH]; intros d; [apply continues_refl|].
  simpl. apply (continues_trans _ (insert_dep_or_ignore (fst e) (snd e) d)).
  - apply insert_dep_continues.
  - apply IH.
Qed.

Lemma add_deps_continues (job_id : string) (deps : list string) (d : db) :
  continues d (add_deps job_id deps d).
Proof.
  revert d. induction deps as [|dep deps IH]; intros d; [apply continues_refl|].
  simpl. apply (continues_trans _ (insert_dep_or_ignore job_id dep d)).
  - apply insert_dep_continues.
  - apply IH.
Qed.

Lemma enqueued_one_continues now job_id lane payload dk ma (d : db) :
  continues d (enqueued_one now job_id lane payload dk ma d).
Proof.
  unfold enqueued_one, insert_job_or_ignore.
  destruct (existsb _ (jobs d)); simpl.
  - split; [|split].
    + exists (fun j => j), []. rewrite map_id, app_nil_r.
      split; [reflexivity|]. split; [reflexivity|].
    intros; apply evolves_refl.
    + exists []. now rewrite app_nil_r.
    + eexists. reflexivity.
  - split; [|split].
    + exists (fun j => j), [new_job now job_id lane payload dk ma].
      rewrite map_id. split; [reflexivity|]. split; [reflexivity|].
      intros; apply evolves_refl.
    + exists []. now rewrite app_nil_r.
    + eexists. reflexivity.
Qed.

Lemma enqueue_steps_continues (now : Z) (steps : list step) (d : db) :
  continues d (enqueue_steps now steps d).
Proof.
  revert d. induction steps as [|st steps IH]; intros d; [apply continues_refl|].
  simpl. eapply continues_trans; [|apply IH]. apply enqueued_one_continues.
Qed.

Lemma expand_plan_continues (now : Z) (parsed : result (string * list step))
    (store : db) :
  continues store (snd (expand_plan now parsed store)).
Proof.
  destruct parsed as [[plan_id steps]|e]; [|apply continues_refl].
  destruct steps as [|st0 rest] eqn:E; [apply continues_refl|].
  rewrite <- E.
  assert (steps <> []) as Hne by (rewrite E; discriminate).
  destruct (expand_plan_run now plan_id steps store Hne) as [Hok [Hdep Hbad]].
  destruct (payloads_valid steps) eqn:Hv.
  - destruct (deps_known steps) eqn:Hk.
    + rewrite (Hok eq_refl eq_refl). simpl.
      eapply continues_trans; [apply enqueue_steps_continues|].
      apply add_edges_continues.
    + destruct (Hdep eq_refl eq_refl) as [st [dep [Hrun _]]].
      rewrite Hrun. simpl. apply enqueue_steps_continues.
  - destruct (Hbad eq_refl) as [p Hrun]. rewrite Hrun. apply continues_refl.
Qed.

Lemma claim_one_evolves fs holder l now (j : job) :
  j_status j = Queued -> evolves j (claim_one fs holder l now j).
Proof.
  intros Hq. unfold claim_one.
  destruct (check_dedupe fs (j_dedupe_key j)); apply evolves_live; simpl;
    auto; lia.
Qed.

Lemma selected_queued (lane : option Z) (batch : Z) (d : db) (j : job) :
  unique_ids d -> In j (jobs d) ->
  picked (select_ready lane batch d) j = true ->
  In j (select_ready lane batch d) /\ j_status j = Queued.
Proof.
  intros Hu Hj Hp.
  assert (In j (select_ready lane batch d)) as Hin.
  { apply (picked_in (jobs d)); auto.
    intros r Hr. now apply select_ready_in in Hr. }
  split; [assumption|].
  apply select_ready_in in Hin. apply (is_ready_queued d lane). tauto.
Qed.

(** Every operation continues the store it is applied to. *)
Lemma run_op_continues (o : op) (s : db) :
  unique_ids s -> continues s (run_op o s).
Proof.
  intros Hu. destruct o; unfold run_op.
  - rewrite enqueue_run. destruct (valid_payload payload); [|apply continues_refl].
    simpl. eapply continues_trans; [apply enqueued_one_continues|].
    apply add_deps_continues.
  - rewrite claim_ready_run by assumption. cbn [snd].
    apply (continues_trans _ (swept now_sweep s)).
    + split; [|split]; simpl.
      * exists (sweep_job now_sweep), []. rewrite app_nil_r.
        split; [reflexivity|]. split; [apply sweep_job_id|].
        intros; apply evolves_sweep.
      * exists []. now rewrite app_nil_r.
      * eexists. reflexivity.
    + pose proof (swept_unique now_sweep s Hu) as Hu1.
      split; [|split]; unfold claimed_db; cbn [jobs job_deps events].
      * eexists _, []. rewrite app_nil_r. split; [reflexivity|]. split.
        -- intros j. destruct (picked _ j); [apply claim_one_id|reflexivity].
        -- intros j Hj. destruct (picked _ j) eqn:Hp; [|apply evolves_refl].
           apply claim_one_evolves.
           now apply (selected_queued lane batch (swept now_sweep s)).
      * exists []. now rewrite app_nil_r.
      * eexists. reflexivity.
  - rewrite heartbeat_run. cbn [snd].
    eapply continues_update; try reflexivity.
    + exists []. now rewrite app_nil_r.
    + intros j _. apply evolves_update.
      * intros H. apply andb_true_iff in H. destruct H as [H _].
        apply andb_true_iff in H. destruct H as [_ H].
        right. now apply status_is_true.
      * simpl. repeat split; lia.
  - rewrite mark_done_run. cbn [snd].
    eapply continues_update; try reflexivity.
    + simpl. eexists. reflexivity.
    + intros j _. apply evolves_update.
      * intros H. right. now apply (report_guard_running job_id holder).
      * simpl. repeat split; lia.
  - rewrite mark_failed_run. cbn [snd].
    eapply continues_update; try reflexivity.
    + simpl. eexists. reflexivity.
    + intros j _. apply evolves_update.
      * intros H. right. now apply (report_guard_running job_id holder).
      * simpl. repeat split; lia.
  - rewrite sweep_db by assumption.
    split; [|split]; simpl.
    + exists (sweep_job now), []. rewrite app_nil_r.
      split; [reflexivity|]. split; [apply sweep_job_id|].
      intros; apply evolves_sweep.
    + exists []. now rewrite app_nil_r.
    + eexists. reflexivity.
  - apply expand_plan_continues.
Qed.

Lemma run_op_unique (o : op) (s : db) : unique_ids s -> unique_ids (run_op o s).
Proof.
  intros Hu.
  assert (store_inv (fun _ => True) (run_op o s)) as [H _]; [|exact H].
  apply run_op_inv; auto. split; [assumption|].
  apply Forall_forall. auto.
Qed.

Lemma run_ops_unique (ops : list op) :
  forall s, unique_ids s -> unique_ids (run_ops ops s).
Proof.
  induction ops as [|o ops IH]; intros s Hu; simpl; [assumption|].
  apply IH. now apply run_op_unique.
Qed.

Lemma run_ops_continues (ops : list op) :
  forall s, unique_ids s -> continues s (run_ops ops s).
Proof.
  induction ops as [|o ops IH]; intros s Hu; simpl; [apply continues_refl|].
  apply (continues_trans _ (run_op o s)).
  - now apply run_op_continues.
  - apply IH. now apply run_op_unique.
Qed.

Lemma find_app_first {A} (p : A -> bool) (l1 l2 : list A) (x : A) :
  find p l1 = Some x -> find p (l1 ++ l2) = Some x.
Proof.
  induction l1 as [|a l1 IH]; simpl; [discriminate|].
  destruct (p a); auto.
Qed.

Lemma continues_get_job (d d' : db) (j : job) :
  unique_ids d -> In j (jobs d) -> continues d d' ->
  exists j', get_job (j_id j) d' = Some j' /\ evolves j j'.
Proof.
  intros Hu Hj [[f [new [Hjobs [Hid Hev]]]] _].
  exists (f j). split; [|now apply Hev].
  unfold get_job. rewrite Hjobs. apply find_app_first.
  rewrite find_map_ids by exact Hid.
  fold (get_job (j_id j) d). now rewrite in_get_job.
Qed.

(** X1: [done] and [failed] are terminal: whatever operations follow, the
    row of a done or failed job stays exactly as it is. *)
Theorem terminal_jobs_frozen (ops : list op) (s : db) (j : job) :
  unique_ids s -> In j (jobs s) ->
  j_status j = Done \/ j_status j = Failed ->
  get_job (j_id j) (run_ops ops s) = Some j.
Proof.
  intros Hu Hj Ht.
  destruct (continues_get_job s (run_ops ops s) j Hu Hj (run_ops_continues ops s Hu))
    as [j' [Hget Hev]].
  destruct Hev as (_ & _ & _ & _ & _ & _ & _ & Hfrozen).
  now rewrite Hget, (Hfrozen Ht).
Qed.

Lemma terminal_jobs_frozen_witness :
  let j := mkJob "J" 0 "@cmd:true" Done (Some "w1") (Some 30001) 0 2 None 1 3
                 None in
  get_job "J" (run_ops done_history empty_db) = Some j /\
  get_job "J" (run_ops afterlife_history (run_ops done_history empty_db)) = Some j.
Proof.
  intros j. split; [reflexivity|].
  apply (terminal_jobs_frozen afterlife_history (run_ops done_history empty_db) j).
  - concrete_unique_ids.
  - simpl. now left.
  - left. reflexivity.
Defined.

(** X2: a job is never removed and never changes identity: after any
    sequence of operations its row is still found under its id, with the
    lane, payload, creation time, attempt cap and dedupe key it had, and
    with no fewer attempts. *)
Theorem jobs_persist (ops : list op) (s : db) (j : job) :
  unique_ids s -> In j (jobs s) ->
  exists j', get_job (j_id j) (run_ops ops s) = Some j' /\
             j_lane j' = j_lane j /\ j_payload j' = j_payload j /\
             j_created_at j' = j_created_at j /\
             j_max_attempts j' = j_max_attempts j /\
             j_dedupe_key j' = j_dedupe_key j /\
             j_attempts j <= j_attempts j'.
Proof.
  intros Hu Hj.
  destruct (continues_get_job s (run_ops ops s) j Hu Hj (run_ops_continues ops s Hu))
    as [j' [Hget Hev]].
  exists j'. unfold evolves in Hev. tauto.
Qed.

Lemma jobs_persist_witness :
  exists j', get_job "b" (run_ops reclaim_history (run_ops tie_history empty_db))
             = Some j' /\
             j_payload j' = "@cmd:true" /\ j_max_attempts j' = 3 /\
             0 <= j_attempts j'.
Proof.
  destruct (jobs_persist reclaim_history (run_ops tie_history empty_db)
              (new_job 0 "b" 0 "@cmd:true" None 3))
    as [j' [Hget H]].
  - concrete_unique_ids.
  - simpl. now left.
  - exists j'. simpl in H. tauto.
Defined.

(** X3: the event log and the dependency table are append-only: after any
    sequence of operations the earlier events and edges are still there,
    in place, followed by the new ones. *)
Theorem logs_append_only (ops : list op) (s : db) :
  unique_ids s ->
  (exists new, events (run_ops ops s) = (events s ++ new)%list) /\
  (exists new, job_deps (run_ops ops s) = (job_deps s ++ new)%list).
Proof.
  intros Hu. destruct (run_ops_continues ops s Hu) as [_ [Hd He]]. auto.
Qed.

Lemma logs_append_only_witness :
  (exists new, events (run_ops afterlife_history (run_ops done_history empty_db))
               = (events (run_ops done_history empty_db) ++ new)%list) /\
  (exists new, job_deps (run_ops afterlife_history (run_ops done_history empty_db))
               = (job_deps (run_ops done_history empty_db) ++ new)%list).
Proof.
  apply (logs_append_only afterlife_history (run_ops done_history empty_db)).
  concrete_unique_ids.
Defined.

(* ------------------------------------------------------------------ *)
(** ** Dependency edges form a set *)

Lemma insert_dep_nodup (job_id dep_id : string) (d : db) :
  NoDup (job_deps d) -> NoDup (job_deps (insert_dep_or_ignore job_id dep_id d)).
Proof.
  intros Hnd. unfold insert_dep_or_ignore.
  destruct (existsb _ (job_deps d)) eqn:Hex; [assumption|]. simpl.
  apply NoDup_app; repeat split; auto.
  - constructor; [intros []|constructor].
  - intros e He [<-|[]].
    assert (existsb (fun e => String.eqb (fst e) job_id && String.eqb (snd e) dep_id)
                    (job_deps d) = true) as Habs; [|congruence].
    apply existsb_exists. exists (job_id, dep_id). split; [assumption|].
    simpl. now rewrite !String.eqb_refl.
Qed.

Lemma add_edges_nodup (edges : list (string * string)) (d : db) :
  NoDup (job_deps d) -> NoDup (job_deps (add_edges edges d)).
Proof.
  revert d. induction edges as [|e edges IH]; intros d Hnd; [assumption|].
  simpl. apply IH. now apply insert_dep_nodup.
Qed.

Lemma add_deps_nodup (job_id : string) (deps : list string) (d : db) :
  NoDup (job_deps d) -> NoDup (job_deps (add_deps job_id deps d)).
Proof.
  revert d. induction deps as [|dep deps IH]; intros d Hnd; [assumption|].
  simpl. apply IH. now apply insert_dep_nodup.
Qed.

Lemma enqueued_one_deps now job_id lane payload dk ma (d : db) :
  job_deps (enqueued_one now job_id lane payload dk ma d) = job_deps d.
Proof.
  unfold enqueued_one, insert_job_or_ignore. now destruct (existsb _ _).
Qed.

Lemma enqueue_steps_deps (now : Z) (steps : list step) (d : db) :
  job_deps (enqueue_steps now steps d) = job_deps d.
Proof.
  revert d. induction steps as [|st steps IH]; intros d; [reflexivity|].
  unfold enqueue_steps in *. simpl. rewrite IH. apply enqueued_one_deps.
Qed.

Lemma run_op_deps_nodup (o : op) (s : db) :
  unique_ids s -> NoDup (job_deps s) -> NoDup (job_deps (run_op o s)).
Proof.
  intros Hu Hnd. destruct o; unfold run_op.
  - rewrite enqueue_run. destruct (valid_payload payload); [|assumption].
    simpl. apply add_deps_nodup. now rewrite enqueued_one_deps.
  - rewrite claim_ready_run by assumption. assumption.
  - rewrite heartbeat_run. assumption.
  - rewrite mark_done_run. assumption.
  - rewrite mark_failed_run. assumption.
  - rewrite sweep_db by assumption. assumption.
  - destruct parsed as [[plan_id steps]|e]; [|assumption].
    destruct steps as [|st0 rest] eqn:E; [assumption|]. rewrite <- E.
    assert (steps <> []) as Hne by (rewrite E; discriminate).
    destruct (expand_plan_run now plan_id steps s Hne) as [Hok [Hdep Hbad]].
    destruct (payloads_valid steps) eqn:Hv.
    + destruct (deps_known steps) eqn:Hk.
      * rewrite (Hok eq_refl eq_refl). simpl. apply add_edges_nodup.
        now rewrite enqueue_steps_deps.
      * destruct (Hdep eq_refl eq_refl) as [st [dep [Hrun _]]].
        rewrite Hrun. simpl. now rewrite enqueue_steps_deps.
    + destruct (Hbad eq_refl) as [p Hrun]. now rewrite Hrun.
Qed.

(** X4: the dependency edges form a set: no sequence of operations ever
    stores the same pair [(job_id, dep_id)] twice. *)
Theorem job_deps_is_a_set (s : db) : reachable s -> NoDup (job_deps s).
Proof.
  intros Hs. induction Hs as [|o s Hs IH]; [constructor|].
  apply run_op_deps_nodup; [now apply reachable_unique|assumption].
Qed.

Lemma job_deps_is_a_set_witness :
  NoDup (job_deps (run_ops (gated_history ++ gated_history) empty_db)) /\
  job_deps (run_ops (gated_history ++ gated_history) empty_db) = [("B", "A")].
Proof.
  split; [|reflexivity].
  apply (job_deps_is_a_set (run_ops (gated_history ++ gated_history) empty_db)).
  apply reachable_run_ops. constructor.
Defined.

(* ================================================================== *)
(** * What a claim hands out *)
(* ================================================================== *)

Lemma sweep_job_fields (now : Z) (j : job) :
  j_lane (sweep_job now j) = j_lane j /\
  j_payload (sweep_job now j) = j_payload j /\
  j_dedupe_key (sweep_job now j) = j_dedupe_key j /\
  j_attempts (sweep_job now j) = j_attempts j.
Proof.
  unfold sweep_job, requeue_one.
  destruct (is_stale now j); [destruct (_ <? _)|]; simpl; auto.
Qed.

Lemma sweep_job_not_done (now : Z) (j : job) :
  j_status j <> Done -> j_status (sweep_job now j) <> Done.
Proof.
  unfold sweep_job, requeue_one.
  destruct (is_stale now j); [destruct (_ <? _)|]; simpl; auto; discriminate.
Qed.

Lemma sweep_job_queued (now : Z) (j : job) :
  j_status (sweep_job now j) = Queued ->
  j_status j = Queued \/
  (is_stale now j = true /\ j_attempts j < j_max_attempts j).
Proof.
  unfold sweep_job, requeue_one.
  destruct (is_stale now j); [|auto].
  destruct (j_attempts j <? j_max_attempts j) eqn:E; simpl; [|discriminate].
  intros _. right. split; [reflexivity|now apply Z.ltb_lt].
Qed.

Lemma is_stale_spec (now : Z) (j : job) :
  is_stale now j = true <->
  j_status j = Running /\ exists l, j_lease_until j = Some l /\ l < now.
Proof.
  unfold is_stale. rewrite andb_true_iff, status_is_true.
  destruct (j_lease_until j) as [l|].
  - rewrite Z.ltb_lt. split.
    + intros [Hr Hl]. split; [assumption|]. now exists l.
    + intros [Hr [l' [Heq Hl]]]. injection Heq as <-. auto.
  - split; [intros [_ H]; discriminate|].
    intros [_ [l [H _]]]. discriminate.
Qed.

(** Where a returned job comes from: a row of the store that, once swept,
    was selected as ready and not deduped. *)
Lemma claimed_origin (fs : artifacts) (now_sweep now : Z) (holder : string)
    (lane : option Z) (batch lease_ms : Z) (s : db)
    (claimed : list claimed_job) (c : claimed_job) :
  unique_ids s ->
  fst (db_conn (claim_ready fs now_sweep now holder lane batch lease_ms) s)
    = Ok claimed ->
  In c claimed ->
  exists j, In j (jobs s) /\
            In (sweep_job now_sweep j)
               (select_ready lane batch (swept now_sweep s)) /\
            c = to_claimed (sweep_job now_sweep j) /\
            check_dedupe fs (j_dedupe_key j) = false.
Proof.
  intros Hu Hres Hc. rewrite claim_ready_run in Hres by assumption.
  simpl in Hres. injection Hres as <-.
  apply in_map_iff in Hc. destruct Hc as [row [<- Hrow]].
  apply filter_In in Hrow. destruct Hrow as [Hrow Hnd].
  pose proof (select_ready_in _ _ _ _ Hrow) as [Hin _].
  unfold swept in Hin. simpl in Hin. apply in_map_iff in Hin.
  destruct Hin as [j [<- Hj]]. exists j. repeat split; auto.
  unfold not_deduped in Hnd.
  destruct (sweep_job_fields now_sweep j) as (_ & _ & Hdk & _).
  rewrite Hdk in Hnd. now apply negb_true_iff in Hnd.
Qed.

Lemma claimed_db_unique fs now_sweep now holder lane batch lease_ms (s : db) :
  unique_ids s ->
  unique_ids (claimed_db fs now_sweep now holder lane batch lease_ms s).
Proof.
  intros Hu.
  pose proof (run_op_unique (OpClaim fs now_sweep now holder lane batch lease_ms)
                            s Hu) as H.
  unfold run_op in H. now rewrite claim_ready_run in H.
Qed.

(** The row of a returned job after the call. *)
Lemma claimed_row_after (fs : artifacts) (now_sweep now : Z) (holder : string)
    (lane : option Z) (batch lease_ms : Z) (s : db) (j : job) :
  unique_ids s -> In j (jobs s) ->
  In (sweep_job now_sweep j) (select_ready lane batch (swept now_sweep s)) ->
  check_dedupe fs (j_dedupe_key j) = false ->
  get_job (j_id j) (claimed_db fs now_sweep now holder lane batch lease_ms s)
  = Some (set_running holder (now + lease_ms) now (sweep_job now_sweep j)).
Proof.
  intros Hu Hj Hrow Hdd.
  rewrite <- (sweep_job_id now_sweep j).
  rewrite claimed_db_get by assumption. unfold claim_one.
  destruct (sweep_job_fields now_sweep j) as (_ & _ & Hdk & _).
  now rewrite Hdk, Hdd.
Qed.

(** X5: a claim never returns a job that has a dependency edge to a job of
    the store that is not done. *)
Theorem claim_respects_deps (fs : artifacts) (now_sweep now : Z) (holder : string)
    (lane : option Z) (batch lease_ms : Z) (s : db)
    (claimed : list claimed_job) (c : claimed_job) (dep : string) (dj : job) :
  unique_ids s ->
  fst (db_conn (claim_ready fs now_sweep now holder lane batch lease_ms) s)
    = Ok claimed ->
  In c claimed ->
  In (c_id c, dep) (job_deps s) ->
  get_job dep s = Some dj ->
  j_status dj = Done.
Proof.
  intros Hu Hres Hc Hedge Hdj.
  destruct (claimed_origin _ _ _ _ _ _ _ _ _ _ Hu Hres Hc)
    as [j [Hj [Hrow [-> _]]]].
  apply select_ready_in in Hrow. destruct Hrow as [_ Hready].
  unfold is_ready in Hready. apply andb_true_iff in Hready.
  destruct Hready as [_ Hnp]. apply negb_true_iff in Hnp.
  destruct (status_eqb (j_status dj) Done) eqn:Hst;
    [now apply (status_is_true Done dj)|].
  exfalso. apply get_job_in in Hdj. destruct Hdj as [Hdin Hdid].
  assert (has_pending_dep (swept now_sweep s) (sweep_job now_sweep j) = true)
    as Habs; [|congruence].
  unfold has_pending_dep. apply existsb_exists.
  exists (j_id (sweep_job now_sweep j), dep). split; [exact Hedge|].
  simpl. rewrite String.eqb_refl. simpl.
  apply existsb_exists. exists (sweep_job now_sweep dj). split.
  - unfold swept. simpl. now apply in_map.
  - rewrite sweep_job_id, Hdid, String.eqb_refl. simpl.
    apply negb_true_iff.
    destruct (status_is Done (sweep_job now_sweep dj)) eqn:E; [|reflexivity].
    apply status_is_true in E. exfalso.
    apply (sweep_job_not_done now_sweep dj); [|assumption].
    intros Hd. unfold status_eqb in Hst. rewrite Hd in Hst. discriminate.
Qed.

(** Scenario S2: B depends on A; once A is done a claim returns B. *)
Lemma claim_respects_deps_witness :
  let s := run_ops gate_open_history empty_db in
  fst (db_conn (claim_ready None 7 7 "w" None 2 LEASE_MS) s)
    = Ok [mkClaimed "B" 0 "@cmd:true" None] /\
  exists dj, get_job "A" s = Some dj /\ j_status dj = Done.
Proof.
  intros s. split; [reflexivity|].
  eexists. split; [reflexivity|].
  apply (claim_respects_deps None 7 7 "w" None 2 LEASE_MS s
           [mkClaimed "B" 0 "@cmd:true" None]
           (mkClaimed "B" 0 "@cmd:true" None) "A").
  - concrete_unique_ids.
  - reflexivity.
  - simpl. now left.
  - simpl. now left.
  - reflexivity.
Defined.

(** X6: every job a claim returns was, in the store the call found, either
    queued or running on a lease that had run out with attempts left; it is
    in the requested lane; and after the call its row is running under the
    claimer, leased until [now + lease_ms], with one attempt more.  The
    returned entry carries the lane and payload of that row. *)
Theorem claimed_job_state (fs : artifacts) (now_sweep now : Z) (holder : string)
    (lane : option Z) (batch lease_ms : Z) (s : db)
    (claimed : list claimed_job) (c : claimed_job) :
  unique_ids s ->
  fst (db_conn (claim_ready fs now_sweep now holder lane batch lease_ms) s)
    = Ok claimed ->
  In c claimed ->
  exists j j',
    get_job (c_id c) s = Some j /\
    get_job (c_id c)
            (snd (db_conn (claim_ready fs now_sweep now holder lane batch lease_ms) s))
      = Some j' /\
    (j_status j = Queued \/
     (j_status j = Running /\ j_attempts j < j_max_attempts j /\
      exists l, j_lease_until j = Some l /\ l < now_sweep)) /\
    (forall l, lane = Some l -> j_lane j = l) /\
    c_lane c = j_lane j /\ c_payload c = j_payload j /\
    j_status j' = Running /\ j_holder j' = Some holder /\
    j_lease_until j' = Some (now + lease_ms) /\
    j_attempts j' = j_attempts j + 1.
Proof.
  intros Hu Hres Hc.
  destruct (claimed_origin _ _ _ _ _ _ _ _ _ _ Hu Hres Hc)
    as [j [Hj [Hrow [-> Hdd]]]].
  destruct (sweep_job_fields now_sweep j) as (Hlane & Hpay & Hdk & Hatt).
  exists j, (set_running holder (now + lease_ms) now (sweep_job now_sweep j)).
  rewrite claim_ready_run by assumption. cbn [snd to_claimed c_id c_lane c_payload].
  rewrite sweep_job_id.
  split; [now apply in_get_job|].
  split; [now apply claimed_row_after|].
  pose proof (select_ready_in _ _ _ _ Hrow) as [_ Hready].
  split; [|split].
  - pose proof (is_ready_queued _ _ _ Hready) as Hq.
    apply sweep_job_queued in Hq. destruct Hq as [Hq|[Hst Hlt]]; [now left|].
    right. apply is_stale_spec in Hst. tauto.
  - intros l ->. unfold is_ready in Hready.
    apply andb_true_iff in Hready. destruct Hready as [Hready _].
    apply andb_true_iff in Hready. destruct Hready as [_ Hl].
    simpl in Hl. rewrite Hlane in Hl. now apply Z.eqb_eq.
  - simpl. rewrite Hatt. repeat split; auto.
Qed.

Lemma claimed_job_state_witness :
  let s := run_ops tie_history empty_db in
  exists j',
    get_job "b" (snd (db_conn (claim_ready None 1 1 "w" (Some 0) 1 LEASE_MS) s))
      = Some j' /\
    j_status j' = Running /\ j_holder j' = Some "w" /\
    j_lease_until j' = Some 30001 /\ j_attempts j' = 1.
Proof.
  intros s.
  destruct (claimed_job_state None 1 1 "w" (Some 0) 1 LEASE_MS s
              [mkClaimed "b" 0 "@cmd:true" None]
              (mkClaimed "b" 0 "@cmd:true" None))
    as [j [j' [Hj [Hj' [_ [_ [_ [_ [Hs [Hh [Hl Ha]]]]]]]]]]].
  - concrete_unique_ids.
  - reflexivity.
  - simpl. now left.
  - exists j'. simpl in Hj. injection Hj as <-. simpl in Ha, Hl. auto.
Defined.

(** X7: a job handed out by one claim is not handed out by a later claim
    whose sweep runs before the lease of the first has run out, whoever
    asks and whatever the lane and batch. *)
Theorem no_double_claim
    (fs1 fs2 : artifacts) (sweep1 now1 sweep2 now2 : Z) (holder1 holder2 : string)
    (lane1 lane2 : option Z) (batch1 lease1 batch2 lease2 : Z) (s : db)
    (claimed1 claimed2 : list claimed_job) (job_id : string) :
  unique_ids s ->
  fst (db_conn (claim_ready fs1 sweep1 now1 holder1 lane1 batch1 lease1) s)
    = Ok claimed1 ->
  sweep2 <= now1 + lease1 ->
  fst (db_conn (claim_ready fs2 sweep2 now2 holder2 lane2 batch2 lease2)
               (snd (db_conn (claim_ready fs1 sweep1 now1 holder1 lane1 batch1
                                          lease1) s)))
    = Ok claimed2 ->
  In job_id (map c_id claimed1) ->
  ~ In job_id (map c_id claimed2).
Proof.
  intros Hu Hres1 Hlease Hres2 Hin1 Hin2.
  apply in_map_iff in Hin1. destruct Hin1 as [c1 [<- Hc1]].
  apply in_map_iff in Hin2. destruct Hin2 as [c2 [Hid Hc2]].
  destruct (claimed_origin _ _ _ _ _ _ _ _ _ _ Hu Hres1 Hc1)
    as [j [Hj [Hrow [-> Hdd]]]].
  pose proof (claimed_row_after fs1 sweep1 now1 holder1 lane1 batch1 lease1
                s j Hu Hj Hrow Hdd) as Hafter.
  rewrite (claim_ready_run fs1 sweep1 now1 holder1 lane1 batch1 lease1 s Hu)
    in Hres2.
  cbn [snd] in Hres2.
  pose proof (claimed_db_unique fs1 sweep1 now1 holder1 lane1 batch1 lease1 s Hu)
    as Hu1.
  set (s1 := claimed_db fs1 sweep1 now1 holder1 lane1 batch1 lease1 s) in *.
  destruct (claimed_origin _ _ _ _ _ _ _ _ _ _ Hu1 Hres2 Hc2)
    as [j2 [Hj2 [Hrow2 [-> _]]]].
  simpl in Hid. rewrite !sweep_job_id in Hid.
  assert (j2 = set_running holder1 (now1 + lease1) now1 (sweep_job sweep1 j))
    as ->.
  { apply get_job_in in Hafter. destruct Hafter as [Hin Hidj].
    apply (ids_inj (jobs s1)); auto. simpl. rewrite sweep_job_id. congruence. }
  apply select_ready_in in Hrow2. destruct Hrow2 as [_ Hready].
  apply is_ready_queued in Hready.
  unfold sweep_job, is_stale in Hready. simpl in Hready.
  replace (now1 + lease1 <? sweep2) with false in Hready
    by (symmetry; apply Z.ltb_ge; lia).
  simpl in Hready. discriminate.
Qed.

(** Scenario S3, one request after the other: the second gets nothing. *)
Lemma no_double_claim_witness :
  let s := run_ops retry_history empty_db in
  fst (db_conn (claim_ready None 50000 50000 "w3" None 1 LEASE_MS) s) = Ok [] /\
  ~ In "J" (map c_id []).
Proof.
  intros s. split; [reflexivity|].
  apply (no_double_claim None None 1 1 20000 20000 "w1" "w3" None None
           1 LEASE_MS 1 LEASE_MS
           (run_ops [OpEnqueue 0 "J" 0 "@cmd:true" [] None 2] empty_db)
           [mkClaimed "J" 0 "@cmd:true" None] [] "J").
  - concrete_unique_ids.
  - reflexivity.
  - unfold LEASE_MS. lia.
  - reflexivity.
  - simpl. now left.
Defined.

(* ------------------------------------------------------------------ *)
(** ** Leases and the sweep *)

(** X8: a heartbeat that succeeds at [now] keeps the job out of reach of
    every sweep up to [now + lease_ms]: after such a sweep the job is still
    running under the same holder with the extended lease. *)
Theorem heartbeat_outlives_sweep (now t : Z) (job_id holder : string)
    (lease_ms : Z) (s : db) :
  unique_ids s ->
  fst (db_conn (heartbeat now job_id holder lease_ms) s) = Ok true ->
  t <= now + lease_ms ->
  exists j',
    get_job job_id
      (snd (db_conn (requeue_stale t)
                    (snd (db_conn (heartbeat now job_id holder lease_ms) s))))
      = Some j' /\
    j_status j' = Running /\ j_holder j' = Some holder /\
    j_lease_until j' = Some (now + lease_ms).
Proof.
  intros Hu Hok Ht. rewrite heartbeat_run in *. cbn [fst snd] in *.
  injection Hok as Hok. apply rowcount_pos in Hok.
  destruct Hok as [j [Hj Hc]].
  apply andb_true_iff in Hc. destruct Hc as [Hc Hh].
  apply andb_true_iff in Hc. destruct Hc as [Hid Hr].
  pose proof Hid as Hid'. apply id_is_true in Hid'.
  pose proof Hr as Hr'. apply status_is_true in Hr'.
  pose proof Hh as Hh'. apply holder_is_true in Hh'.
  set (cond := fun j : job => id_is job_id j && status_is Running j
                              && holder_is holder j) in *.
  set (s1 := update_jobs cond (set_lease (now + lease_ms) now) s).
  assert (unique_ids s1) as Hu1
      by (unfold unique_ids, s1; now rewrite update_jobs_ids).
  assert (In (set_lease (now + lease_ms) now j) (jobs s1)) as Hin1.
  { unfold s1. simpl. apply in_map_iff. exists j. split; [|assumption].
    subst cond. simpl. now rewrite Hid, Hr, Hh. }
  rewrite sweep_db by assumption.
  exists (set_lease (now + lease_ms) now j).
  replace job_id with (j_id (set_lease (now + lease_ms) now j)) by exact Hid'.
  rewrite swept_get_job by assumption.
  unfold sweep_job, is_stale. simpl.
  replace (now + lease_ms <? t) with false by (symmetry; apply Z.ltb_ge; lia).
  rewrite andb_false_r. auto.
Qed.

Lemma heartbeat_outlives_sweep_witness :
  let s := run_ops stolen_history empty_db in
  exists j',
    get_job "J" (snd (db_conn (requeue_stale 90000)
                        (snd (db_conn (heartbeat 65000 "J" "w2" LEASE_MS) s))))
      = Some j' /\
    j_status j' = Running /\ j_holder j' = Some "w2" /\
    j_lease_until j' = Some 95000.
Proof.
  intros s.
  apply (heartbeat_outlives_sweep 65000 90000 "J" "w2" LEASE_MS s).
  - concrete_unique_ids.
  - reflexivity.
  - unfold LEASE_MS. lia.
Defined.

Lemma sweep_job_settled (now : Z) (j : job) : is_stale now (sweep_job now j) = false.
Proof.
  unfold sweep_job. destruct (is_stale now j) eqn:Hs; [|assumption].
  unfold requeue_one. destruct (_ <? _); reflexivity.
Qed.

Lemma swept_none_stale (now : Z) (s : db) :
  filter (is_stale now) (jobs (swept now s)) = [].
Proof.
  unfold swept. simpl. induction (jobs s) as [|j l IH]; simpl; [reflexivity|].
  now rewrite sweep_job_settled.
Qed.

(** X9: after the stale sweep at [now] no job is running on a lease that
    ran out before [now]; the sweep reports how many jobs it moved, and a
    second sweep at the same instant moves none and changes no row. *)
Theorem sweep_leaves_no_stale (now : Z) (s : db) :
  unique_ids s ->
  let r := db_conn (requeue_stale now) s in
  fst r = Ok (List.length (filter (is_stale now) (jobs s))) /\
  (forall j l, In j (jobs (snd r)) -> j_status j = Running ->
               j_lease_until j = Some l -> now <= l) /\
  fst (db_conn (requeue_stale now) (snd r)) = Ok 0%nat /\
  jobs (snd (db_conn (requeue_stale now) (snd r))) = jobs (snd r).
Proof.
  intros Hu r. subst r.
  assert (db_conn (requeue_stale now) s
          = (Ok (List.length (filter (is_stale now) (jobs s))), swept now s))
    as Hrun by (unfold db_conn; now rewrite requeue_stale_run).
  pose proof (swept_unique now s Hu) as Hu1.
  assert (db_conn (requeue_stale now) (swept now s)
          = (Ok 0%nat, swept now (swept now s))) as Hrun2.
  { unfold db_conn. rewrite requeue_stale_run by assumption.
    cbn [working committed]. now rewrite swept_none_stale. }
  rewrite Hrun. cbn [fst snd]. rewrite Hrun2. cbn [fst snd].
  split; [reflexivity|]. split; [|split; [reflexivity|]].
  - intros j l Hj Hr Hl. unfold swept in Hj. simpl in Hj.
    apply in_map_iff in Hj. destruct Hj as [j0 [<- _]].
    pose proof (sweep_job_settled now j0) as Hset.
    destruct (Z.lt_ge_cases l now) as [Hlt|Hge]; [|assumption].
    exfalso. assert (is_stale now (sweep_job now j0) = true) as Habs;
      [|congruence].
    apply is_stale_spec. split; [assumption|]. now exists l.
  - unfold swept at 1. simpl. rewrite <- (map_id (map (sweep_job now) (jobs s))) at 2.
    apply map_ext_in. intros j Hj. unfold sweep_job at 1.
    apply in_map_iff in Hj. destruct Hj as [j0 [<- _]].
    now rewrite sweep_job_settled.
Qed.

Lemma sweep_leaves_no_stale_witness :
  let s := run_ops stolen_history empty_db in
  fst (db_conn (requeue_stale 80000) s) = Ok 1%nat /\
  fst (db_conn (requeue_stale 80000) (snd (db_conn (requeue_stale 80000) s)))
    = Ok 0%nat.
Proof.
  intros s.
  destruct (sweep_leaves_no_stale 80000 s) as [Hc [_ [H0 _]]].
  - concrete_unique_ids.
  - split; [exact Hc|exact H0].
Defined.

(* ================================================================== *)
(** * Enqueue and plan compilation: what ends up in the store *)
(* ================================================================== *)

Lemma valid_payload_spec (payload : string) :
  valid_payload payload = true <->
  exists p, In p VALID_PREFIXES /\ PyStr.startswith payload p = true.
Proof. unfold valid_payload. apply existsb_exists. Qed.

Lemma has_id_get_job (x : string) (l : list job) :
  existsb (fun r => String.eqb (j_id r) x) l = false <-> find (id_is x) l = None.
Proof.
  induction l as [|r l IH]; simpl; [tauto|].
  unfold id_is at 1. destruct (String.eqb (j_id r) x); simpl; [|exact IH].
  split; discriminate.
Qed.

Lemma find_app_none {A} (p : A -> bool) (l1 l2 : list A) :
  find p l1 = None -> find p (l1 ++ l2) = find p l2.
Proof.
  induction l1 as [|a l1 IH]; simpl; [reflexivity|].
  destruct (p a); [discriminate|exact IH].
Qed.

Lemma insert_job_get (j : job) (x : string) (d : db) :
  get_job x (insert_job_or_ignore j d) =
  match get_job x d with
  | Some r => Some r
  | None => if String.eqb (j_id j) x then Some j else None
  end.
Proof.
  unfold insert_job_or_ignore, get_job.
  destruct (existsb _ (jobs d)) eqn:Hex.
  - destruct (find (id_is x) (jobs d)) eqn:Hf; [reflexivity|].
    destruct (String.eqb (j_id j) x) eqn:Hjx; [|reflexivity].
    apply String.eqb_eq in Hjx. subst x.
    apply has_id_get_job in Hf. congruence.
  - simpl. destruct (find (id_is x) (jobs d)) eqn:Hf.
    + now apply find_app_first.
    + rewrite find_app_none by assumption. simpl. unfold id_is.
      now destruct (String.eqb (j_id j) x).
Qed.

Lemma enqueued_one_get now job_id lane payload dk ma (x : string) (d : db) :
  get_job x (enqueued_one now job_id lane payload dk ma d) =
  match get_job x d with
  | Some r => Some r
  | None => if String.eqb job_id x
            then Some (new_job now job_id lane payload dk ma) else None
  end.
Proof.
  pose proof (insert_job_get (new_job now job_id lane payload dk ma) x d) as H.
  simpl in H. rewrite <- H. reflexivity.
Qed.

Lemma insert_dep_in (job_id dep_id : string) (d : db) :
  In (job_id, dep_id) (job_deps (insert_dep_or_ignore job_id dep_id d)) /\
  (forall e, In e (job_deps d) ->
             In e (job_deps (insert_dep_or_ignore job_id dep_id d))).
Proof.
  unfold insert_dep_or_ignore.
  destruct (existsb _ (job_deps d)) eqn:Hex; simpl.
  - split; [|auto]. apply existsb_exists in Hex.
    destruct Hex as [[a b] [Hin Heq]]. simpl in Heq.
    apply andb_true_iff in Heq. destruct Heq as [Ha Hb].
    apply String.eqb_eq in Ha, Hb. now subst.
  - split; [apply in_or_app; right; now left|].
    intros e He. apply in_or_app. now left.
Qed.

Lemma insert_dep_present (job_id dep_id : string) (d : db) :
  In (job_id, dep_id) (job_deps d) -> insert_dep_or_ignore job_id dep_id d = d.
Proof.
  intros Hin. unfold insert_dep_or_ignore.
  replace (existsb _ (job_deps d)) with true; [reflexivity|].
  symmetry. apply existsb_exists. exists (job_id, dep_id).
  split; [assumption|]. simpl. now rewrite !String.eqb_refl.
Qed.

Lemma add_edges_in (edges : list (string * string)) :
  forall d,
    (forall e, In e edges -> In e (job_deps (add_edges edges d))) /\
    (forall e, In e (job_deps d) -> In e (job_deps (add_edges edges d))).
Proof.
  induction edges as [|[a b] edges IH]; intros d; simpl; [split; tauto|].
  destruct (IH (insert_dep_or_ignore a b d)) as [Hnew Hold].
  destruct (insert_dep_in a b d) as [Hab Hkeep].
  split.
  - intros e [<-|He]; [now apply Hold|now apply Hnew].
  - intros e He. apply Hold. now apply Hkeep.
Qed.

Lemma add_edges_present (edges : list (string * string)) :
  forall d, (forall e, In e edges -> In e (job_deps d)) -> add_edges edges d = d.
Proof.
  induction edges as [|[a b] edges IH]; intros d H; simpl; [reflexivity|].
  rewrite insert_dep_present by (apply H; now left).
  apply IH. intros e He. apply H. now right.
Qed.

Lemma add_deps_as_edges (job_id : string) (deps : list string) (d : db) :
  add_deps job_id deps d = add_edges (map (fun dep => (job_id, dep)) deps) d.
Proof.
  revert d. induction deps as [|dep deps IH]; intros d; [reflexivity|].
  simpl. apply IH.
Qed.

(** X10: a payload that starts with none of the six pointer prefixes is
    refused by enqueue with [BadPayload], and the store -- jobs, edges and
    event log -- is left exactly as it was. *)
Theorem enqueue_rejects_bad_payload (now : Z) (job_id : string) (lane : Z)
    (payload : string) (deps : list string) (dk : option string) (ma : Z)
    (s : db) :
  (forall p, In p VALID_PREFIXES -> PyStr.startswith payload p = false) ->
  db_conn (enqueue now job_id lane payload deps dk ma) s
  = (Raise (BadPayload (PyStr.take 80 payload)), s).
Proof.
  intros Hbad. rewrite enqueue_run.
  destruct (valid_payload payload) eqn:Hv; [|reflexivity].
  apply valid_payload_spec in Hv. destruct Hv as [p [Hin Hp]].
  rewrite (Hbad p Hin) in Hp. discriminate.
Qed.

Lemma enqueue_rejects_bad_payload_witness :
  db_conn (enqueue 0 "J" 0 "cmd:true" ["A"] None 3) empty_db
  = (Raise (BadPayload "cmd:true"), empty_db).
Proof.
  apply (enqueue_rejects_bad_payload 0 "J" 0 "cmd:true" ["A"] None 3 empty_db).
  intros p Hp. simpl in Hp.
  repeat (destruct Hp as [<-|Hp]; [reflexivity|]). contradiction.
Defined.

(** X11: enqueue with a valid payload returns without error; a new id is
    then found as a queued row with the given lane, payload, dedupe key and
    attempt cap, no holder, no lease and no attempts; an id already in the
    store keeps its row untouched whatever the new arguments are; other
    jobs are not touched; and every given dep is stored as an edge. *)
Theorem enqueue_then_lookup (now : Z) (job_id : string) (lane : Z)
    (payload : string) (deps : list string) (dk : option string) (ma : Z)
    (s : db) :
  (exists p, In p VALID_PREFIXES /\ PyStr.startswith payload p = true) ->
  let r := db_conn (enqueue now job_id lane payload deps dk ma) s in
  fst r = Ok tt /\
  (get_job job_id s = None ->
   get_job job_id (snd r)
   = Some (mkJob job_id lane payload Queued None None now now None 0 ma dk)) /\
  (forall j, get_job job_id s = Some j -> get_job job_id (snd r) = Some j) /\
  (forall x, x <> job_id -> get_job x (snd r) = get_job x s) /\
  (forall dep, In dep deps -> In (job_id, dep) (job_deps (snd r))).
Proof.
  intros Hv r. subst r. apply valid_payload_spec in Hv.
  rewrite enqueue_run, Hv. cbn [fst snd].
  split; [reflexivity|].
  assert (forall x, get_job x (add_deps job_id deps
                                 (enqueued_one now job_id lane payload dk ma s))
                    = get_job x (enqueued_one now job_id lane payload dk ma s))
    as Hsame.
  { intros x. unfold get_job.
    now rewrite (proj1 (add_deps_jobs job_id deps _)). }
  split; [|split; [|split]].
  - intros Hnone. rewrite Hsame, enqueued_one_get, Hnone.
    now rewrite String.eqb_refl.
  - intros j Hj. now rewrite Hsame, enqueued_one_get, Hj.
  - intros x Hx. rewrite Hsame, enqueued_one_get.
    destruct (get_job x s); [reflexivity|].
    replace (String.eqb job_id x) with false; [reflexivity|].
    symmetry. apply String.eqb_neq. congruence.
  - intros dep Hdep. rewrite add_deps_as_edges.
    apply (proj1 (add_edges_in _ _)). apply in_map_iff. now exists dep.
Qed.

Lemma enqueue_then_lookup_witness :
  let s := run_ops done_history empty_db in
  let r := db_conn (enqueue 9 "J" 7 "@doc:other" ["K"] (Some "ff") 1) s in
  fst r = Ok tt /\
  get_job "J" (snd r) = get_job "J" s /\
  In ("J", "K") (job_deps (snd r)).
Proof.
  intros s r.
  destruct (enqueue_then_lookup 9 "J" 7 "@doc:other" ["K"] (Some "ff") 1 s)
    as [Hok [_ [Hkeep [_ Hdeps]]]].
  - exists "@doc:". split; [simpl; tauto|reflexivity].
  - split; [exact Hok|]. split.
    + apply Hkeep. reflexivity.
    + apply Hdeps. now left.
Defined.

(* ------------------------------------------------------------------ *)
(** ** The plan compiler *)

Lemma dict_get_snoc (k a b : string) (m : list (string * string)) :
  dict_get k (m ++ [(a, b)]) = if String.eqb a k then Some b else dict_get k m.
Proof. unfold dict_get. rewrite fold_left_app. reflexivity. Qed.

Lemma dict_get_some (k g : string) (steps : list step) :
  dict_get k (id_map_of steps) = Some g ->
  exists st, In st steps /\ s_id st = k /\ s_global_id st = g.
Proof.
  induction steps as [|st steps IH] using rev_ind; [discriminate|].
  unfold id_map_of in *. rewrite map_app. simpl. rewrite dict_get_snoc.
  destruct (String.eqb (s_id st) k) eqn:E.
  - intros H. injection H as <-. apply String.eqb_eq in E.
    exists st. split; [apply in_or_app; right; now left|auto].
  - intros H. destruct (IH H) as [st' [Hin Hst']].
    exists st'. split; [apply in_or_app; now left|assumption].
Qed.

Lemma dict_get_known (k : string) (steps : list step) :
  (exists st, In st steps /\ s_id st = k) ->
  exists g, dict_get k (id_map_of steps) = Some g.
Proof.
  induction steps as [|st steps IH] using rev_ind; [intros [? [[] _]]|].
  intros [st' [Hin Hid]].
  unfold id_map_of in *. rewrite map_app. simpl. rewrite dict_get_snoc.
  destruct (String.eqb (s_id st) k) eqn:E; [eauto|].
  apply IH. exists st'. split; [|assumption].
  apply in_app_or in Hin. destruct Hin as [Hin|[<-|[]]]; [assumption|].
  apply String.eqb_neq in E. congruence.
Qed.

Lemma payloads_valid_spec (steps : list step) :
  payloads_valid steps = true <->
  (forall st, In st steps ->
     exists p, In p VALID_PREFIXES /\ PyStr.startswith (s_payload st) p = true).
Proof.
  unfold payloads_valid. rewrite forallb_forall.
  split; intros H st Hst; apply valid_payload_spec; now apply H.
Qed.

Lemma deps_known_spec (steps : list step) :
  deps_known steps = true <->
  (forall st dep, In st steps -> In dep (s_deps st) ->
     exists st', In st' steps /\ s_id st' = dep).
Proof.
  unfold deps_known. rewrite forallb_forall. split.
  - intros H st dep Hst Hdep. specialize (H st Hst).
    rewrite forallb_forall in H. specialize (H dep Hdep).
    destruct (dict_get dep (id_map_of steps)) as [g|] eqn:Hg; [|discriminate].
    destruct (dict_get_some _ _ _ Hg) as [st' [Hin [Hid _]]]. eauto.
  - intros H st Hst. apply forallb_forall. intros dep Hdep.
    destruct (dict_get_known dep steps (H st dep Hst Hdep)) as [g ->].
    reflexivity.
Qed.

(** X12: how [expand_plan] ends on a parsed plan.  Without steps it raises
    [NoSteps].  Otherwise it returns the plan id and the number of steps
    exactly when every payload has a known prefix and every dep is the id
    of a step of the plan; it raises [BadPayload] exactly when some payload
    has no known prefix, and then the store is unchanged; and it raises
    [UnknownDep] exactly when the payloads are fine and some dep names no
    step. *)
Theorem expand_plan_outcome (now : Z) (plan_id : string) (steps : list step)
    (s : db) :
  let r := expand_plan now (Ok (plan_id, steps)) s in
  let all_valid :=
    forall st, In st steps ->
      exists p, In p VALID_PREFIXES /\ PyStr.startswith (s_payload st) p = true in
  let all_known :=
    forall st dep, In st steps -> In dep (s_deps st) ->
      exists st', In st' steps /\ s_id st' = dep in
  (steps = [] -> r = (Raise NoSteps, s)) /\
  (steps <> [] ->
   (fst r = Ok (plan_id, List.length steps) <-> all_valid /\ all_known) /\
   ((exists p, fst r = Raise (BadPayload p)) <-> ~ all_valid) /\
   ((exists st dep, fst r = Raise (UnknownDep st dep))
    <-> all_valid /\ ~ all_known) /\
   (~ all_valid -> snd r = s)).
Proof.
  intros r all_valid all_known. subst r.
  split; [intros ->; reflexivity|]. intros Hne.
  destruct (expand_plan_run now plan_id steps s Hne) as [Hok [Hdep Hbad]].
  pose proof (payloads_valid_spec steps) as Hvs. fold all_valid in Hvs.
  pose proof (deps_known_spec steps) as Hks. fold all_known in Hks.
  destruct (payloads_valid steps) eqn:Hv.
  - assert all_valid as Hall by now apply Hvs.
    destruct (deps_known steps) eqn:Hk.
    + assert all_known as Hkn by now apply Hks.
      rewrite (Hok eq_refl eq_refl). cbn [fst snd].
      split; [tauto|]. split; [|split].
      * split; [intros [p H]; discriminate|tauto].
      * split; [intros [st [dep H]]; discriminate|tauto].
      * tauto.
    + assert (~ all_known) as Hkn
          by (intros H; apply Hks in H; discriminate).
      destruct (Hdep eq_refl eq_refl) as [st [dep [Hrun _]]].
      rewrite Hrun. cbn [fst snd].
      split; [split; [discriminate|tauto]|]. split; [|split].
      * split; [intros [p H]; discriminate|tauto].
      * split; [tauto|]. intros _. now exists (s_id st), dep.
      * tauto.
  - assert (~ all_valid) as Hall
        by (intros H; apply Hvs in H; discriminate).
    destruct (Hbad eq_refl) as [p Hrun]. rewrite Hrun. cbn [fst snd].
    split; [split; [discriminate|tauto]|]. split; [|split].
    + split; [tauto|]. intros _. now exists p.
    + split; [intros [st [dep H]]; discriminate|tauto].
    + reflexivity.
Qed.

Lemma expand_plan_outcome_witness :
  fst (expand_plan 7 (Ok ("p", two_step_plan)) empty_db) = Ok ("p", 2%nat).
Proof.
  destruct (expand_plan_outcome 7 "p" two_step_plan empty_db) as [_ H].
  destruct (H ltac:(discriminate)) as [[_ Hok] _].
  apply Hok. split.
  - intros st Hst. simpl in Hst. destruct Hst as [<-|[<-|[]]].
    + exists "@cmd:". split; [simpl; tauto|reflexivity].
    + exists "@file:". split; [simpl; tauto|reflexivity].
  - intros st dep Hst Hdep. simpl in Hst. destruct Hst as [<-|[<-|[]]].
    + destruct Hdep.
    + simpl in Hdep. destruct Hdep as [<-|[]].
      eexists. split; [left; reflexivity|reflexivity].
Defined.

Lemma enqueue_steps_get (now : Z) (steps : list step) :
  forall d x,
    get_job x (enqueue_steps now steps d) =
    match get_job x d with
    | Some r => Some r
    | None =>
        option_map (fun st => new_job now (s_global_id st) (s_lane st)
                                (s_payload st) (s_dedupe_key st) MAX_ATTEMPTS)
                   (find (fun st => String.eqb (s_global_id st) x) steps)
    end.
Proof.
  induction steps as [|st steps IH]; intros d x.
  - simpl. now destruct (get_job x d).
  - unfold enqueue_steps in *. simpl fold_left. rewrite IH, enqueued_one_get.
    simpl find. destruct (get_job x d); [reflexivity|].
    destruct (String.eqb (s_global_id st) x) eqn:E; [|reflexivity].
    apply String.eqb_eq in E. now subst x.
Qed.

Lemma get_job_id_in (x : string) (d : db) :
  get_job x d <> None <-> In x (map j_id (jobs d)).
Proof.
  unfold get_job. split.
  - destruct (find (id_is x) (jobs d)) as [j|] eqn:Hf; [|congruence].
    intros _. apply find_some in Hf. destruct Hf as [Hin Hid].
    apply id_is_true in Hid. rewrite <- Hid. now apply in_map.
  - intros Hin Hnone. apply in_map_iff in Hin. destruct Hin as [j [Hid Hj]].
    pose proof (find_none _ _ Hnone j Hj) as H. apply id_is_false in H.
    congruence.
Qed.

Lemma enqueued_one_present now job_id lane payload dk ma (d : db) :
  get_job job_id d <> None ->
  jobs (enqueued_one now job_id lane payload dk ma d) = jobs d.
Proof.
  intros H. unfold enqueued_one, insert_job_or_ignore. simpl.
  destruct (existsb _ (jobs d)) eqn:Hex; [reflexivity|].
  apply has_id_get_job in Hex. unfold get_job in H. congruence.
Qed.

Lemma enqueue_steps_present (now : Z) (steps : list step) :
  forall d, (forall st, In st steps -> get_job (s_global_id st) d <> None) ->
            jobs (enqueue_steps now steps d) = jobs d.
Proof.
  induction steps as [|st steps IH]; intros d H; [reflexivity|].
  unfold enqueue_steps in *. simpl fold_left.
  assert (jobs (enqueued_one now (s_global_id st) (s_lane st) (s_payload st)
                             (s_dedupe_key st) MAX_ATTEMPTS d) = jobs d) as Hj
      by (apply enqueued_one_present; apply H; now left).
  rewrite IH; [exact Hj|].
  intros st' Hst'. unfold get_job. rewrite Hj. apply H. now right.
Qed.

Lemma plan_edges_in (steps : list step) (st : step) (dep g : string) :
  In st steps -> In dep (s_deps st) ->
  dict_get dep (id_map_of steps) = Some g ->
  In (s_global_id st, g) (plan_edges steps).
Proof.
  intros Hst Hdep Hg. unfold plan_edges. apply in_flat_map.
  exists st. split; [assumption|]. unfold step_edges. apply in_flat_map.
  exists dep. split; [assumption|]. rewrite Hg. now left.
Qed.

Lemma expand_plan_success (now : Z) (plan_id : string) (steps : list step)
    (s : db) (res : string * nat) :
  fst (expand_plan now (Ok (plan_id, steps)) s) = Ok res ->
  steps <> [] /\ payloads_valid steps = true /\ deps_known steps = true /\
  expand_plan now (Ok (plan_id, steps)) s
  = (Ok (plan_id, List.length steps),
     add_edges (plan_edges steps) (enqueue_steps now steps s)).
Proof.
  intros Hres.
  assert (steps <> []) as Hne by (intros ->; discriminate).
  destruct (expand_plan_run now plan_id steps s Hne) as [Hok [Hdep Hbad]].
  destruct (payloads_valid steps) eqn:Hv.
  - destruct (deps_known steps) eqn:Hk; [auto|].
    destruct (Hdep eq_refl eq_refl) as [st [dep [Hrun _]]].
    rewrite Hrun in Hres. discriminate.
  - destruct (Hbad eq_refl) as [p Hrun]. rewrite Hrun in Hres. discriminate.
Qed.

(** X13: after a successful [expand_plan] every step has a job under its
    global id -- a queued one with no attempts and the default cap if the
    id was new, the row that was there otherwise; every dep of every step is
    stored as an edge from the step's global id to the global id of a plan
    step with that id; and jobs outside the plan are untouched. *)
Theorem expand_plan_inserts (now : Z) (plan_id : string) (steps : list step)
    (s : db) (res : string * nat) :
  fst (expand_plan now (Ok (plan_id, steps)) s) = Ok res ->
  let s' := snd (expand_plan now (Ok (plan_id, steps)) s) in
  (forall st, In st steps ->
     exists j, get_job (s_global_id st) s' = Some j /\
               (forall r, get_job (s_global_id st) s = Some r -> j = r) /\
               (get_job (s_global_id st) s = None ->
                j_status j = Queued /\ j_attempts j = 0 /\
                j_max_attempts j = MAX_ATTEMPTS /\ j_created_at j = now)) /\
  (forall st dep, In st steps -> In dep (s_deps st) ->
     exists st', In st' steps /\ s_id st' = dep /\
                 In (s_global_id st, s_global_id st') (job_deps s')) /\
  (forall x, (forall st, In st steps -> s_global_id st <> x) ->
             get_job x s' = get_job x s).
Proof.
  intros Hres s'. subst s'.
  destruct (expand_plan_success _ _ _ _ _ Hres) as [Hne [Hv [Hk Hrun]]].
  rewrite Hrun. cbn [snd].
  assert (forall x, get_job x (add_edges (plan_edges steps)
                                 (enqueue_steps now steps s))
                    = get_job x (enqueue_steps now steps s)) as Hsame.
  { intros x. unfold get_job. now rewrite (proj1 (add_edges_jobs _ _)). }
  split; [|split].
  - intros st Hst. rewrite Hsame, enqueue_steps_get.
    destruct (get_job (s_global_id st) s) as [r|] eqn:Hget.
    + exists r. split; [reflexivity|]. split; [congruence|discriminate].
    + destruct (find (fun st0 => String.eqb (s_global_id st0) (s_global_id st))
                     steps) as [st0|] eqn:Hf.
      * eexists. split; [reflexivity|]. split; [discriminate|].
        intros _. simpl. auto.
      * exfalso. pose proof (find_none _ _ Hf st Hst) as H. simpl in H.
        now rewrite String.eqb_refl in H.
  - intros st dep Hst Hdep.
    destruct (proj1 (deps_known_spec steps) Hk st dep Hst Hdep) as [st1 Hst1].
    destruct (dict_get_known dep steps (ex_intro _ st1 Hst1)) as [g Hg].
    destruct (dict_get_some _ _ _ Hg) as [st' [Hin [Hid Hgid]]].
    exists st'. split; [assumption|]. split; [assumption|].
    apply (proj1 (add_edges_in _ _)). rewrite Hgid.
    now apply (plan_edges_in steps st dep g).
  - intros x Hx. rewrite Hsame, enqueue_steps_get.
    destruct (get_job x s); [reflexivity|].
    destruct (find _ steps) as [st0|] eqn:Hf; [|reflexivity].
    apply find_some in Hf. destruct Hf as [Hin Heq].
    apply String.eqb_eq in Heq. exfalso. now apply (Hx st0).
Qed.

Lemma expand_plan_inserts_witness :
  let s' := snd (expand_plan 7 (Ok ("p", two_step_plan)) empty_db) in
  (exists j, get_job "p::b" s' = Some j /\ j_status j = Queued) /\
  In ("p::b", "p::a") (job_deps s').
Proof.
  intros s'.
  destruct (expand_plan_inserts 7 "p" two_step_plan empty_db ("p", 2%nat))
    as [Hjobs [Hdeps _]]; [reflexivity|].
  split.
  - destruct (Hjobs (mkStep "b" "p::b" 2 "@file:out.diff#apply" ["a"]
                            (Some "c0ffee")))
      as [j [Hget [_ Hnew]]]; [simpl; auto|].
    exists j. split; [exact Hget|]. now apply Hnew.
  - subst s'. simpl. now left.
Defined.

(** X14: compiling the same plan a second time succeeds again and changes
    neither the jobs nor the dependency edges, whatever happened to the
    clock in between: only events are added. *)
Theorem expand_plan_idempotent (now1 now2 : Z) (plan_id : string)
    (steps : list step) (s : db) (res : string * nat) :
  fst (expand_plan now1 (Ok (plan_id, steps)) s) = Ok res ->
  let s1 := snd (expand_plan now1 (Ok (plan_id, steps)) s) in
  fst (expand_plan now2 (Ok (plan_id, steps)) s1) = Ok res /\
  jobs (snd (expand_plan now2 (Ok (plan_id, steps)) s1)) = jobs s1 /\
  job_deps (snd (expand_plan now2 (Ok (plan_id, steps)) s1)) = job_deps s1.
Proof.
  intros Hres s1. subst s1.
  destruct (expand_plan_success _ _ _ _ _ Hres) as [Hne [Hv [Hk Hrun]]].
  rewrite Hrun in Hres. simpl in Hres. injection Hres as <-.
  rewrite Hrun. cbn [snd].
  set (s1 := add_edges (plan_edges steps) (enqueue_steps now1 steps s)).
  destruct (expand_plan_run now2 plan_id steps s1 Hne) as [Hok _].
  rewrite (Hok Hv Hk). cbn [fst snd].
  assert (jobs (enqueue_steps now2 steps s1) = jobs s1) as Hjobs.
  { apply enqueue_steps_present. intros st Hst. unfold s1, get_job.
    rewrite (proj1 (add_edges_jobs _ _)).
    fold (get_job (s_global_id st) (enqueue_steps now1 steps s)).
    rewrite enqueue_steps_get.
    destruct (get_job (s_global_id st) s); [discriminate|].
    destruct (find _ steps) eqn:Hf; [discriminate|].
    pose proof (find_none _ _ Hf st Hst) as H. simpl in H.
    now rewrite String.eqb_refl in H. }
  split; [reflexivity|]. split.
  - now rewrite (proj1 (add_edges_jobs _ _)).
  - assert (forall e, In e (plan_edges steps) ->
                      In e (job_deps (enqueue_steps now2 steps s1))) as Hin.
    { intros e He. rewrite enqueue_steps_deps. unfold s1.
      now apply (proj1 (add_edges_in _ _)). }
    rewrite (add_edges_present _ _ Hin). apply enqueue_steps_deps.
Qed.

Lemma expand_plan_idempotent_witness :
  let s1 := snd (expand_plan 7 (Ok ("p", two_step_plan)) empty_db) in
  fst (expand_plan 99 (Ok ("p", two_step_plan)) s1) = Ok ("p", 2%nat) /\
  jobs (snd (expand_plan 99 (Ok ("p", two_step_plan)) s1)) = jobs s1 /\
  job_deps (snd (expand_plan 99 (Ok ("p", two_step_plan)) s1)) = job_deps s1.
Proof.
  apply (expand_plan_idempotent 7 99 "p" two_step_plan empty_db ("p", 2%nat)).
  reflexivity.
Defined.

(* ================================================================== *)
(** * Strings: stripping and the content hash of a payload *)
(* ================================================================== *)

Lemma lstrip_spaces (pre s : string) :
  all_space pre = true -> PyStr.lstrip (pre ++ s) = PyStr.lstrip s.
Proof.
  induction pre as [|c pre IH]; simpl; [reflexivity|].
  intros H. apply andb_true_iff in H. destruct H as [Hc Hpre].
  rewrite Hc. auto.
Qed.

Lemma rstrip_all_space (s : string) : all_space s = true -> PyStr.rstrip s = "".
Proof.
  induction s as [|c s IH]; simpl; [reflexivity|].
  intros H. apply andb_true_iff in H. destruct H as [Hc Hs].
  now rewrite (IH Hs), Hc.
Qed.

Lemma rstrip_spaces (s suf : string) :
  all_space suf = true -> PyStr.rstrip (s ++ suf) = PyStr.rstrip s.
Proof.
  intros Hsuf. induction s as [|c s IH]; simpl.
  - now apply rstrip_all_space.
  - now rewrite IH.
Qed.

Lemma lstrip_append (s suf : string) :
  PyStr.lstrip (s ++ suf) = PyStr.lstrip s ++ suf \/
  (PyStr.lstrip s = "" /\ PyStr.lstrip (s ++ suf) = PyStr.lstrip suf).
Proof.
  induction s as [|c s IH]; simpl.
  - right. auto.
  - destruct (PyStr.is_space c); [exact IH|]. now left.
Qed.

Lemma lstrip_all_space (s : string) : all_space s = true -> PyStr.lstrip s = "".
Proof.
  induction s as [|c s IH]; simpl; [reflexivity|].
  intros H. apply andb_true_iff in H. destruct H as [Hc Hs].
  rewrite Hc. auto.
Qed.

Lemma strip_surrounded (pre s suf : string) :
  all_space pre = true -> all_space suf = true ->
  PyStr.strip (pre ++ s ++ suf) = PyStr.strip s.
Proof.
  intros Hpre Hsuf. unfold PyStr.strip. rewrite lstrip_spaces by assumption.
  destruct (lstrip_append s suf) as [-> | [Hs ->]].
  - now apply rstrip_spaces.
  - rewrite Hs, (lstrip_all_space suf Hsuf). reflexivity.
Qed.

(** X15: the verdict of the command-safety gate does not depend on
    whitespace around the command. *)
Theorem is_cmd_safe_ignores_outer_space (pre cmd suf : string) :
  all_space pre = true -> all_space suf = true ->
  is_cmd_safe (pre ++ cmd ++ suf) = is_cmd_safe cmd.
Proof.
  intros Hpre Hsuf. unfold is_cmd_safe.
  now rewrite strip_surrounded.
Qed.

Lemma is_cmd_safe_ignores_outer_space_witness :
  is_cmd_safe ("  " ++ "git status" ++ " ") = is_cmd_safe "git status".
Proof.
  apply (is_cmd_safe_ignores_outer_space "  " "git status" " "); reflexivity.
Defined.

(** X16: an empty command, or one that is whitespace throughout, is
    rejected by the gate. *)
Theorem is_cmd_safe_rejects_blank (cmd : string) :
  all_space cmd = true -> is_cmd_safe cmd = false.
Proof.
  intros H. unfold is_cmd_safe, PyStr.strip.
  rewrite (lstrip_all_space cmd H). reflexivity.
Qed.

Lemma is_cmd_safe_rejects_blank_witness : is_cmd_safe "   " = false.
Proof. apply (is_cmd_safe_rejects_blank "   "). reflexivity. Defined.

(* ------------------------------------------------------------------ *)
(** ** [extract_sha_from_payload] *)

Lemma prefix_split (p s : string) :
  String.prefix p s = true -> s = p ++ drop (String.length p) s.
Proof.
  revert s. induction p as [|a p IH]; intros s; [reflexivity|].
  destruct s as [|b s]; simpl; [discriminate|].
  destruct (ascii_dec a b) as [->|]; [|discriminate].
  intros H. f_equal. now apply IH.
Qed.

Lemma prefix_app (p a b : string) :
  String.prefix (p ++ a) (p ++ b) = String.prefix a b.
Proof.
  induction p as [|c p IH]; simpl; [reflexivity|].
  destruct (ascii_dec c c); [exact IH|congruence].
Qed.

Lemma prefix_take_while (f : ascii -> bool) (s : string) :
  String.prefix (take_while f s) s = true.
Proof.
  induction s as [|c s IH]; simpl; [reflexivity|].
  destruct (f c); simpl; [|reflexivity].
  destruct (ascii_dec c c); [exact IH|congruence].
Qed.

Lemma take_while_all (f : ascii -> bool) (s : string) :
  all_chars f (take_while f s) = true.
Proof.
  induction s as [|c s IH]; simpl; [reflexivity|].
  destruct (f c) eqn:E; simpl; [|reflexivity]. now rewrite E.
Qed.

Lemma take_while_exact (f : ascii -> bool) (h t : string) :
  all_chars f h = true -> stops f t = true -> take_while f (h ++ t) = h.
Proof.
  intros Hh Ht. induction h as [|c h IH]; simpl in *.
  - destruct t as [|c t]; simpl in *; [reflexivity|].
    apply negb_true_iff in Ht. now rewrite Ht.
  - apply andb_true_iff in Hh. destruct Hh as [Hc Hh].
    rewrite Hc. f_equal. auto.
Qed.

Lemma sha_here_sound (s run : string) :
  sha_here s = run -> run <> "" ->
  all_chars is_hex run = true /\ String.prefix ("#sha1=" ++ run) s = true.
Proof.
  unfold sha_here, PyStr.startswith. intros Hrun Hne.
  destruct (String.prefix "#sha1=" s) eqn:Hp; [|congruence].
  subst run. split; [apply take_while_all|].
  rewrite (prefix_split _ _ Hp) at 2.
  rewrite prefix_app. apply prefix_take_while.
Qed.

(** X17: what [extract_sha_from_payload] returns is a non-empty string of
    hexadecimal digits that stands in the payload right after [#sha1=];
    as a dedupe key it therefore counts as set. *)
Theorem extract_sha_sound (payload h : string) :
  extract_sha_from_payload payload = Some h ->
  h <> "" /\ all_chars is_hex h = true /\
  PyStr.contains ("#sha1=" ++ h) payload = true /\
  truthy (Some h) = true.
Proof.
  induction payload as [|c rest IH]; [discriminate|].
  intros H. cbn [extract_sha_from_payload] in H.
  destruct (sha_here (String c rest)) as [|a run] eqn:Hhere.
  - destruct (IH H) as (Hne & Hhex & Hin & Ht).
    repeat split; auto.
    cbn [PyStr.contains]. rewrite Hin. apply orb_true_r.
  - injection H as <-.
    destruct (sha_here_sound _ _ Hhere ltac:(discriminate)) as [Hhex Hp].
    split; [discriminate|]. split; [assumption|]. split; [|reflexivity].
    cbn [PyStr.contains]. rewrite Hp. reflexivity.
Qed.

Lemma extract_sha_sound_witness :
  extract_sha_from_payload "@file:out/a.diff#apply#sha1=00ffAB.bak" = Some "00ffAB"
  /\ PyStr.contains ("#sha1=" ++ "00ffAB") "@file:out/a.diff#apply#sha1=00ffAB.bak"
     = true.
Proof.
  split; [reflexivity|].
  apply (extract_sha_sound "@file:out/a.diff#apply#sha1=00ffAB.bak" "00ffAB").
  reflexivity.
Defined.

Lemma prefix_nil (s : string) : String.prefix "" s = true.
Proof. now destruct s. Qed.

Lemma prefix_cons (a b : ascii) (p s : string) :
  String.prefix (String a p) (String b s)
  = if Ascii.eqb a b then String.prefix p s else false.
Proof.
  cbn [String.prefix]. destruct (ascii_dec a b) as [->|Hne].
  - now rewrite Ascii.eqb_refl.
  - apply Ascii.eqb_neq in Hne. now rewrite Hne.
Qed.

(** No match of the pattern starts inside [x] once [x] is followed by a
    text that begins with [#]. *)
Lemma sha_here_append (x s' : string) :
  x <> "" -> sha_here x = "" -> sha_here (x ++ String "#" s') = "".
Proof.
  intros Hne. unfold sha_here, PyStr.startswith.
  destruct x as [|c1 [|c2 [|c3 [|c4 [|c5 [|c6 x]]]]]]; [congruence|..];
    cbn [append]; rewrite ?prefix_cons, ?prefix_nil;
    try (intros _;
         repeat match goal with
                | |- context [Ascii.eqb ?a ?b] =>
                    let E := fresh "E" in
                    destruct (Ascii.eqb a b) eqn:E;
                    [try (vm_compute in E; discriminate)|try reflexivity]
                end; fail).
  destruct (Ascii.eqb "#" c1); [|reflexivity].
  destruct (Ascii.eqb "s" c2); [|reflexivity].
  destruct (Ascii.eqb "h" c3); [|reflexivity].
  destruct (Ascii.eqb "a" c4); [|reflexivity].
  destruct (Ascii.eqb "1" c5); [|reflexivity].
  destruct (Ascii.eqb "=" c6); [|reflexivity].
  cbn [drop]. destruct x as [|c7 x]; cbn [append take_while].
  - reflexivity.
  - destruct (is_hex c7); [discriminate|reflexivity].
Qed.

(** X18: a content hash written as [#sha1=<hex>] is found again: if the
    text before it holds no such hash, the hex digits are at least one,
    and what follows them is not a hex digit, [extract_sha_from_payload]
    returns exactly those digits. *)
Theorem extract_sha_finds (before h after : string) :
  extract_sha_from_payload before = None ->
  h <> "" -> all_chars is_hex h = true -> stops is_hex after = true ->
  extract_sha_from_payload (before ++ "#sha1=" ++ h ++ after) = Some h.
Proof.
  intros Hnone Hne Hhex Hstop.
  assert (sha_here ("#sha1=" ++ h ++ after) = h) as Hhere.
  { unfold sha_here, PyStr.startswith. cbn [append].
    rewrite !prefix_cons, prefix_nil, !Ascii.eqb_refl. cbn [drop].
    now apply take_while_exact. }
  induction before as [|c before IH].
  - simpl append. cbn [extract_sha_from_payload append].
    change (String "#" (String "s" (String "h" (String "a" (String "1"
             (String "=" (h ++ after)))))))
      with ("#sha1=" ++ h ++ after).
    rewrite Hhere. destruct h; [congruence|reflexivity].
  - cbn [extract_sha_from_payload] in Hnone.
    destruct (sha_here (String c before)) eqn:Hc; [|discriminate].
    change ((String c before) ++ "#sha1=" ++ h ++ after)
      with (String c (before ++ "#sha1=" ++ h ++ after)).
    cbn [extract_sha_from_payload].
    change (String c (before ++ "#sha1=" ++ h ++ after))
      with ((String c before) ++ String "#" ("sha1=" ++ h ++ after)).
    rewrite sha_here_append by (assumption || discriminate).
    now apply IH.
Qed.

Lemma extract_sha_finds_witness :
  extract_sha_from_payload ("@file:a#apply" ++ "#sha1=" ++ "c0ffee" ++ " deps=x")
  = Some "c0ffee".
Proof.
  apply (extract_sha_finds "@file:a#apply" "c0ffee" " deps=x").
  - reflexivity.
  - discriminate.
  - reflexivity.
  - reflexivity.
Defined.

(* ================================================================== *)
(** * The read-only queries: stats and job listing *)
(* ================================================================== *)

Lemma count_partition (l : list job) :
  (List.length (filter (status_is Done) l)
   + (List.length (filter (status_is Failed) l)
      + (List.length (filter (status_is Queued) l)
         + List.length (filter (status_is Running) l))))%nat
  = List.length l.
Proof.
  induction l as [|j l IH]; [reflexivity|].
  unfold status_is in *. simpl. destruct (j_status j); simpl; lia.
Qed.

Lemma group_entry_sum (n : nat) (t : string) (rest : list (string * nat)) :
  fold_right Nat.add 0%nat
    (map snd ((if (0 <? n)%nat then [(t, n)] else []) ++ rest)%list)
  = (n + fold_right Nat.add 0%nat (map snd rest))%nat.
Proof. destruct n; reflexivity. Qed.

Lemma group_total (d : db) :
  fold_right Nat.add 0%nat (map snd (group_by_status d)) = List.length (jobs d).
Proof.
  rewrite <- (count_partition (jobs d)). unfold group_by_status.
  cbn [flat_map]. rewrite !group_entry_sum. unfold count_status. simpl. lia.
Qed.

(** X19: [get_stats] reports under ["total"] the number of jobs in the
    store; a status that some job has is reported with the number of jobs
    in it, and a status that no job has is missing from the result. *)
Theorem get_stats_counts (d : db) :
  dict_lookup "total" (get_stats d) = Some (List.length (jobs d)) /\
  (forall st, dict_lookup (status_text st) (get_stats d)
              = if (0 <? count_status st d)%nat
                then Some (count_status st d) else None).
Proof.
  unfold get_stats. rewrite group_total. unfold group_by_status.
  split.
  - simpl.
    destruct (0 <? count_status Done d)%nat;
      destruct (0 <? count_status Failed d)%nat;
      destruct (0 <? count_status Queued d)%nat;
      destruct (0 <? count_status Running d)%nat; reflexivity.
  - intros st. destruct st; cbn [flat_map];
      destruct (0 <? count_status Done d)%nat;
      destruct (0 <? count_status Failed d)%nat;
      destruct (0 <? count_status Queued d)%nat;
      destruct (0 <? count_status Running d)%nat; reflexivity.
Qed.

Lemma limit_all {A} (n : Z) (l : list A) :
  n < 0 \/ Z.of_nat (List.length l) <= n -> limit n l = l.
Proof.
  unfold limit. intros [H|H].
  - replace (n <? 0) with true by (symmetry; now apply Z.ltb_lt). reflexivity.
  - destruct (n <? 0); [reflexivity|]. apply firstn_all2. lia.
Qed.

Lemma limit_sorted (n : Z) (l : list job) :
  StronglySorted created_le l -> StronglySorted created_le (limit n l).
Proof.
  intros Hs. destruct (limit_prefix n l) as [rest H].
  rewrite H in Hs. now apply sorted_app in Hs.
Qed.

(** X20: [get_jobs] lists rows of the store only, oldest first by
    [created_at], none twice and at most [limit] of them when [limit] is
    not negative; with a status given every listed job has that status;
    and when [limit] is negative or no smaller than the number of matching
    jobs, every matching job is listed.  A missing or empty status matches
    every job. *)
Theorem get_jobs_listing (status : option string) (limit_ : Z) (d : db) :
  unique_ids d ->
  let matching := if truthy status then filter (status_text_is status) (jobs d)
                  else jobs d in
  exists rows,
    get_jobs status limit_ d = map info_of rows /\
    incl rows matching /\
    NoDup (map j_id rows) /\
    StronglySorted created_le rows /\
    (0 <= limit_ -> Z.of_nat (List.length (get_jobs status limit_ d)) <= limit_) /\
    (forall i t, In i (get_jobs status limit_ d) -> status = Some t -> t <> "" ->
                 i_status i = t) /\
    (limit_ < 0 \/ Z.of_nat (List.length matching) <= limit_ ->
     Permutation rows matching).
Proof.
  intros Hu matching.
  exists (get_jobs_rows status limit_ d).
  assert (get_jobs_rows status limit_ d = limit limit_ (order_by_created matching))
    as Hrows by (unfold get_jobs_rows, matching; now destruct (truthy status)).
  assert (NoDup (map j_id matching)) as Hnd.
  { unfold matching. destruct (truthy status); [|exact Hu].
    now apply NoDup_ids_filter. }
  assert (incl (get_jobs_rows status limit_ d) matching) as Hincl.
  { rewrite Hrows. intros j Hj. apply limit_incl in Hj.
    now apply (Permutation_in _ (order_by_created_perm matching)). }
  split; [reflexivity|]. split; [exact Hincl|].
  split; [|split; [|split; [|split]]].
  - rewrite Hrows.
    assert (NoDup (map j_id (order_by_created matching))) as Hs.
    { apply (Permutation_NoDup (l := map j_id matching)); [|assumption].
      apply Permutation_map. symmetry. apply order_by_created_perm. }
    destruct (limit_prefix limit_ (order_by_created matching)) as [rest Hrest].
    rewrite Hrest, map_app in Hs. now apply NoDup_app_remove_r in Hs.
  - rewrite Hrows. apply limit_sorted, order_by_created_sorted.
  - intros Hl. unfold get_jobs. rewrite length_map, Hrows.
    now apply limit_length.
  - intros i t Hi -> Hne. unfold get_jobs in Hi. apply in_map_iff in Hi.
    destruct Hi as [j [<- Hj]]. apply Hincl in Hj. unfold matching in Hj.
    replace (truthy (Some t)) with true in Hj
      by (destruct t; [congruence|reflexivity]).
    apply filter_In in Hj. destruct Hj as [_ Hj]. simpl in Hj.
    now apply String.eqb_eq in Hj.
  - intros Hall. rewrite Hrows, limit_all.
    + apply order_by_created_perm.
    + destruct Hall as [H|H]; [now left|right].
      now rewrite (Permutation_length (order_by_created_perm matching)).
Qed.

Lemma get_jobs_listing_witness :
  let s := run_ops slots_history empty_db in
  map i_id (get_jobs (Some "queued") 2 s) = ["a"; "b"] /\
  exists rows, get_jobs (Some "queued") 2 s = map info_of rows /\
               StronglySorted created_le rows.
Proof.
  intros s. split; [reflexivity|].
  destruct (get_jobs_listing (Some "queued") 2 s) as [rows [Hr [_ [_ [Hs _]]]]].
  - concrete_unique_ids.
  - exists rows. split; assumption.
Defined.

(* ================================================================== *)
(** * The local worker: what it runs and what it reports *)
(* ================================================================== *)

Section WorkerFacts.

Variable execute_cmd : string -> Z * string * string.
Variable isfile : string -> bool.

(** X21: whatever the payload and whatever the shell answers, the local
    worker posts exactly one report for the job, under its own holder
    name, as its last action, after at most one shell command; it returns
    true exactly when that report is a [/done]. *)
Theorem worker_reports_once (jid payload holder : string) :
  exists pre r,
    fst (execute_job_local execute_cmd isfile jid payload holder)
      = (pre ++ [r])%list /\
    forallb (fun a => negb (is_report a)) pre = true /\
    (List.length pre <= 1)%nat /\
    ((r = PostDone jid holder /\
      snd (execute_job_local execute_cmd isfile jid payload holder) = true) \/
     (exists msg, r = PostFail jid holder msg /\
      snd (execute_job_local execute_cmd isfile jid payload holder) = false)).
Proof.
  unfold execute_job_local, apply_patch.
  destruct (PyStr.startswith payload "@cmd:").
  - destruct (negb (is_cmd_safe (drop 5 payload))).
    + exists [], (PostFail jid holder
                   ("blocked command: " ++ PyStr.take 60 (drop 5 payload))).
      simpl. repeat split; auto. right. eauto.
    + destruct (execute_cmd (drop 5 payload)) as [[code out] err].
      destruct (code =? 0).
      * exists [Exec (drop 5 payload)], (PostDone jid holder).
        simpl. repeat split; auto.
      * eexists [Exec (drop 5 payload)], _.
        simpl. repeat split; auto. right. eauto.
  - destruct (PyStr.startswith payload "@file:" && PyStr.contains "#apply" payload).
    + destruct (negb (isfile (before_hash (drop 6 payload)))).
      * eexists [], _. cbn. repeat split; auto. right. eauto.
      * destruct (execute_cmd _) as [[code out] err].
        destruct (code =? 0).
        -- eexists [Exec _], _. cbn. repeat split; auto.
        -- eexists [Exec _], _. cbn. repeat split; auto. right. eauto.
    + destruct (PyStr.startswith payload "@file:" && PyStr.contains "#test" payload).
      * destruct (execute_cmd _) as [[code out] err].
        destruct (code =? 0).
        -- eexists [Exec _], _. cbn. repeat split; auto.
        -- eexists [Exec _], _. cbn. repeat split; auto. right. eauto.
      * destruct (_ || _).
        -- eexists [], _. cbn. repeat split; auto.
        -- destruct (PyStr.startswith payload "@file:").
           ++ eexists [], _. cbn. repeat split; auto. right. eauto.
           ++ eexists [], _. cbn. repeat split; auto. right. eauto.
Qed.

(** X22: the local worker hands a command to the shell only in three
    cases: the command of a [@cmd:] payload that passed the safety gate,
    [patch -p1 < path] for a [@file:...#apply] payload whose path is an
    existing file, and [test -f path] for a [@file:...#test] payload. *)
Theorem worker_runs_only (jid payload holder c : string) :
  In (Exec c) (fst (execute_job_local execute_cmd isfile jid payload holder)) ->
  (PyStr.startswith payload "@cmd:" = true /\ c = drop 5 payload /\
   is_cmd_safe c = true) \/
  (PyStr.startswith payload "@file:" = true /\
   PyStr.contains "#apply" payload = true /\
   c = "patch -p1 < " ++ before_hash (drop 6 payload) /\
   isfile (before_hash (drop 6 payload)) = true) \/
  (PyStr.startswith payload "@file:" = true /\
   PyStr.contains "#test" payload = true /\
   c = "test -f " ++ before_hash (drop 6 payload)).
Proof.
  unfold execute_job_local, apply_patch.
  destruct (PyStr.startswith payload "@cmd:") eqn:Hcmd.
  - destruct (is_cmd_safe (drop 5 payload)) eqn:Hsafe; simpl negb; cbv iota.
    + destruct (execute_cmd (drop 5 payload)) as [[code out] err].
      destruct (code =? 0); simpl; intros [H|[H|[]]]; try discriminate;
        injection H as <-; left; auto.
    + simpl. intros [H|[]]. discriminate.
  - destruct (PyStr.startswith payload "@file:") eqn:Hfile; simpl andb.
    + destruct (PyStr.contains "#apply" payload) eqn:Happly.
      * destruct (isfile (before_hash (drop 6 payload))) eqn:Hf; simpl negb;
          cbv iota.
        -- destruct (execute_cmd _) as [[code out] err].
           destruct (code =? 0); simpl; intros [H|[H|[]]]; try discriminate;
             injection H as <-; right; left; auto.
        -- simpl. intros [H|[]]. discriminate.
      * destruct (PyStr.contains "#test" payload) eqn:Htest.
        -- destruct (execute_cmd _) as [[code out] err].
           destruct (code =? 0); simpl; intros [H|[H|[]]]; try discriminate;
             injection H as <-; right; right; auto.
        -- destruct (_ || _); simpl; intros [H|[]]; discriminate.
    + destruct (_ || _); simpl; intros [H|[]]; discriminate.
Qed.

End WorkerFacts.

Lemma worker_runs_only_witness :
  is_cmd_safe "echo hi" = true /\
  fst (execute_job_local failing_shell no_files "j" "@cmd:echo hi" "w")
    = [Exec "echo hi"; PostFail "j" "w" "exit code 2"].
Proof.
  split; [|reflexivity].
  destruct (worker_runs_only failing_shell no_files "j" "@cmd:echo hi" "w" "echo hi")
    as [[_ [_ H]]|[[_ [H _]]|[_ [H _]]]].
  - simpl. now left.
  - exact H.
  - discriminate.
  - discriminate.
Defined.

(* ------------------------------------------------------------------ *)
(** ** Payload kinds *)

(** Two prefixes of one string: one is a prefix of the other. *)
Lemma prefix_comparable (a b p : string) :
  String.prefix a p = true -> String.prefix b p = true ->
  String.prefix a b = true \/ String.prefix b a = true.
Proof.
  revert a b. induction p as [|c p IH]; intros a b Ha Hb.
  - destruct a; [|discriminate]. left. apply prefix_nil.
  - destruct a as [|x a]; [left; apply prefix_nil|].
    destruct b as [|y b]; [right; apply prefix_nil|].
    rewrite prefix_cons in Ha, Hb |- *. rewrite prefix_cons.
    destruct (Ascii.eqb x c) eqn:Hx; [|discriminate].
    destruct (Ascii.eqb y c) eqn:Hy; [|discriminate].
    apply Ascii.eqb_eq in Hx, Hy. subst x y. rewrite Ascii.eqb_refl.
    now apply IH.
Qed.

Lemma prefix_exclusive (a b p : string) :
  String.prefix a b = false -> String.prefix b a = false ->
  PyStr.startswith p a = true -> PyStr.startswith p b = false.
Proof.
  unfold PyStr.startswith. intros Hab Hba Ha.
  destruct (String.prefix b p) eqn:Hb; [|reflexivity].
  destruct (prefix_comparable a b p Ha Hb); congruence.
Qed.

Section WorkerKinds.

Variable execute_cmd : string -> Z * string * string.
Variable isfile : string -> bool.

(** X23: payloads that are metadata only ([@doc:], [@url:], [@git:],
    [@gh:]) are reported done without anything being run, and a [@file:]
    payload with neither [#apply] nor [#test] is reported failed as
    "LLM-required" without anything being run. *)
Theorem worker_passive_payloads (jid payload holder : string) :
  (PyStr.startswith payload "@doc:" || PyStr.startswith payload "@url:"
   || PyStr.startswith payload "@git:" || PyStr.startswith payload "@gh:" = true ->
   execute_job_local execute_cmd isfile jid payload holder
   = ([PostDone jid holder], true)) /\
  (PyStr.startswith payload "@file:" = true ->
   PyStr.contains "#apply" payload = false ->
   PyStr.contains "#test" payload = false ->
   execute_job_local execute_cmd isfile jid payload holder
   = ([PostFail jid holder "LLM-required job; not executable in local mode"],
      false)).
Proof.
  unfold execute_job_local. split.
  - intros Hmeta.
    assert (PyStr.startswith payload "@cmd:" = false
            /\ PyStr.startswith payload "@file:" = false) as [-> ->].
    { apply orb_true_iff in Hmeta. destruct Hmeta as [Hmeta|H].
      - apply orb_true_iff in Hmeta. destruct Hmeta as [Hmeta|H].
        + apply orb_true_iff in Hmeta. destruct Hmeta as [H|H].
          * split; apply (prefix_exclusive "@doc:"); auto.
          * split; apply (prefix_exclusive "@url:"); auto.
        + split; apply (prefix_exclusive "@git:"); auto.
      - split; apply (prefix_exclusive "@gh:"); auto. }
    simpl andb. cbv iota. now rewrite Hmeta.
  - intros Hfile Happly Htest.
    rewrite (prefix_exclusive "@file:" "@cmd:" payload eq_refl eq_refl Hfile).
    rewrite (prefix_exclusive "@file:" "@doc:" payload eq_refl eq_refl Hfile).
    rewrite (prefix_exclusive "@file:" "@url:" payload eq_refl eq_refl Hfile).
    rewrite (prefix_exclusive "@file:" "@git:" payload eq_refl eq_refl Hfile).
    rewrite (prefix_exclusive "@file:" "@gh:" payload eq_refl eq_refl Hfile).
    now rewrite Hfile, Happly, Htest.
Qed.

Lemma prefix_refl (s : string) : String.prefix s s = true.
Proof.
  induction s as [|c s IH]; [reflexivity|].
  now rewrite prefix_cons, Ascii.eqb_refl.
Qed.

Lemma contains_suffix (sub x : string) : PyStr.contains sub (x ++ sub) = true.
Proof.
  induction x as [|c x IH]; simpl append.
  - destruct sub as [|a sub]; [reflexivity|].
    cbn [PyStr.contains]. now rewrite prefix_refl.
  - cbn [PyStr.contains]. rewrite IH. apply orb_true_r.
Qed.

Lemma contains_skip (a c : ascii) (sub s : string) :
  Ascii.eqb a c = false ->
  PyStr.contains (String a sub) (String c s) = PyStr.contains (String a sub) s.
Proof.
  intros H. cbn [PyStr.contains]. now rewrite prefix_cons, H.
Qed.

Lemma no_apply_in_test (path : string) :
  hash_free path = true -> PyStr.contains "#apply" (path ++ "#test") = false.
Proof.
  unfold hash_free. induction path as [|c path IH]; [reflexivity|].
  simpl all_chars. intros H. apply andb_true_iff in H. destruct H as [Hc Hp].
  simpl append. apply negb_true_iff in Hc.
  rewrite contains_skip by (now rewrite Ascii.eqb_sym). auto.
Qed.

Lemma before_hash_test (path : string) :
  hash_free path = true -> before_hash (path ++ "#test") = path.
Proof.
  unfold hash_free. induction path as [|c path IH]; [reflexivity|].
  simpl. intros H. apply andb_true_iff in H. destruct H as [Hc Hp].
  apply negb_true_iff in Hc. rewrite Hc. f_equal. auto.
Qed.

(** X24: the safety gate stands before [@cmd:] payloads only: for a
    [@file:<path>#test] payload (the path free of [#]) the worker runs
    [test -f <path>] in the shell whatever the path contains, and reports
    done or "test failed" by the exit code. *)
Theorem worker_test_runs_unchecked (jid path holder : string) :
  hash_free path = true ->
  execute_job_local execute_cmd isfile jid ("@file:" ++ path ++ "#test") holder
  = if fst (fst (execute_cmd ("test -f " ++ path))) =? 0
    then ([Exec ("test -f " ++ path); PostDone jid holder], true)
    else ([Exec ("test -f " ++ path);
           PostFail jid holder ("test failed: " ++ path)], false).
Proof.
  intros Hfree. unfold execute_job_local.
  replace (PyStr.startswith ("@file:" ++ path ++ "#test") "@cmd:") with false
    by reflexivity.
  replace (PyStr.startswith ("@file:" ++ path ++ "#test") "@file:") with true
    by (unfold PyStr.startswith; cbn [append];
        now rewrite !prefix_cons, prefix_nil).
  assert (PyStr.contains "#apply" ("@file:" ++ path ++ "#test") = false) as ->.
  { cbn [append]. rewrite !contains_skip by reflexivity.
    now apply no_apply_in_test. }
  assert (PyStr.contains "#test" ("@file:" ++ path ++ "#test") = true) as ->.
  { change ("@file:" ++ path ++ "#test") with (("@file:" ++ path) ++ "#test").
    apply contains_suffix. }
  simpl andb. cbv iota. cbn [append drop].
  rewrite before_hash_test by assumption.
  destruct (execute_cmd _) as [[code out] err]. reflexivity.
Qed.

End WorkerKinds.

Lemma worker_passive_payloads_witness :
  execute_job_local failing_shell no_files "j" "@url:https://example.org" "w"
  = ([PostDone "j" "w"], true) /\
  execute_job_local failing_shell no_files "j" "@file:docs/spec.md" "w"
  = ([PostFail "j" "w" "LLM-required job; not executable in local mode"], false).
Proof.
  split.
  - apply (proj1 (worker_passive_payloads failing_shell no_files "j"
                    "@url:https://example.org" "w")). reflexivity.
  - apply (proj2 (worker_passive_payloads failing_shell no_files "j"
                    "@file:docs/spec.md" "w")); reflexivity.
Defined.

Lemma worker_test_runs_unchecked_witness :
  is_cmd_safe ("test -f " ++ "x; sudo reboot") = false /\
  fst (execute_job_local failing_shell no_files "j"
         ("@file:" ++ "x; sudo reboot" ++ "#test") "w")
  = [Exec "test -f x; sudo reboot";
     PostFail "j" "w" "test failed: x; sudo reboot"].
Proof.
  split; [reflexivity|].
  rewrite (worker_test_runs_unchecked failing_shell no_files "j"
             "x; sudo reboot" "w"); reflexivity.
Defined.

(* ================================================================== *)
(** * Further edges: unknown ids, batch bounds, artifact names, the cap *)
(* ================================================================== *)

Lemma get_job_none_cond (x : string) (d : db) (cond : job -> bool) :
  get_job x d = None -> (forall j, cond j = true -> j_id j = x) ->
  rowcount cond d = 0%nat.
Proof.
  unfold get_job, rowcount. intros Hnone Hc.
  destruct (filter cond (jobs d)) as [|j l] eqn:E; [reflexivity|].
  assert (In j (filter cond (jobs d))) as Hin by (rewrite E; now left).
  apply filter_In in Hin. destruct Hin as [Hin Hcj].
  pose proof (find_none _ _ Hnone j Hin) as H. apply id_is_false in H.
  exfalso. apply H. now apply Hc.
Qed.

Lemma report_guard_id (job_id : string) (holder : option string) (j : job) :
  report_guard job_id holder j = true -> j_id j = job_id.
Proof.
  unfold report_guard. intros H. destruct (truthy holder).
  - apply andb_true_iff in H. destruct H as [H _].
    apply andb_true_iff in H. destruct H as [H _]. now apply id_is_true.
  - apply andb_true_iff in H. destruct H as [H _]. now apply id_is_true.
Qed.

(** X25: a report for an id the store does not hold is accepted without an
    error: no job and no edge changes, and yet a [done] (or [failed]) event
    naming that id is appended to the log. *)
Theorem report_unknown_id_logged (now : Z) (job_id error : string)
    (holder : option string) (s : db) :
  get_job job_id s = None ->
  db_conn (mark_done now job_id holder) s
  = (Ok tt, mkDb (jobs s) (job_deps s)
                 (events s ++ [mkEvent now (Some job_id) EvDone ""])) /\
  db_conn (mark_failed now job_id error holder) s
  = (Ok tt, mkDb (jobs s) (job_deps s)
                 (events s ++ [mkEvent now (Some job_id) EvFailed
                                       (PyStr.take 200 error)])).
Proof.
  intros Hnone. rewrite mark_done_run, mark_failed_run.
  assert (rowcount (report_guard job_id holder) s = 0%nat) as H0
      by (apply (get_job_none_cond job_id);
          [assumption | intros j; apply report_guard_id]).
  rewrite !update_jobs_none by assumption.
  split; [reflexivity|]. do 3 f_equal.
  unfold PyStr.take.
  assert (forall n m s0, (n <= m)%nat ->
            substring 0 m (substring 0 n s0) = substring 0 n s0) as Hsub.
  { intros n m s0. revert n m. induction s0 as [|c s0 IH]; intros n m Hle.
    - destruct n, m; reflexivity.
    - destruct n; [destruct m; reflexivity|].
      destruct m; [lia|]. simpl. f_equal. apply IH. lia. }
  rewrite Hsub by lia. reflexivity.
Qed.

Lemma report_unknown_id_logged_witness :
  db_conn (mark_done 5 "ghost" None) empty_db
  = (Ok tt, mkDb [] [] [mkEvent 5 (Some "ghost") EvDone ""]).
Proof.
  apply (proj1 (report_unknown_id_logged 5 "ghost" "" None empty_db eq_refl)).
Defined.

(** X26: the bounds of [batch]: a claim with [batch = 0] sweeps and
    returns nothing; a claim with a negative [batch] is not limited at all
    and returns every ready job of the lane that has no artifact. *)
Theorem claim_batch_bounds (fs : artifacts) (now_sweep now : Z) (holder : string)
    (lane : option Z) (batch lease_ms : Z) (s : db) :
  unique_ids s ->
  let r := db_conn (claim_ready fs now_sweep now holder lane batch lease_ms) s in
  (batch = 0 -> fst r = Ok [] /\ jobs (snd r) = jobs (swept now_sweep s)) /\
  (batch < 0 ->
   exists claimed, fst r = Ok claimed /\
     forall j, In j (jobs (swept now_sweep s)) ->
               is_ready (swept now_sweep s) lane j = true ->
               check_dedupe fs (j_dedupe_key j) = false ->
               In (to_claimed j) claimed).
Proof.
  intros Hu r. subst r. rewrite claim_ready_run by assumption. cbn [fst snd].
  split.
  - intros ->. unfold claimed_db, select_ready, limit. simpl.
    split; [reflexivity|]. rewrite <- (map_id (map _ (jobs s))) at 2.
    apply map_ext. reflexivity.
  - intros Hneg. eexists. split; [reflexivity|].
    intros j Hj Hready Hdd. apply in_map. apply filter_In.
    split; [|unfold not_deduped; now rewrite Hdd].
    unfold select_ready. rewrite limit_all by (now left).
    apply (Permutation_in _ (Permutation_sym (order_by_created_perm _))).
    apply filter_In. auto.
Qed.

Lemma claim_batch_bounds_witness :
  let s := run_ops slots_history empty_db in
  fst (db_conn (claim_ready None 5 5 "w" None 0 LEASE_MS) s) = Ok [] /\
  exists claimed,
    fst (db_conn (claim_ready None 5 5 "w" None (-1) LEASE_MS) s) = Ok claimed /\
    List.length claimed = 3%nat.
Proof.
  intros s. split.
  - apply (proj1 (claim_batch_bounds None 5 5 "w" None 0 LEASE_MS s
                    ltac:(concrete_unique_ids))). reflexivity.
  - destruct (proj2 (claim_batch_bounds None 5 5 "w" None (-1) LEASE_MS s
                       ltac:(concrete_unique_ids)))
      as [claimed [Hres _]]; [lia|].
    exists claimed. split; [exact Hres|].
    simpl in Hres. injection Hres as <-. reflexivity.
Defined.

(* ------------------------------------------------------------------ *)
(** ** Artifact names *)

Lemma rfind_dot_free (s : string) : dot_free s = true -> PyStr.rfind_dot s = None.
Proof.
  unfold dot_free. induction s as [|c s IH]; [reflexivity|].
  simpl. intros H. apply andb_true_iff in H. destruct H as [Hc Hs].
  rewrite (IH Hs). apply negb_true_iff in Hc. now rewrite Hc.
Qed.

Lemma rfind_dot_suffix (key ext : string) :
  dot_free ext = true ->
  PyStr.rfind_dot (key ++ "." ++ ext) = Some (String.length key).
Proof.
  intros Hext. induction key as [|c key IH]; simpl.
  - now rewrite (rfind_dot_free ext Hext).
  - simpl in IH. now rewrite IH.
Qed.

Lemma take_length_app (a b : string) :
  PyStr.take (String.length a) (a ++ b) = a.
Proof.
  unfold PyStr.take. induction a as [|c a IH]; simpl.
  - now destruct b.
  - now rewrite IH.
Qed.

Lemma length_append (a b : string) :
  String.length (a ++ b) = (String.length a + String.length b)%nat.
Proof. induction a as [|c a IH]; simpl; auto. Qed.

(** X27: which files count as the artifact of a key: the extension of a
    file is ignored -- a directory entry [key.ext] (one extension, not
    empty) is a hit for [key], and so is an entry named [key] itself when
    the key has no dot -- but only the last extension is: the stem of
    [key.ext1.ext2] is [key.ext1]. *)
Theorem dedupe_ignores_one_extension (key ext : string) (names : list string) :
  key <> "" -> ext <> "" -> dot_free ext = true ->
  stem (key ++ "." ++ ext) = key /\
  (dot_free key = true -> stem key = key) /\
  (In (key ++ "." ++ ext) names \/ (dot_free key = true /\ In key names) ->
   check_dedupe (Some names) (Some key) = true).
Proof.
  intros Hkey Hext Hfree.
  assert (stem (key ++ "." ++ ext) = key) as Hstem.
  { unfold stem. rewrite rfind_dot_suffix by assumption.
    rewrite length_append. simpl String.length.
    replace ((0 <? String.length key)%nat) with true.
    2:{ symmetry. apply Nat.ltb_lt. destruct key; [congruence|simpl; lia]. }
    replace ((String.length key <? String.length key + S (String.length ext) - 1)%nat)
      with true.
    2:{ symmetry. apply Nat.ltb_lt. destruct ext; [congruence|simpl; lia]. }
    simpl andb. cbv iota. apply take_length_app. }
  assert (dot_free key = true -> stem key = key) as Hplain.
  { intros H. unfold stem. now rewrite (rfind_dot_free key H). }
  split; [exact Hstem|]. split; [exact Hplain|].
  intros Hin. unfold check_dedupe.
  replace (truthy (Some key)) with true
    by (destruct key; [congruence|reflexivity]).
  simpl negb. cbv iota. apply existsb_exists.
  destruct Hin as [Hin|[Hk Hin]].
  - exists (key ++ "." ++ ext). split; [assumption|].
    unfold stem_is. rewrite Hstem. apply String.eqb_refl.
  - exists key. split; [assumption|].
    unfold stem_is. rewrite (Hplain Hk). apply String.eqb_refl.
Qed.

Lemma dedupe_ignores_one_extension_witness :
  stem ("abc123.tar" ++ "." ++ "gz") = "abc123.tar" /\
  check_dedupe (Some ["abc123.tar.gz"]) (Some "abc123.tar") = true /\
  check_dedupe (Some ["abc123.tar.gz"]) (Some "abc123") = false.
Proof.
  destruct (dedupe_ignores_one_extension "abc123.tar" "gz" ["abc123.tar.gz"])
    as [Hs [_ Hhit]]; try discriminate; try reflexivity.
  split; [exact Hs|]. split; [|reflexivity].
  apply Hhit. left. simpl. now left.
Defined.

(* ------------------------------------------------------------------ *)
(** ** The attempt cap at claim time *)

(** X28: in a reachable store a claim never hands out a job that has used
    up its attempts: every returned job whose cap is at least 1 had fewer
    attempts than its cap when the call started. *)
Theorem claim_respects_cap (fs : artifacts) (now_sweep now : Z) (holder : string)
    (lane : option Z) (batch lease_ms : Z) (s : db)
    (claimed : list claimed_job) (c : claimed_job) (j : job) :
  reachable s ->
  fst (db_conn (claim_ready fs now_sweep now holder lane batch lease_ms) s)
    = Ok claimed ->
  In c claimed -> get_job (c_id c) s = Some j ->
  1 <= j_max_attempts j ->
  j_attempts j < j_max_attempts j.
Proof.
  intros Hs Hres Hc Hget Hcap.
  pose proof (reachable_unique s Hs) as Hu.
  destruct (claimed_origin _ _ _ _ _ _ _ _ _ _ Hu Hres Hc)
    as [j0 [Hj0 [Hrow [-> _]]]].
  simpl in Hget. rewrite sweep_job_id in Hget.
  rewrite (in_get_job s j0 Hu Hj0) in Hget. injection Hget as ->.
  apply select_ready_in in Hrow. destruct Hrow as [_ Hready].
  apply is_ready_queued in Hready. apply sweep_job_queued in Hready.
  destruct Hready as [Hq|[_ Hlt]]; [|assumption].
  destruct (reachable_store_inv _ attempts_capped_kept s Hs) as [_ Hall].
  rewrite Forall_forall in Hall. now apply (Hall j Hj0 Hcap).
Qed.

Lemma claim_respects_cap_witness :
  let s := run_ops (firstn 2 retry_history) empty_db in
  fst (db_conn (claim_ready None 40000 40000 "w2" None 1 LEASE_MS) s)
    = Ok [mkClaimed "J" 0 "@cmd:true" None] /\
  (1 < 2).
Proof.
  intros s. split; [reflexivity|].
  apply (claim_respects_cap None 40000 40000 "w2" None 1 LEASE_MS s
           [mkClaimed "J" 0 "@cmd:true" None] (mkClaimed "J" 0 "@cmd:true" None)
           (mkJob "J" 0 "@cmd:true" Running (Some "w1") (Some 30001) 0 1 None
                  1 2 None)).
  - apply reachable_run_ops. constructor.
  - reflexivity.
  - simpl. now left.
  - reflexivity.
  - simpl. lia.
Defined.

(* ================================================================== *)
(** * The plan parser *)
(* ================================================================== *)

(** ** Character classes *)

Ltac by_ascii_cases c :=
  destruct c as [[] [] [] [] [] [] [] []]; vm_compute; congruence.

Lemma word_non_space (c : ascii) : Py.is_word c = true -> Py.non_space c = true.
Proof. by_ascii_cases c. Qed.

Lemma word_not_eq_sign (c : ascii) : Py.is_word c = true -> not_eq_sign c = true.
Proof. by_ascii_cases c. Qed.

Lemma word_not_comma (c : ascii) : Py.is_word c = true -> Ascii.eqb c "," = false.
Proof. by_ascii_cases c. Qed.

Lemma non_space_not_linebreak (c : ascii) :
  Py.non_space c = true -> Py.is_linebreak c = false.
Proof. by_ascii_cases c. Qed.

Lemma all_chars_impl (p q : ascii -> bool) (s : string) :
  (forall c, p c = true -> q c = true) ->
  all_chars p s = true -> all_chars q s = true.
Proof.
  intros Hpq. induction s as [|c s IH]; simpl; [reflexivity|].
  intros H. apply andb_true_iff in H. destruct H as [Hc Hs].
  now rewrite (Hpq c Hc), IH.
Qed.

Lemma all_chars_app (p : ascii -> bool) (a b : string) :
  all_chars p (a ++ b) = all_chars p a && all_chars p b.
Proof.
  induction a as [|c a IH]; simpl; [reflexivity|].
  now rewrite IH, andb_assoc.
Qed.

Lemma drop_length_app (a b : string) : drop (String.length a) (a ++ b) = b.
Proof. induction a as [|c a IH]; simpl; [now destruct b|exact IH]. Qed.

Lemma append_nil_r (s : string) : s ++ "" = s.
Proof. induction s as [|c s IH]; simpl; [reflexivity|now rewrite IH]. Qed.

Lemma append_assoc (a b c : string) : (a ++ b) ++ c = a ++ b ++ c.
Proof. induction a as [|x a IH]; simpl; [reflexivity|now rewrite IH]. Qed.

(** A string is its first word followed by the rest. *)
Lemma word_split (s : string) : s = take_while Py.non_space s ++ after_word s.
Proof.
  unfold after_word. induction s as [|c s IH]; simpl; [reflexivity|].
  destruct (Py.non_space c); simpl; [now f_equal|reflexivity].
Qed.

Lemma after_word_stops (s : string) : stops Py.non_space (after_word s) = true.
Proof.
  unfold after_word. induction s as [|c s IH]; simpl; [reflexivity|].
  destruct (Py.non_space c) eqn:E; simpl; [exact IH|now rewrite E].
Qed.

(** ** The field scanner [(\w+)=(\S+)] *)

Lemma field_here_token (k v r : string) :
  k <> "" -> all_chars Py.is_word k = true ->
  v <> "" -> all_chars Py.non_space v = true -> stops Py.non_space r = true ->
  field_here (k ++ "=" ++ v ++ r) = Some (k, v).
Proof.
  intros Hk Hkw Hv Hvs Hr. unfold field_here.
  rewrite (take_while_exact Py.is_word k ("=" ++ v ++ r) Hkw eq_refl).
  destruct k as [|c k]; [congruence|].
  rewrite drop_length_app. cbn [append].
  rewrite (take_while_exact Py.non_space v r Hvs Hr).
  destruct v; [congruence|reflexivity].
Qed.

Lemma findall_fields_skip (x r : string) :
  findall_fields (x ++ r) (String.length x) = findall_fields r 0.
Proof.
  induction x as [|c x IH]; simpl; [reflexivity|exact IH].
Qed.

(** A well-formed [key=value] at the head of the text is the next field. *)
Lemma findall_fields_token (k v r : string) :
  k <> "" -> all_chars Py.is_word k = true ->
  v <> "" -> all_chars Py.non_space v = true -> stops Py.non_space r = true ->
  findall_fields (k ++ "=" ++ v ++ r) 0 = (k, v) :: findall_fields r 0.
Proof.
  intros Hk Hkw Hv Hvs Hr.
  pose proof (field_here_token k v r Hk Hkw Hv Hvs Hr) as Hf.
  destruct k as [|c k]; [congruence|].
  cbn [append findall_fields] in *. rewrite Hf. f_equal.
  replace (String.length (String c k) + String.length v)%nat
    with (String.length (k ++ "=" ++ v)).
  - rewrite <- (findall_fields_skip (k ++ "=" ++ v) r).
    now rewrite !append_assoc.
  - rewrite !length_append. simpl. lia.
Qed.

(** A match of the pattern has an [=] right after a run of word
    characters. *)
Lemma field_here_shape (s k v : string) :
  field_here s = Some (k, v) ->
  exists t, s = k ++ String "=" t /\ k <> "" /\ v <> ""
            /\ all_chars Py.is_word k = true /\ all_chars Py.non_space v = true.
Proof.
  unfold field_here. intros H.
  pose proof (prefix_take_while Py.is_word s) as Hp.
  pose proof (take_while_all Py.is_word s) as Hw.
  destruct (take_while Py.is_word s) as [|c key] eqn:Ek; [discriminate|].
  apply prefix_split in Hp.
  destruct (drop (String.length (String c key)) s) as [|e r] eqn:Ed;
    [discriminate|].
  destruct (Ascii.eqb e "=") eqn:Ee.
  - apply Ascii.eqb_eq in Ee. subst e.
    pose proof (take_while_all Py.non_space r) as Hs.
    destruct (take_while Py.non_space r) as [|d value] eqn:Ev; [discriminate|].
    injection H as <- <-. exists r. repeat split; try congruence; assumption.
  - exfalso. destruct e as [[] [] [] [] [] [] [] []]; try discriminate.
Qed.

(** A text without [=] that ends before a space cannot start a match. *)
Lemma no_key_before_space (x r k t : string) :
  all_chars not_eq_sign x = true -> all_chars Py.is_word k = true ->
  stops Py.non_space r = true ->
  x ++ r = k ++ String "=" t -> False.
Proof.
  revert k. induction x as [|a x IH]; intros k Hx Hk Hr E.
  - cbn [append] in E. destruct r as [|c r]; [now destruct k|].
    destruct k as [|b k]; cbn [append] in E; injection E as -> _.
    + discriminate.
    + simpl in Hk, Hr. apply andb_true_iff in Hk. destruct Hk as [Hb _].
      apply word_non_space in Hb. now rewrite Hb in Hr.
  - simpl in Hx. apply andb_true_iff in Hx. destruct Hx as [Ha Hx].
    destruct k as [|b k]; cbn [append] in E; injection E as -> E.
    + discriminate.
    + simpl in Hk. apply andb_true_iff in Hk. destruct Hk as [_ Hk]. eauto.
Qed.

Lemma findall_fields_no_eq (x r : string) :
  all_chars not_eq_sign x = true -> stops Py.non_space r = true ->
  findall_fields (x ++ r) 0 = findall_fields r 0.
Proof.
  intros Hx Hr. induction x as [|a x IH]; [reflexivity|].
  cbn [append findall_fields].
  destruct (field_here (String a (x ++ r))) as [[k v]|] eqn:E.
  - exfalso. apply field_here_shape in E. destruct E as (t & E & _ & _ & Hk & _).
    exact (no_key_before_space (String a x) r k t Hx Hk Hr E).
  - simpl in Hx. apply andb_true_iff in Hx. now apply IH.
Qed.

(** ** Searching for [payload=], [deps=] and [dedupe=] *)

Lemma prefix_all_chars (q : ascii -> bool) (p x : string) :
  String.prefix p x = true -> all_chars q x = true -> all_chars q p = true.
Proof.
  intros Hp Hx. apply prefix_split in Hp. rewrite Hp, all_chars_app in Hx.
  now apply andb_true_iff in Hx.
Qed.

(** A pattern without spaces that matches at [x ++ " " ++ r] lies in [x]. *)
Lemma prefix_before_space (p x r : string) :
  all_chars Py.non_space p = true ->
  String.prefix p (x ++ String " " r) = true -> String.prefix p x = true.
Proof.
  revert x. induction p as [|a p IH]; intros x Hp H; [apply prefix_nil|].
  simpl in Hp. apply andb_true_iff in Hp. destruct Hp as [Ha Hp].
  destruct x as [|b x]; cbn [append] in H; rewrite prefix_cons in H.
  - destruct (Ascii.eqb a " ") eqn:E; [|discriminate].
    apply Ascii.eqb_eq in E. subst a. discriminate.
  - rewrite prefix_cons. destruct (Ascii.eqb a b); [now apply IH|discriminate].
Qed.

Lemma after_first_cons (pat : string) (a : ascii) (s : string) :
  Py.after_first pat (String a s)
  = if String.prefix pat (String a s)
    then Some (drop (String.length pat) (String a s))
    else Py.after_first pat s.
Proof. reflexivity. Qed.

(** The search for a pattern with an [=] in it passes over a word without
    [=] that a space follows. *)
Lemma after_first_skip (pat x r : string) :
  all_chars Py.non_space pat = true -> all_chars not_eq_sign pat = false ->
  all_chars not_eq_sign x = true ->
  Py.after_first pat (x ++ String " " r) = Py.after_first pat (String " " r).
Proof.
  intros Hs He Hx. induction x as [|a x IH]; [reflexivity|].
  cbn [append]. rewrite after_first_cons.
  destruct (String.prefix pat (String a (x ++ String " " r))) eqn:E.
  - apply (prefix_before_space pat (String a x) r Hs) in E.
    apply (prefix_all_chars not_eq_sign) in E; [congruence|assumption].
  - simpl in Hx. apply andb_true_iff in Hx. now apply IH.
Qed.

Lemma contains_no_eq (pat x : string) :
  all_chars not_eq_sign pat = false -> all_chars not_eq_sign x = true ->
  PyStr.contains pat x = false.
Proof.
  intros He. induction x as [|a x IH]; intros Hx.
  - destruct pat; [discriminate|reflexivity].
  - cbn [PyStr.contains].
    destruct (String.prefix pat (String a x)) eqn:E.
    + apply (prefix_all_chars not_eq_sign) in E; [congruence|assumption].
    + simpl in Hx. apply andb_true_iff in Hx. now apply IH.
Qed.

Lemma rfind_none (pat s : string) :
  PyStr.contains pat s = false -> Py.rfind pat s = None.
Proof.
  induction s as [|a s IH]; [reflexivity|].
  cbn [PyStr.contains Py.rfind]. intros H. apply orb_false_iff in H.
  destruct H as [Hp Hc]. now rewrite (IH Hc), Hp.
Qed.

Lemma rfind_app (pat x y : string) (i : nat) :
  Py.rfind pat y = Some i ->
  Py.rfind pat (x ++ y) = Some (String.length x + i)%nat.
Proof.
  intros H. induction x as [|a x IH]; [exact H|].
  cbn [append Py.rfind]. now rewrite IH.
Qed.

Lemma prefix_app_self (p v : string) : String.prefix p (p ++ v) = true.
Proof.
  induction p as [|a p IH]; [apply prefix_nil|].
  cbn [append]. now rewrite prefix_cons, Ascii.eqb_refl.
Qed.

Lemma rfind_head (pat v : string) (a : ascii) :
  PyStr.contains (String a pat) (pat ++ v) = false ->
  Py.rfind (String a pat) (String a pat ++ v) = Some 0%nat.
Proof.
  intros H. cbn [append Py.rfind]. rewrite (rfind_none _ _ H).
  now rewrite prefix_cons, Ascii.eqb_refl, prefix_app_self.
Qed.

Lemma contains_cons (sub : string) (a : ascii) (s : string) :
  PyStr.contains sub (String a s)
  = String.prefix sub (String a s) || PyStr.contains sub s.
Proof. reflexivity. Qed.

Lemma rstrip_idem (s : string) : PyStr.rstrip (PyStr.rstrip s) = PyStr.rstrip s.
Proof.
  induction s as [|c s IH]; [reflexivity|]. cbn [PyStr.rstrip].
  destruct (PyStr.rstrip s) as [|d r] eqn:E.
  - destruct (PyStr.is_space c) eqn:Ec; [reflexivity|].
    cbn [PyStr.rstrip]. now rewrite Ec.
  - cbn [PyStr.rstrip] in *. now rewrite IH.
Qed.

Lemma rstrip_head (c : ascii) (s : string) :
  PyStr.is_space c = false ->
  exists r, PyStr.rstrip (String c s) = String c r.
Proof.
  intros Hc. cbn [PyStr.rstrip]. destruct (PyStr.rstrip s); rewrite ?Hc; eauto.
Qed.

Lemma lstrip_shape (s : string) :
  PyStr.lstrip s = "" \/
  exists c r, PyStr.lstrip s = String c r /\ PyStr.is_space c = false.
Proof.
  induction s as [|c s IH]; [now left|]. cbn [PyStr.lstrip].
  destruct (PyStr.is_space c) eqn:E; [exact IH|]. right. eauto.
Qed.

(** A stripped string has no whitespace at either end. *)
Lemma strip_fixed (s : string) :
  PyStr.strip s = s -> PyStr.lstrip s = s /\ PyStr.rstrip s = s.
Proof.
  unfold PyStr.strip. intros H. split.
  - destruct (lstrip_shape s) as [E | (c & r & E & Hc)]; rewrite E in H.
    + now subst s.
    + destruct (rstrip_head c r Hc) as (r' & Hr). rewrite Hr in H.
      subst s. cbn [PyStr.lstrip]. now rewrite Hc.
  - rewrite <- H at 1. rewrite rstrip_idem. exact H.
Qed.

Lemma rstrip_app_fixed (a b : string) :
  b <> "" -> PyStr.rstrip b = b -> PyStr.rstrip (a ++ b) = a ++ b.
Proof.
  intros Hb Hr. induction a as [|c a IH]; [exact Hr|].
  cbn [append PyStr.rstrip]. rewrite IH.
  destruct (a ++ b) eqn:E; [|reflexivity].
  destruct a; [cbn [append] in E; congruence|discriminate].
Qed.

Lemma rstrip_non_space (s : string) :
  all_chars Py.non_space s = true -> PyStr.rstrip s = s.
Proof.
  induction s as [|c s IH]; [reflexivity|]. simpl. intros H.
  apply andb_true_iff in H. destruct H as [Hc Hs]. rewrite (IH Hs).
  unfold Py.non_space in Hc. apply negb_true_iff in Hc. rewrite Hc.
  now destruct s.
Qed.

Lemma lstrip_non_space (s : string) :
  all_chars Py.non_space s = true -> PyStr.lstrip s = s.
Proof.
  destruct s as [|c s]; [reflexivity|]. simpl. intros H.
  apply andb_true_iff in H. destruct H as [Hc _].
  unfold Py.non_space in Hc. apply negb_true_iff in Hc. now rewrite Hc.
Qed.

(** Cutting the trailing field off a payload that a field follows. *)
Lemma cut_trailing_deps (p v : string) :
  PyStr.rstrip p = p -> all_chars not_eq_sign v = true ->
  cut_trailing "deps=" (p ++ " deps=" ++ v) = p.
Proof.
  intros Hp Hv. unfold cut_trailing.
  assert (Hr : Py.rfind "deps=" ("deps=" ++ v) = Some 0%nat).
  { apply rfind_head. cbn [append]. rewrite !contains_cons, !prefix_cons.
    cbn [Ascii.eqb Bool.eqb orb]. now apply contains_no_eq. }
  replace (p ++ " deps=" ++ v) with ((p ++ " ") ++ "deps=" ++ v)
    by now rewrite append_assoc.
  rewrite (rfind_app _ (p ++ " ") _ _ Hr), length_append, Nat.add_0_r.
  cbn [String.length]. rewrite Nat.add_1_r.
  replace (S (String.length p)) with (String.length (p ++ " "))
    by (rewrite length_append; simpl; lia).
  rewrite take_length_app, rstrip_spaces by reflexivity. exact Hp.
Qed.

Lemma cut_trailing_absent (pat p : string) :
  PyStr.contains pat p = false -> cut_trailing pat p = p.
Proof. intros H. unfold cut_trailing. now rewrite rfind_none. Qed.

(** ** The dependency list and the lane number *)

Lemma split_on_app (d rest : string) :
  all_chars Py.is_word d = true ->
  Py.split_on "," (d ++ "," ++ rest) = d :: Py.split_on "," rest.
Proof.
  induction d as [|c d IH]; intros H; [reflexivity|].
  simpl in H. apply andb_true_iff in H. destruct H as [Hc Hd].
  cbn [append Py.split_on]. rewrite (word_not_comma c Hc).
  cbn [append] in IH. now rewrite (IH Hd).
Qed.

Lemma split_on_word (d : string) :
  all_chars Py.is_word d = true -> Py.split_on "," d = [d].
Proof.
  induction d as [|c d IH]; intros H; [reflexivity|].
  simpl in H. apply andb_true_iff in H. destruct H as [Hc Hd].
  cbn [Py.split_on]. now rewrite (word_not_comma c Hc), (IH Hd).
Qed.

Lemma split_on_join (deps : list string) :
  deps <> [] -> Forall dep_ok deps ->
  Py.split_on "," (join_comma deps) = deps.
Proof.
  induction deps as [|d deps IH]; [congruence|]. intros _ H.
  inversion H as [|? ? [_ Hd] Hrest]; subst.
  destruct deps as [|d' deps].
  - now apply split_on_word.
  - change (join_comma (d :: d' :: deps))
      with (d ++ "," ++ join_comma (d' :: deps)).
    rewrite (split_on_app _ _ Hd). f_equal. now apply IH.
Qed.

Lemma strip_word (d : string) :
  all_chars Py.is_word d = true -> PyStr.strip d = d.
Proof.
  intros H. apply (all_chars_impl _ _ _ word_non_space) in H.
  unfold PyStr.strip. now rewrite (lstrip_non_space d H), rstrip_non_space.
Qed.

Lemma join_comma_chars (q : ascii -> bool) (deps : list string) :
  q ","%char = true -> Forall (fun d => all_chars q d = true) deps ->
  all_chars q (join_comma deps) = true.
Proof.
  intros Hq. induction deps as [|d deps IH]; [reflexivity|]. intros H.
  inversion H as [|? ? Hd Hrest]; subst. destruct deps as [|d' deps].
  - exact Hd.
  - change (join_comma (d :: d' :: deps))
      with (d ++ "," ++ join_comma (d' :: deps)).
    rewrite !all_chars_app, Hd, (IH Hrest). simpl. now rewrite Hq.
Qed.

Lemma join_comma_nonempty (deps : list string) :
  deps <> [] -> Forall dep_ok deps -> join_comma deps <> "".
Proof.
  destruct deps as [|d deps]; [congruence|]. intros _ H.
  inversion H as [|? ? [Hd _] _]; subst.
  destruct d; [congruence|]. now destruct deps.
Qed.

(** The written dependency list reads back as it was. *)
Lemma parse_deps_join (deps : list string) :
  deps <> [] -> Forall dep_ok deps -> parse_deps (join_comma deps) = deps.
Proof.
  intros Hne H. unfold parse_deps.
  pose proof (join_comma_nonempty deps Hne H) as Hj.
  destruct (join_comma deps) eqn:E; [congruence|]. rewrite <- E.
  rewrite (split_on_join deps Hne H). clear E Hj Hne.
  induction H as [|d deps [Hd Hw] _ IH]; [reflexivity|].
  cbn [map filter]. rewrite (strip_word d Hw), IH.
  now destruct d.
Qed.

(** [int] reads what [str] writes. *)
Lemma digits_value_acc (d : Decimal.uint) (acc : positive) :
  Py.digits_value (NilEmpty.string_of_uint d) (Z.pos acc) true
  = Some (Z.pos (Pos.of_uint_acc d acc)).
Proof.
  revert acc. induction d; intros acc; cbn [NilEmpty.string_of_uint];
    [reflexivity|..];
    cbn [Py.digits_value Pos.of_uint_acc];
    match goal with
    | |- context [Py.is_digit ?c] =>
        change (Py.is_digit c) with true; cbv iota
    end;
    rewrite <- IHd; f_equal; vm_compute (Z.of_nat _); lia.
Qed.

Lemma digits_value_uint (d : Decimal.uint) (b : bool) :
  d <> Decimal.Nil \/ b = true ->
  Py.digits_value (NilEmpty.string_of_uint d) 0 b
  = Some (Z.of_N (Pos.of_uint d)).
Proof.
  revert b. induction d; intros b Hb; cbn [NilEmpty.string_of_uint].
  - destruct Hb as [Hb | ->]; [congruence|reflexivity].
  - cbn [Py.digits_value Pos.of_uint]. change (Py.is_digit "0") with true.
    cbv iota. apply IHd. now right.
  - apply (digits_value_acc d 1).
  - apply (digits_value_acc d 2).
  - apply (digits_value_acc d 3).
  - apply (digits_value_acc d 4).
  - apply (digits_value_acc d 5).
  - apply (digits_value_acc d 6).
  - apply (digits_value_acc d 7).
  - apply (digits_value_acc d 8).
  - apply (digits_value_acc d 9).
Qed.

Lemma string_of_uint_digits (d : Decimal.uint) :
  all_chars Py.is_digit (NilEmpty.string_of_uint d) = true.
Proof. induction d; simpl; auto. Qed.

Lemma int_of_uint (d : Decimal.uint) :
  d <> Decimal.Nil ->
  Py.int (NilEmpty.string_of_uint d) = Some (Z.of_N (Pos.of_uint d)).
Proof.
  intros Hd. rewrite <- (digits_value_uint d false) by now left.
  destruct d; [congruence|reflexivity..].
Qed.

Lemma int_str (z : Z) : Py.int (str_of_int z) = Some z.
Proof.
  unfold str_of_int. destruct z as [|p|p]; [reflexivity|..];
    cbn [Z.to_int NilZero.string_of_int];
    pose proof (Unsigned.to_uint_nonnil p) as Hn;
    pose proof (DecimalPos.Unsigned.of_to p) as Hof;
    unfold NilZero.string_of_uint;
    destruct (Pos.to_uint p) eqn:E; try congruence.
  all: try (rewrite int_of_uint by discriminate; rewrite Hof; reflexivity).
  all: cbn [Py.int]; rewrite digits_value_uint by (left; discriminate);
    rewrite Hof; reflexivity.
Qed.

Lemma str_of_int_chars (z : Z) : all_chars lane_char (str_of_int z) = true.
Proof.
  assert (H : forall d, all_chars lane_char (NilEmpty.string_of_uint d) = true).
  { intros d. apply (all_chars_impl Py.is_digit); [|apply string_of_uint_digits].
    intros c Hc. unfold lane_char. now rewrite Hc. }
  unfold str_of_int.
  destruct z as [|p|p]; [reflexivity|..];
    cbn [Z.to_int NilZero.string_of_int]; unfold NilZero.string_of_uint;
    destruct (Pos.to_uint p) eqn:E; try reflexivity;
    rewrite <- ?E; try apply H;
    cbn [all_chars]; rewrite H; reflexivity.
Qed.

Lemma str_of_int_nonempty (z : Z) : str_of_int z <> "".
Proof.
  unfold str_of_int.
  destruct z as [|p|p]; cbn [Z.to_int NilZero.string_of_int]; try discriminate.
  pose proof (Unsigned.to_uint_nonnil p). unfold NilZero.string_of_uint.
  destruct (Pos.to_uint p); try discriminate; congruence.
Qed.

Lemma lane_char_non_space (c : ascii) : lane_char c = true -> Py.non_space c = true.
Proof. by_ascii_cases c. Qed.

Lemma lane_char_not_eq_sign (c : ascii) : lane_char c = true -> not_eq_sign c = true.
Proof. by_ascii_cases c. Qed.

(** ** One written line *)

Lemma findall_fields_space (r : string) :
  findall_fields (String " " r) 0 = findall_fields r 0.
Proof. reflexivity. Qed.

Lemma stops_app (p : ascii -> bool) (a b : string) :
  stops p a = true -> stops p b = true -> stops p (a ++ b) = true.
Proof. destruct a; [now intros _|now intros H _]. Qed.

Lemma lstrip_length (s : string) :
  (String.length (PyStr.lstrip s) <= String.length s)%nat.
Proof.
  induction s as [|a s IH]; simpl; [lia|].
  destruct (PyStr.is_space a); simpl; lia.
Qed.

Lemma deps_text_stops (deps : list string) :
  stops Py.non_space (deps_text deps) = true.
Proof. now destruct deps. Qed.

Lemma join_comma_non_space (deps : list string) :
  Forall dep_ok deps -> all_chars Py.non_space (join_comma deps) = true.
Proof.
  intros H. apply join_comma_chars; [reflexivity|].
  eapply Forall_impl; [|exact H]. intros d [_ Hd].
  exact (all_chars_impl _ _ _ word_non_space Hd).
Qed.

Lemma join_comma_no_eq_sign (deps : list string) :
  Forall dep_ok deps -> all_chars not_eq_sign (join_comma deps) = true.
Proof.
  intros H. apply join_comma_chars; [reflexivity|].
  eapply Forall_impl; [|exact H]. intros d [_ Hd].
  exact (all_chars_impl _ _ _ word_not_eq_sign Hd).
Qed.

(** The dependency text is empty or a field of its own that ends the
    line. *)
Lemma deps_text_cases (deps : list string) :
  Forall dep_ok deps ->
  (deps = [] /\ deps_text deps = "")
  \/ (deps <> [] /\ deps_text deps = " deps=" ++ join_comma deps
      /\ join_comma deps <> ""
      /\ all_chars Py.non_space (join_comma deps) = true
      /\ all_chars not_eq_sign (join_comma deps) = true).
Proof.
  intros H. destruct deps as [|d ds] eqn:E; [now left|]. right.
  rewrite <- E in *. assert (Hne : deps <> []) by congruence.
  repeat split; auto using join_comma_nonempty, join_comma_non_space,
    join_comma_no_eq_sign.
  now rewrite E.
Qed.

Section WrittenLine.

Variables (plan_id : string) (st : step).
Hypothesis Hw : writable plan_id st.

Lemma payload_first_word : take_while Py.non_space (s_payload st) <> "".
Proof.
  destruct Hw as (_ & _ & _ & Hne & Hs & _).
  destruct (strip_fixed _ Hs) as [Hl _].
  destruct (s_payload st) as [|c p]; [congruence|].
  cbn [PyStr.lstrip] in Hl. cbn [take_while]. unfold Py.non_space.
  destruct (PyStr.is_space c); [|discriminate].
  pose proof (lstrip_length p) as H. rewrite Hl in H. simpl in H. lia.
Qed.

Lemma written_line_stripped : PyStr.strip (step_line st) = step_line st.
Proof.
  destruct Hw as (_ & _ & _ & Hne & Hs & _ & _ & _ & _ & Hd).
  unfold PyStr.strip.
  change (PyStr.lstrip (step_line st)) with (step_line st).
  destruct (strip_fixed _ Hs) as [_ Hr].
  replace (step_line st)
    with (("- [ ] id=" ++ s_id st ++ " lane=" ++ str_of_int (s_lane st)
           ++ " payload=") ++ s_payload st ++ deps_text (s_deps st))
    by (unfold step_line, step_fields; rewrite !append_assoc; reflexivity).
  apply rstrip_app_fixed.
  - destruct (s_payload st); [congruence|discriminate].
  - destruct (deps_text_cases _ Hd) as [[_ ->] | (_ & -> & Hj & Hn & _)].
    + now rewrite append_nil_r.
    + replace (s_payload st ++ " deps=" ++ join_comma (s_deps st))
        with ((s_payload st ++ " deps=") ++ join_comma (s_deps st))
        by now rewrite append_assoc.
      apply rstrip_app_fixed; [exact Hj|now apply rstrip_non_space].
Qed.

Lemma written_line_matches : step_re_match (step_line st) = Some (step_fields st).
Proof. reflexivity. Qed.

Lemma written_line_fields : findall_fields (step_fields st) 0 = step_field_list st.
Proof.
  destruct Hw as (_ & _ & [Hid Hidw] & Hne & Hs & _ & Heq & _ & _ & Hd).
  unfold step_fields, step_field_list.
  change ("id=" ++ s_id st ++ " lane=" ++ str_of_int (s_lane st)
          ++ " payload=" ++ s_payload st ++ deps_text (s_deps st))
    with ("id" ++ "=" ++ s_id st
          ++ String " " ("lane" ++ "=" ++ str_of_int (s_lane st)
          ++ String " " ("payload=" ++ s_payload st ++ deps_text (s_deps st)))).
  rewrite findall_fields_token, findall_fields_space;
    [|discriminate|reflexivity|exact Hid
     |exact (all_chars_impl _ _ _ word_non_space Hidw)|reflexivity].
  rewrite findall_fields_token, findall_fields_space;
    [|discriminate|reflexivity|apply str_of_int_nonempty
     |exact (all_chars_impl _ _ _ lane_char_non_space
               (str_of_int_chars (s_lane st)))
     |reflexivity].
  rewrite (word_split (s_payload st)) at 1. rewrite append_assoc.
  change ("payload=" ++ take_while Py.non_space (s_payload st)
          ++ after_word (s_payload st) ++ deps_text (s_deps st))
    with ("payload" ++ "=" ++ take_while Py.non_space (s_payload st)
          ++ after_word (s_payload st) ++ deps_text (s_deps st)).
  rewrite findall_fields_token;
    [|discriminate|reflexivity|exact payload_first_word|apply take_while_all
     |apply stops_app; [apply after_word_stops|apply deps_text_stops]].
  rewrite (findall_fields_no_eq _ _ Heq (deps_text_stops _)).
  cbn [app]. do 3 f_equal.
  destruct (deps_text_cases _ Hd) as [[E ->] | (Hn & -> & Hj & Hns & _)].
  - now rewrite E.
  - change (" deps=" ++ join_comma (s_deps st))
      with (String " " ("deps" ++ "=" ++ join_comma (s_deps st))).
    rewrite findall_fields_space.
    rewrite <- (append_nil_r (join_comma (s_deps st))) at 1.
    rewrite findall_fields_token;
      [|discriminate|reflexivity|exact Hj|exact Hns|reflexivity].
    now destruct (s_deps st).
Qed.

Lemma written_line_payload :
  Py.after_first "payload=" (step_fields st)
  = Some (s_payload st ++ deps_text (s_deps st)).
Proof.
  destruct Hw as (_ & _ & [Hid Hidw] & _).
  unfold step_fields.
  change ("id=" ++ s_id st ++ " lane=" ++ str_of_int (s_lane st)
          ++ " payload=" ++ s_payload st ++ deps_text (s_deps st))
    with (String "i" (String "d" (String "=" (s_id st
          ++ String " " ("lane=" ++ str_of_int (s_lane st)
          ++ String " " ("payload=" ++ s_payload st
                         ++ deps_text (s_deps st))))))).
  do 3 (rewrite after_first_cons, prefix_cons; cbn [Ascii.eqb Bool.eqb andb]).
  rewrite after_first_skip;
    [|reflexivity|reflexivity|exact (all_chars_impl _ _ _ word_not_eq_sign Hidw)].
  cbn [append].
  do 6 (rewrite after_first_cons, prefix_cons; cbn [Ascii.eqb Bool.eqb andb]).
  rewrite after_first_skip;
    [|reflexivity|reflexivity
     |exact (all_chars_impl _ _ _ lane_char_not_eq_sign
               (str_of_int_chars (s_lane st)))].
  rewrite after_first_cons, prefix_cons; cbn [Ascii.eqb Bool.eqb andb].
  cbn [append]. rewrite after_first_cons.
  repeat (rewrite prefix_cons; cbn [Ascii.eqb Bool.eqb andb]).
  now rewrite prefix_nil.
Qed.

Lemma written_line_cut :
  cut_trailing "dedupe=" (cut_trailing "deps=" (s_payload st ++ deps_text (s_deps st)))
  = s_payload st.
Proof.
  destruct Hw as (_ & _ & _ & _ & Hs & _ & _ & Hnd & Hndd & Hd).
  destruct (strip_fixed _ Hs) as [_ Hr].
  destruct (deps_text_cases _ Hd) as [[_ ->] | (_ & -> & _ & _ & He)].
  - rewrite append_nil_r, (cut_trailing_absent "deps=") by assumption.
    now apply cut_trailing_absent.
  - rewrite cut_trailing_deps by assumption. now apply cut_trailing_absent.
Qed.

(** The line written for a step is parsed as that step. *)
Lemma parse_written_line : parse_step_line plan_id (step_line st) = Step st.
Proof.
  unfold parse_step_line.
  rewrite written_line_stripped, written_line_matches, written_line_fields.
  rewrite written_line_payload, written_line_cut.
  destruct Hw as (Hg & Hk & _ & _ & _ & _ & _ & _ & _ & Hd).
  unfold step_field_list.
  destruct st as [sid gid lane payload deps key]. cbn [s_id s_global_id s_lane
    s_payload s_deps s_dedupe_key] in *. subst gid key.
  destruct deps as [|d ds] eqn:E.
  - cbv [app dict_of fold_left dict_set dict_lookup fst snd String.eqb
         Ascii.eqb Bool.eqb andb negb].
    now rewrite int_str.
  - rewrite <- E in *.
    cbv [app dict_of fold_left dict_set dict_lookup fst snd String.eqb
         Ascii.eqb Bool.eqb andb negb].
    rewrite int_str, parse_deps_join; [reflexivity|congruence|exact Hd].
Qed.

End WrittenLine.

(** ** A written plan *)

Lemma splitlines_from_app (x s cur : string) :
  all_chars on_one_line x = true ->
  Py.splitlines_from (x ++ s) cur = Py.splitlines_from s (cur ++ x).
Proof.
  revert cur. induction x as [|c x IH]; intros cur H.
  - now rewrite append_nil_r.
  - simpl in H. apply andb_true_iff in H. destruct H as [Hc Hx].
    unfold on_one_line in Hc. apply negb_true_iff in Hc.
    cbn [append Py.splitlines_from]. rewrite Hc, (IH _ Hx).
    now rewrite append_assoc.
Qed.

Lemma splitlines_from_lf (c : ascii) (u cur : string) :
  Py.splitlines_from (String "010" (String c u)) cur
  = cur :: Py.splitlines_from (String c u) "".
Proof. reflexivity. Qed.

Lemma unlines_nonempty (l : string) (rest : list string) :
  l <> "" -> unlines (l :: rest) <> "".
Proof. destruct l; [congruence|]. now destruct rest. Qed.

Lemma splitlines_unlines (lines : list string) :
  Forall (fun l => l <> "" /\ all_chars on_one_line l = true) lines ->
  Py.splitlines (unlines lines) = lines.
Proof.
  unfold Py.splitlines.
  induction lines as [|l lines IH]; intros H; [reflexivity|].
  inversion H as [|? ? [Hl Hone] Hrest]; subst.
  destruct lines as [|l2 lines].
  - cbn [unlines]. rewrite <- (append_nil_r l) at 1.
    rewrite splitlines_from_app by assumption. cbn [append Py.splitlines_from].
    now destruct l.
  - change (unlines (l :: l2 :: lines))
      with (l ++ String "010" (unlines (l2 :: lines))).
    rewrite splitlines_from_app by assumption. cbn [append].
    inversion Hrest as [|? ? [Hl2 _] _]; subst.
    pose proof (unlines_nonempty l2 lines Hl2) as Hu.
    specialize (IH Hrest).
    destruct (unlines (l2 :: lines)) as [|c u]; [congruence|].
    rewrite splitlines_from_lf. now rewrite IH.
Qed.

Lemma non_space_one_line (s : string) :
  all_chars Py.non_space s = true -> all_chars on_one_line s = true.
Proof.
  apply all_chars_impl. intros c Hc. unfold on_one_line.
  now rewrite non_space_not_linebreak.
Qed.

Lemma step_line_one_line (plan_id : string) (st : step) :
  writable plan_id st ->
  step_line st <> "" /\ all_chars on_one_line (step_line st) = true.
Proof.
  intros (_ & _ & [_ Hid] & _ & _ & Hp & _ & _ & _ & Hd).
  split; [discriminate|].
  unfold step_line, step_fields. rewrite !all_chars_app.
  rewrite (non_space_one_line _ (all_chars_impl _ _ _ word_non_space Hid)).
  rewrite (non_space_one_line _ (all_chars_impl _ _ _ lane_char_non_space
                                   (str_of_int_chars (s_lane st)))).
  rewrite Hp.
  destruct (deps_text_cases _ Hd) as [[_ ->] | (_ & -> & _ & Hn & _)];
    [reflexivity|].
  rewrite all_chars_app, (non_space_one_line _ Hn). reflexivity.
Qed.

Lemma written_plan_lines (slug : string) (steps : list step) :
  Forall (writable slug) steps ->
  Py.splitlines (unlines (map step_line steps)) = map step_line steps.
Proof.
  intros Hw. apply splitlines_unlines. apply Forall_map.
  eapply Forall_impl; [|exact Hw]. intros st H.
  exact (step_line_one_line slug st H).
Qed.

Lemma written_plan_policy (slug : string) (steps : list step) (pol : policy) :
  Forall (writable slug) steps ->
  fold_left policy_line (map step_line steps) pol = pol.
Proof.
  induction 1 as [|st sts H _ IH]; [reflexivity|].
  cbn [map fold_left]. unfold policy_line at 2.
  rewrite (written_line_stripped slug st H).
  change (PyStr.startswith (Py.lower (step_line st)) "policy:") with false.
  exact IH.
Qed.

Lemma written_plan_id (slug : string) (steps : list step) :
  Forall (writable slug) steps ->
  find_plan_id (map step_line steps) slug = Some slug.
Proof.
  induction 1 as [|st sts H _ IH]; [reflexivity|].
  cbn [map find_plan_id]. rewrite (written_line_stripped slug st H).
  change (PyStr.startswith (Py.lower (step_line st)) "plan_id=") with false.
  exact IH.
Qed.

Lemma written_plan_steps (slug : string) (steps : list step) :
  Forall (writable slug) steps ->
  parse_steps slug (map step_line steps) = inr steps.
Proof.
  induction 1 as [|st sts H _ IH]; [reflexivity|].
  cbn [map parse_steps]. now rewrite (parse_written_line slug st H), IH.
Qed.

(** X29: [parse_plan] reads back a plan written in the documented line
    format.  For steps whose ids and dependencies are words and whose
    payloads are stripped, on one line, with [=] only in their first word
    and without [deps=] or [dedupe=], the text of their lines [- [ ] id=..
    lane=.. payload=.. deps=..] parses to the slug as plan id, exactly
    these steps in order (lane, payload with its spaces, dependency list
    and the dedupe key of the payload's [#sha1=]) and an empty policy. *)
Theorem parse_plan_reads_written_plan (slug : string) (steps : list step) :
  Forall (writable slug) steps ->
  parse_plan slug (unlines (map step_line steps)) = inr (slug, steps, []).
Proof.
  intros Hw. unfold parse_plan.
  rewrite (written_plan_lines slug steps Hw).
  rewrite (written_plan_policy slug steps [] Hw).
  rewrite (written_plan_id slug steps Hw).
  cbn [dict_lookup]. change (String.eqb (Py.lower "false") "true") with false.
  cbn [andb]. now rewrite (written_plan_steps slug steps Hw).
Qed.

Lemma parse_plan_reads_written_plan_witness :
  let build := mkStep "build" "demo::build" 1 "@cmd:make -j 4 all" [] None in
  let check := mkStep "check" "demo::check" (-2)
                      "@file:out/a.diff#apply#sha1=00ffAB" ["build"]
                      (Some "00ffAB") in
  parse_plan "demo" (unlines (map step_line [build; check]))
  = inr ("demo", [build; check], []).
Proof.
  intros build check.
  apply (parse_plan_reads_written_plan "demo" [build; check]).
  repeat constructor; try reflexivity; try discriminate.
Defined.

(** ** What every parsed step satisfies *)

Lemma string_eqb_sym (a b : string) : String.eqb a b = String.eqb b a.
Proof.
  destruct (String.eqb a b) eqn:E.
  - apply String.eqb_eq in E. subst. now rewrite String.eqb_refl.
  - destruct (String.eqb b a) eqn:E'; [|reflexivity].
    apply String.eqb_eq in E'. subst. now rewrite String.eqb_refl in E.
Qed.

Lemma dict_lookup_set {V} (k k' : string) (v' : V) (m : list (string * V)) :
  dict_lookup k (dict_set k' v' m)
  = if String.eqb k' k then Some v' else dict_lookup k m.
Proof.
  induction m as [|[k0 v0] m IH]; [reflexivity|]. cbn [dict_set dict_lookup].
  destruct (String.eqb k0 k') eqn:E0; cbn [dict_lookup].
  - apply String.eqb_eq in E0. subst k0. now destruct (String.eqb k' k).
  - rewrite IH. destruct (String.eqb k0 k) eqn:E1; [|reflexivity].
    apply String.eqb_eq in E1. subst k0.
    now rewrite string_eqb_sym, E0.
Qed.

(** A value of [dict(pairs)] is the value of one of the pairs. *)
Lemma dict_of_lookup_in (k v : string) (pairs m : list (string * string)) :
  dict_lookup k
    (fold_left (fun m kv => dict_set (fst kv) (snd kv) m) pairs m) = Some v ->
  In (k, v) pairs \/ dict_lookup k m = Some v.
Proof.
  revert m. induction pairs as [|[k' v'] pairs IH]; intros m H; [now right|].
  cbn [fold_left fst snd] in H. destruct (IH _ H) as [Hin | Hm].
  - left. now right.
  - rewrite dict_lookup_set in Hm. destruct (String.eqb k' k) eqn:E.
    + apply String.eqb_eq in E. injection Hm as <-. subst. left. now left.
    + now right.
Qed.

(** Every field that the scanner finds is a word and a token. *)
Lemma findall_fields_values (s : string) (n : nat) (k v : string) :
  In (k, v) (findall_fields s n) ->
  k <> "" /\ all_chars Py.is_word k = true /\ token v.
Proof.
  revert n. induction s as [|c s IH]; intros n H; [contradiction|].
  cbn [findall_fields] in H. destruct n as [|n]; [|eauto].
  destruct (field_here (String c s)) as [[k' v']|] eqn:E; [|eauto].
  destruct H as [H | H]; [|eauto]. injection H as -> ->.
  apply field_here_shape in E. destruct E as (t & _ & Hk & Hv & Hkw & Hvs).
  unfold token. auto.
Qed.

Lemma dict_of_findall (s k v : string) :
  dict_lookup k (dict_of (findall_fields s 0)) = Some v -> token v.
Proof.
  unfold dict_of. intros H. apply dict_of_lookup_in in H.
  destruct H as [H | H]; [|discriminate].
  now apply findall_fields_values in H.
Qed.

Lemma split_on_pieces (q : ascii -> bool) (s : string) :
  all_chars q s = true ->
  Forall (fun x => all_chars q x = true /\ all_chars no_comma x = true)
         (Py.split_on "," s).
Proof.
  induction s as [|c s IH]; intros H; [now repeat constructor|].
  simpl in H. apply andb_true_iff in H. destruct H as [Hc Hs].
  specialize (IH Hs). cbn [Py.split_on].
  destruct (Ascii.eqb c ",") eqn:E; [now repeat constructor|].
  destruct (Py.split_on "," s) as [|w ws].
  { constructor; [|constructor]. simpl. unfold no_comma. now rewrite Hc, E. }
  inversion IH as [|? ? [Hw Hn] Hrest]; subst. constructor; [|exact Hrest].
  simpl. unfold no_comma at 1. now rewrite Hc, Hw, E, Hn.
Qed.

Lemma parse_deps_tokens (deps_str : string) :
  all_chars Py.non_space deps_str = true ->
  Forall (fun d => token d /\ all_chars no_comma d = true) (parse_deps deps_str).
Proof.
  intros H. unfold parse_deps. destruct deps_str as [|c s] eqn:E; [constructor|].
  rewrite <- E in *. clear E.
  pose proof (split_on_pieces Py.non_space deps_str H) as Hp.
  induction Hp as [|x xs [Hx Hn] _ IH]; [constructor|].
  cbn [map filter].
  assert (Hs : PyStr.strip x = x).
  { unfold PyStr.strip. now rewrite (lstrip_non_space x Hx), rstrip_non_space. }
  rewrite Hs.
  destruct x as [|a x]; [exact IH|]. cbn [String.eqb negb].
  constructor; [|exact IH]. unfold token. split; [split|].
  - discriminate.
  - exact Hx.
  - exact Hn.
Qed.

Lemma extract_sha_nonempty (payload h : string) :
  extract_sha_from_payload payload = Some h -> h <> "".
Proof.
  induction payload as [|c p IH]; [discriminate|].
  cbn [extract_sha_from_payload].
  destruct (sha_here (String c p)); [exact IH|].
  intros H. injection H as <-. discriminate.
Qed.

Lemma rstrip_suffix (a b : string) :
  PyStr.rstrip (a ++ b) = a ++ b -> PyStr.rstrip b = b.
Proof.
  induction a as [|c a IH]; [auto|]. cbn [append PyStr.rstrip].
  destruct (PyStr.rstrip (a ++ b)) as [|d r] eqn:E.
  - destruct (PyStr.is_space c); [discriminate|].
    intros H. injection H as H. destruct a; [|discriminate].
    cbn [append] in H. now subst b.
  - intros H. injection H as H. apply IH. congruence.
Qed.

Lemma lstrip_suffix (s : string) : exists pre, s = pre ++ PyStr.lstrip s.
Proof.
  induction s as [|c s [pre IH]]; [now exists ""|]. cbn [PyStr.lstrip].
  destruct (PyStr.is_space c).
  - exists (String c pre). cbn [append]. now f_equal.
  - now exists "".
Qed.

Lemma step_re_match_suffix (s rest : string) :
  step_re_match s = Some rest -> exists pre, s = pre ++ rest.
Proof.
  unfold step_re_match. intros H.
  destruct s as [|c0 r]; [discriminate|].
  destruct (Ascii.eqb c0 "-") eqn:E0;
    [apply Ascii.eqb_eq in E0; subst c0
    |exfalso; destruct c0 as [[] [] [] [] [] [] [] []]; discriminate].
  destruct (lstrip_suffix r) as [p1 H1].
  destruct (PyStr.lstrip r) as [|c1 r2]; [discriminate|].
  destruct (Ascii.eqb c1 "[") eqn:E1;
    [apply Ascii.eqb_eq in E1; subst c1
    |exfalso; destruct c1 as [[] [] [] [] [] [] [] []]; discriminate].
  destruct (lstrip_suffix r2) as [p2 H2].
  destruct (PyStr.lstrip r2) as [|c2 r4]; [discriminate|].
  destruct (Ascii.eqb c2 "]") eqn:E2;
    [apply Ascii.eqb_eq in E2; subst c2
    |exfalso; destruct c2 as [[] [] [] [] [] [] [] []]; discriminate].
  destruct (lstrip_suffix r4) as [p3 H3].
  destruct r4 as [|c r5]; [discriminate|].
  destruct (PyStr.is_space c); [|discriminate].
  destruct (PyStr.lstrip (String c r5)) as [|c3 r6]; [discriminate|].
  injection H as <-.
  exists (String "-" (p1 ++ String "[" (p2 ++ String "]" p3))).
  rewrite H1, H2, H3. cbn [append]. rewrite !append_assoc. cbn [append].
  now rewrite !append_assoc.
Qed.

Lemma after_first_suffix (pat s t : string) :
  Py.after_first pat s = Some t -> exists pre, s = pre ++ t.
Proof.
  induction s as [|c s IH].
  - cbn [Py.after_first]. destruct (String.prefix pat "") eqn:E; [|discriminate].
    intros H. injection H as <-. exists pat. now apply prefix_split.
  - rewrite after_first_cons.
    destruct (String.prefix pat (String c s)) eqn:E.
    + intros H. injection H as <-. exists pat. now apply prefix_split.
    + intros H. destruct (IH H) as [pre ->]. now exists (String c pre).
Qed.

Lemma cut_trailing_rstrip (pat s : string) :
  PyStr.rstrip s = s -> PyStr.rstrip (cut_trailing pat s) = cut_trailing pat s.
Proof.
  intros H. unfold cut_trailing.
  destruct (Py.rfind pat s) as [[|i]|]; auto using rstrip_idem.
Qed.

(** One line: a step that comes out of it is well formed. *)
Lemma parse_step_line_well_formed (plan_id line : string) (st : step) :
  parse_step_line plan_id line = Step st -> well_formed_step plan_id st.
Proof.
  unfold parse_step_line.
  assert (Hstrip : PyStr.rstrip (PyStr.strip line) = PyStr.strip line)
    by apply rstrip_idem.
  destruct (step_re_match (PyStr.strip line)) as [rest|] eqn:Em; [|discriminate].
  apply step_re_match_suffix in Em. destruct Em as [pre Em].
  rewrite Em in Hstrip. apply rstrip_suffix in Hstrip.
  set (fields := dict_of (findall_fields rest 0)).
  destruct (dict_lookup "id" fields) as [step_id|] eqn:Eid; [|discriminate].
  destruct (dict_lookup "lane" fields) as [lane_text|]; [|discriminate].
  destruct (match dict_lookup "payload" fields with
            | Some _ => false
            | None => negb (payload_re_search rest)
            end); [discriminate|].
  destruct (Py.int lane_text) as [lane|]; [|discriminate].
  intros H. injection H as <-. unfold well_formed_step.
  cbn [s_id s_global_id s_deps s_dedupe_key s_payload].
  split; [reflexivity|]. split; [exact (dict_of_findall _ _ _ Eid)|].
  split; [|split].
  - destruct (dict_lookup "deps" fields) as [deps_str|] eqn:Ed; [|constructor].
    apply parse_deps_tokens. exact (proj2 (dict_of_findall _ _ _ Ed)).
  - destruct (dict_lookup "dedupe" fields) as [[|c k]|]; try discriminate;
      intros H; apply extract_sha_nonempty in H; congruence.
  - destruct (Py.after_first "payload=" rest) as [raw|] eqn:Ea.
    + apply after_first_suffix in Ea. destruct Ea as [pre' Ea].
      rewrite Ea in Hstrip. apply rstrip_suffix in Hstrip.
      now do 2 apply cut_trailing_rstrip.
    + destruct (dict_lookup "payload" fields) as [p|] eqn:Ep; [|reflexivity].
      apply rstrip_non_space. exact (proj2 (dict_of_findall _ _ _ Ep)).
Qed.

Lemma parse_steps_well_formed (plan_id : string) (lines : list string)
    (steps : list step) :
  parse_steps plan_id lines = inr steps ->
  Forall (well_formed_step plan_id) steps.
Proof.
  revert steps. induction lines as [|line lines IH]; intros steps H.
  - injection H as <-. constructor.
  - cbn [parse_steps] in H.
    destruct (parse_step_line plan_id line) as [| |st] eqn:E;
      [auto|discriminate|].
    destruct (parse_steps plan_id lines) as [|sts]; [discriminate|].
    injection H as <-. constructor; [|auto].
    exact (parse_step_line_well_formed _ _ _ E).
Qed.

(** X30: whatever the text of a plan is, every step that [parse_plan]
    returns is well formed: its global id is the plan id, [::] and its
    step id; the step id is a non-empty text without whitespace; each
    dependency is non-empty and has neither whitespace nor a comma; the
    dedupe key is absent or non-empty; and the payload carries no
    whitespace at its end. *)
Theorem parsed_steps_well_formed (slug text plan_id : string)
    (steps : list step) (pol : policy) :
  parse_plan slug text = inr (plan_id, steps, pol) ->
  Forall (well_formed_step plan_id) steps.
Proof.
  unfold parse_plan.
  destruct (find_plan_id (Py.splitlines text) slug) as [pid|]; [|discriminate].
  destruct (_ && _); [discriminate|].
  destruct (parse_steps pid (Py.splitlines text)) as [|sts] eqn:E;
    [discriminate|].
  intros H. injection H as <- <- _. exact (parse_steps_well_formed _ _ _ E).
Qed.

Lemma parsed_steps_well_formed_witness :
  let text :=
    "# Release" ++ String "010"
    ("Plan_ID= rel-7 " ++ String "010"
    ("- [x] id=old lane=0 payload=@cmd:true" ++ String "010"
    ("  -[ ] id=a lane=1_0 payload=@cmd:make all  deps=,x,,y dedupe=k1"
     ++ String "010"
    ("- [ ] lane=2 id=b payload= @file:p.diff#sha1=ab12 extra words"
     ++ String "010" "")))) in
  Forall (well_formed_step "rel-7")
    [mkStep "a" "rel-7::a" 10 "@cmd:make all" ["x"; "y"] (Some "k1");
     mkStep "b" "rel-7::b" 2 " @file:p.diff#sha1=ab12 extra words" []
            (Some "ab12")].
Proof.
  intros text.
  apply (parsed_steps_well_formed "plan" text "rel-7" _ []).
  vm_compute. reflexivity.
Defined.
